(** * wm-course-data: the course-list scraper [scrape.py]

    A shallow embedding of the scraper and the proofs of the properties its
    specification states about it.

    Python values are represented as follows.
    - [str] is [string]; a character is a code point below 256.
    - [int] is [Z].
    - A [dict] with [str] keys is an association list with distinct keys,
      kept in insertion order, as the interpreter keeps it.
    - A call either returns, raises, or never comes back: [outcome]. *)

From Stdlib Require Import String Ascii List ZArith Lia Bool Permutation.
From Stdlib Require Import Decimal DecimalString DecimalN DecimalZ.
Import ListNotations.

Open Scope string_scope.
Open Scope list_scope.

Set Implicit Arguments.

(* ================================================================= *)
(** * The Python primitives the script relies on *)

Module Py.

(** An exception: the name of its class and, where the script supplies
    one, its message. *)
Record exn : Type := mk_exn { exn_class : string; exn_msg : option string }.

Definition AttributeError : exn := mk_exn "AttributeError" None.
Definition IndexError : exn := mk_exn "IndexError" None.
Definition KeyError : exn := mk_exn "KeyError" None.
Definition TypeError : exn := mk_exn "TypeError" None.
Definition ValueError : exn := mk_exn "ValueError" None.
Definition Exception (msg : string) : exn := mk_exn "Exception" (Some msg).

Inductive outcome (A : Type) : Type :=
| Return (a : A)
| Raise (e : exn)
| Hang.

Arguments Return {A} a.
Arguments Raise {A} e.
Arguments Hang {A}.

Definition bind {A B} (m : outcome A) (k : A -> outcome B) : outcome B :=
  match m with
  | Return a => k a
  | Raise e => Raise e
  | Hang => Hang
  end.

(** [x[i]] on a list. *)
Definition index {A} (l : list A) (i : nat) : outcome A :=
  match nth_error l i with
  | Some a => Return a
  | None => Raise IndexError
  end.

(** Attribute access or a method call on a value that may be [None]. *)
Definition deref {A} (o : option A) : outcome A :=
  match o with
  | Some a => Return a
  | None => Raise AttributeError
  end.

(** ** Characters *)

(** [str.isspace] on one character; also what [\s] matches in a pattern
    on a [str]. *)
Definition is_space (c : ascii) : bool :=
  let n := N_of_ascii c in
  (((9 <=? n) && (n <=? 13)) || ((28 <=? n) && (n <=? 32))
   || (n =? 133) || (n =? 160))%N.

(** What [\d] matches. *)
Definition is_digit (c : ascii) : bool :=
  let n := N_of_ascii c in ((48 <=? n) && (n <=? 57))%N.

(** What [[A-Z]] matches. *)
Definition is_upper (c : ascii) : bool :=
  let n := N_of_ascii c in ((65 <=? n) && (n <=? 90))%N.

(** ** Strings *)

Definition is_empty (s : string) : bool :=
  match s with "" => true | _ => false end.

Fixpoint all_chars (p : ascii -> bool) (s : string) : bool :=
  match s with
  | "" => true
  | String c s' => p c && all_chars p s'
  end.

Fixpoint has_char (c : ascii) (s : string) : bool :=
  match s with
  | "" => false
  | String x s' => Ascii.eqb x c || has_char c s'
  end.

(** [s.split(c)] for a one-character separator. *)
Fixpoint split_char (c : ascii) (s : string) : list string :=
  match s with
  | "" => [""]
  | String x s' =>
      if Ascii.eqb x c then "" :: split_char c s'
      else match split_char c s' with
           | [] => [String x ""]
           | w :: ws => String x w :: ws
           end
  end.

(** [s.split(', ')]. *)
Fixpoint split_comma_space (s : string) : list string :=
  match s with
  | "" => [""]
  | String x s' =>
      let keep := match split_comma_space s' with
                  | [] => [String x ""]
                  | w :: ws => String x w :: ws
                  end in
      match s' with
      | String y r =>
          if Ascii.eqb x "," && Ascii.eqb y " "
          then "" :: split_comma_space r
          else keep
      | "" => keep
      end
  end.

(** [sep.join(l)]. *)
Definition join (sep : string) (l : list string) : string := String.concat sep l.

(** The characters of a string, as [for c in s] yields them. *)
Fixpoint chars (s : string) : list string :=
  match s with
  | "" => []
  | String c s' => String c "" :: chars s'
  end.

(** What is left of [s] after its prefix [p], [None] when [s] does not
    start with [p]. *)
Fixpoint after_prefix (p s : string) : option string :=
  match p with
  | "" => Some s
  | String a p' =>
      match s with
      | String b s' => if Ascii.eqb a b then after_prefix p' s' else None
      | "" => None
      end
  end.

(** The blanks [int] accepts around a literal.  [int] turns the blanks
    above the ASCII range (U+0085 and U+00A0 below 256) into spaces and
    then skips the blanks of C: tab to carriage return, and the space.
    The separators U+001C to U+001F, blanks for [str.isspace], are not
    among them. *)
Definition is_int_space (c : ascii) : bool :=
  let n := N_of_ascii c in
  (((9 <=? n) && (n <=? 13)) || (n =? 32) || (n =? 133) || (n =? 160))%N.

Fixpoint lstrip (s : string) : string :=
  match s with
  | String c s' => if is_int_space c then lstrip s' else s
  | "" => ""
  end.

Fixpoint rstrip (s : string) : string :=
  match s with
  | "" => ""
  | String c s' =>
      let r := rstrip s' in
      if is_int_space c && is_empty r then "" else String c r
  end.

(** The literal [int] reads: the string without the blanks around it. *)
Definition strip (s : string) : string := rstrip (lstrip s).

(** ** Integers *)

(** The digits of an integer literal: at least one digit, and single
    underscores allowed between digits. *)
Fixpoint int_digits (s : string) : option uint :=
  match s with
  | "" => None
  | String c s' =>
      match s' with
      | "" => uint_of_char c (Some Nil)
      | String "_" s'' => uint_of_char c (int_digits s'')
      | _ => uint_of_char c (int_digits s')
      end
  end.

Definition int_literal (s : string) : option Z :=
  match s with
  | String "-" r => option_map (fun u => Z.opp (Z.of_uint u)) (int_digits r)
  | String "+" r => option_map Z.of_uint (int_digits r)
  | _ => option_map Z.of_uint (int_digits s)
  end.

(** The number of digits of a literal. *)
Fixpoint count_digits (s : string) : N :=
  match s with
  | "" => 0
  | String c s' => ((if is_digit c then 1 else 0) + count_digits s')%N
  end.

(** The longest literal [int] converts, in digits
    ([sys.get_int_max_str_digits()], 4300 unless it is changed). *)
Definition max_str_digits : N := 4300.

(** [int(s)] in base 10: a [ValueError] for a string that is no literal,
    and for a literal of more than [max_str_digits] digits. *)
Definition int (s : string) : outcome Z :=
  match int_literal (strip s) with
  | Some z =>
      if (count_digits (strip s) <=? max_str_digits)%N then Return z
      else Raise ValueError
  | None => Raise ValueError
  end.

(** [str(z)], also what an f-string and [json.dumps] print for an [int]. *)
Definition str_of_int (z : Z) : string := NilZero.string_of_int (Z.to_int z).

(** ** Dictionaries with string keys *)

Definition dict (V : Type) : Type := list (string * V).

Fixpoint dict_get {V} (d : dict V) (k : string) : option V :=
  match d with
  | [] => None
  | (k', v) :: d' => if String.eqb k' k then Some v else dict_get d' k
  end.

(** [d[k] = v]: an existing key keeps its place, a new one goes last. *)
Fixpoint dict_set {V} (d : dict V) (k : string) (v : V) : dict V :=
  match d with
  | [] => [(k, v)]
  | (k', v') :: d' =>
      if String.eqb k' k then (k', v) :: d' else (k', v') :: dict_set d' k v
  end.

(** [d.update(other)]. *)
Definition dict_update {V} (d other : dict V) : dict V :=
  fold_left (fun acc kv => dict_set acc (fst kv) (snd kv)) other d.

(** [{k: v for k in ks}]. *)
Definition dict_const {V} (ks : list string) (v : V) : dict V :=
  fold_left (fun acc k => dict_set acc k v) ks [].

Definition keys {V} (d : dict V) : list string := map fst d.

End Py.

Import Py.

Declare Scope py_scope.
Notation "x <- m ;; k" := (bind m (fun x => k))
  (at level 61, m at next level, right associativity) : py_scope.
Open Scope py_scope.

(* ================================================================= *)
(** * The data model *)

Record Time : Type := mkTime { hour : Z; minute : Z }.

Record TimeSpan : Type := mkTimeSpan { start : Time; end_ : Time }.

Record Course : Type := mkCourse {
  crn : string;
  id : string;
  term : string;
  term_code : string;
  subject : string;
  subject_code : string;
  attributes : list string;
  title : string;
  instructor : string;
  credit_hours : string;
  time : dict TimeSpan;
  proj_enr : Z;
  curr_enr : Z;
  seats_avail : string;
  status : string
}.

(* ================================================================= *)
(** * [parse_time] *)

(** The named groups of a match of
    [(?P<days>[A-Z]+):(?P<start_hour>\d{2})(?P<start_minute>\d{2})\-
     (?P<end_hour>\d{2})(?P<end_minute>\d{2})]. *)
Record time_match : Type := mkMatch {
  g_days : string;
  g_start_hour : string;
  g_start_minute : string;
  g_end_hour : string;
  g_end_minute : string
}.

(** The longest run of characters satisfying [p] at the head of [s], and
    what follows it. *)
Fixpoint span_chars (p : ascii -> bool) (s : string) : string * string :=
  match s with
  | String c s' =>
      if p c then let (a, b) := span_chars p s' in (String c a, b)
      else ("", s)
  | "" => ("", "")
  end.

Definition two (a b : ascii) : string := String a (String b "").

(** [re.match(pattern, time)]: the pattern is matched at the start of the
    token and whatever follows the match is ignored.  [[A-Z]+] is greedy and
    [:] is not a capital letter, so giving letters back never helps. *)
Definition re_match_time (t : string) : option time_match :=
  let (days, rest) := span_chars is_upper t in
  if is_empty days then None
  else
    match rest with
    | String colon (String a (String b (String c (String d
        (String dash (String e (String f (String g (String h _))))))))) =>
        if Ascii.eqb colon ":"
           && is_digit a && is_digit b && is_digit c && is_digit d
           && Ascii.eqb dash "-"
           && is_digit e && is_digit f && is_digit g && is_digit h
        then Some (mkMatch days (two a b) (two c d) (two e f) (two g h))
        else None
    | _ => None
    end.

(** The body of the loop of [parse_time] for one token. *)
Definition parse_time_step (times : dict TimeSpan) (time : string)
  : outcome (dict TimeSpan) :=
  match re_match_time time with
  | None => Return times
  | Some m =>
      let days := g_days m in
      start_hour <- int (g_start_hour m) ;;
      start_minute <- int (g_start_minute m) ;;
      end_hour <- int (g_end_hour m) ;;
      end_minute <- int (g_end_minute m) ;;
      let time_span := mkTimeSpan (mkTime start_hour start_minute)
                                  (mkTime end_hour end_minute) in
      Return (dict_update times (dict_const (chars days) time_span))
  end.

Fixpoint parse_time_loop (tokens : list string) (times : dict TimeSpan)
  : outcome (dict TimeSpan) :=
  match tokens with
  | [] => Return times
  | t :: rest =>
      times' <- parse_time_step times t ;;
      parse_time_loop rest times'
  end.

(** [[t for t in course_times.split(' ') if t != '']]. *)
Definition time_tokens (course_times : string) : list string :=
  filter (fun t => negb (is_empty t)) (split_char " " course_times).

Definition parse_time (course_times : string) : outcome (dict TimeSpan) :=
  parse_time_loop (time_tokens course_times) [].

(** ** What a token stands for

    The value of a two-digit group, the [TimeSpan] a match denotes and the
    day letters it names; the theorems about [parse_time] are stated with
    them. *)

Definition digit_value (c : ascii) : Z := Z.of_N (N_of_ascii c) - 48.

Definition two_digit_value (s : string) : Z :=
  match s with
  | String a (String b "") => 10 * digit_value a + digit_value b
  | _ => 0
  end.

Definition span_of_match (m : time_match) : TimeSpan :=
  mkTimeSpan
    (mkTime (two_digit_value (g_start_hour m)) (two_digit_value (g_start_minute m)))
    (mkTime (two_digit_value (g_end_hour m)) (two_digit_value (g_end_minute m))).

Definition days_of_match (m : time_match) : list string := chars (g_days m).

(** Token [t] matches the pattern and [d] is one of its day letters. *)
Definition names_day (t d : string) : Prop :=
  exists m, re_match_time t = Some m /\ In d (days_of_match m).

(** One token applied to the mapping, without the error plumbing. *)
Definition apply_token (times : dict TimeSpan) (t : string) : dict TimeSpan :=
  match re_match_time t with
  | None => times
  | Some m => dict_update times (dict_const (days_of_match m) (span_of_match m))
  end.

(** The invariant the data model states for a [Time]. *)
Definition Time_invariant (t : Time) : Prop :=
  (0 <= hour t <= 23)%Z /\ (0 <= minute t <= 59)%Z.

(** What the two-digit groups of the pattern really guarantee. *)
Definition Time_two_digits (t : Time) : Prop :=
  (0 <= hour t <= 99)%Z /\ (0 <= minute t <= 99)%Z.

(** A token spelled exactly as the pattern: day letters, a colon, and two
    four-digit times separated by a dash. *)
Definition schedule_token (days : string) (a b c d e f g h : ascii) : string :=
  days ++ String ":" (String a (String b (String c (String d
          (String "-" (String e (String f (String g (String h ""))))))))).

(* ================================================================= *)
(** * Pages: markup, BeautifulSoup and the regular expressions

    The text of a page is a [string].  The regular expressions of the
    markup repair work on this text.  BeautifulSoup does not: it builds
    its tree from what [html.parser] reports for the text, a sequence of
    start tags, end tags and runs of text, with the tag and attribute
    names in lower case.  This sequence is the type [html], and
    [BeautifulSoup] below is the tree builder applied to it; the reading of
    the text by [html.parser] is a component of the [world].  Comments,
    declarations and processing instructions are outside the model. *)

Module Html.

Definition attrs : Type := list (string * string).

Inductive token : Type :=
| TStart (name : string) (a : attrs)
| TEnd (name : string)
| TText (s : string).

Definition html : Type := list token.

(** The tree BeautifulSoup builds: [NavigableString], [Tag], and the
    strings made while an [rt], [rp], [style], [script] or [template]
    element is open, which belong to a class of their own
    ([RubyTextString], [RubyParenthesisString], [Stylesheet], [Script],
    [TemplateString]), named here by the element. *)
Unset Elimination Schemes.
Inductive node : Type :=
| Text (s : string)
| Contained (container : string) (s : string)
| Tag (name : string) (a : attrs) (contents : list node).
Set Elimination Schemes.

(** [tag[key]] looks the attribute up in a dict built from the attributes
    in order, so the last of several wins. *)
Definition get_attr (a : attrs) (key : string) : option string :=
  dict_get (List.rev a) key.

(** ** The tree builder of [BeautifulSoup(markup, 'html.parser')] *)

(** An element that is still open, with the children it has so far, last
    first. *)
Record frame : Type := mkFrame {
  f_name : string;
  f_attrs : attrs;
  f_rev : list node
}.

(** [tagStack] without its root (innermost element first), the children of
    the root so far (last first), and [current_data]. *)
Record builder : Type := mkBuilder {
  stack : list frame;
  doc_rev : list node;
  current_data : list string
}.

Definition close_frame (f : frame) : node :=
  Tag (f_name f) (f_attrs f) (List.rev (f_rev f)).

(** [object_was_parsed]: the node becomes the last child of the innermost
    open element. *)
Definition add_node (n : node) (st : list frame) (doc : list node)
  : list frame * list node :=
  match st with
  | f :: rest => (mkFrame (f_name f) (f_attrs f) (n :: f_rev f) :: rest, doc)
  | [] => ([], n :: doc)
  end.

(** The elements that never have content ([empty_element_tags]). *)
Definition void_tags : list string :=
  ["area"; "base"; "br"; "col"; "embed"; "hr"; "img"; "input"; "keygen";
   "link"; "menuitem"; "meta"; "param"; "source"; "track"; "wbr";
   "basefont"; "bgsound"; "command"; "frame"; "image"; "isindex"; "nextid";
   "spacer"].

Definition is_void (name : string) : bool := existsb (String.eqb name) void_tags.

(** [preserve_whitespace_tags]. *)
Definition preserves_whitespace (st : list frame) : bool :=
  existsb (fun f => String.eqb (f_name f) "pre" || String.eqb (f_name f) "textarea") st.

(** The characters of [ASCII_SPACES]. *)
Definition is_ascii_space (c : ascii) : bool :=
  let n := N_of_ascii c in
  ((n =? 32) || (n =? 10) || (n =? 9) || (n =? 12) || (n =? 13))%N.

Definition newline : string := String "010" "".

(** [string_containers]: the elements whose strings have their own class. *)
Definition string_containers : list string :=
  ["rt"; "rp"; "style"; "script"; "template"].

Definition is_string_container (name : string) : bool :=
  existsb (String.eqb name) string_containers.

(** The top of [string_container_stack]: the innermost open element that
    is a string container. *)
Definition held_in (st : list frame) : option string :=
  option_map f_name (List.find (fun f => is_string_container (f_name f)) st).

(** The string object made of [s] below the open elements [st]. *)
Definition string_node (st : list frame) (s : string) : node :=
  match held_in st with
  | Some c => Contained c s
  | None => Text s
  end.

(** [endData]: the pending text becomes one string; a run of ASCII blanks
    shrinks to a single newline or space. *)
Definition endData (b : builder) : builder :=
  match current_data b with
  | [] => b
  | _ =>
      let s := String.concat "" (current_data b) in
      let s' := if all_chars is_ascii_space s && negb (preserves_whitespace (stack b))
                then (if has_char "010" s then newline else " ")
                else s in
      let (st, doc) := add_node (string_node (stack b) s') (stack b) (doc_rev b) in
      mkBuilder st doc []
  end.

(** [popTag]: the innermost open element is closed and stays where it was
    put when it was opened, the last child of the element below. *)
Definition popTag (st : list frame) (doc : list node) : list frame * list node :=
  match st with
  | [] => ([], doc)
  | f :: rest => add_node (close_frame f) rest doc
  end.

(** The loop of [_popToTag], which runs at most once for each open element. *)
Fixpoint pop_loop (n : nat) (name : string) (st : list frame) (doc : list node)
  : list frame * list node :=
  match n with
  | O => (st, doc)
  | S n' =>
      match st with
      | [] => (st, doc)
      | f :: _ =>
          let (st', doc') := popTag st doc in
          if String.eqb (f_name f) name then (st', doc')
          else pop_loop n' name st' doc'
      end
  end.

(** [_popToTag]: close the open elements down to and including the innermost
    one called [name]; nothing happens when no such element is open. *)
Definition popToTag (name : string) (st : list frame) (doc : list node)
  : list frame * list node :=
  if existsb (fun f => String.eqb (f_name f) name) st
  then pop_loop (length st) name st doc
  else (st, doc).

Definition handle_starttag (name : string) (a : attrs) (b : builder) : builder :=
  let b1 := endData b in
  if is_void name
  then let (st, doc) := add_node (Tag name a []) (stack b1) (doc_rev b1) in
       mkBuilder st doc []
  else mkBuilder (mkFrame name a [] :: stack b1) (doc_rev b1) [].

Definition handle_endtag (name : string) (b : builder) : builder :=
  let b1 := endData b in
  let (st, doc) := popToTag name (stack b1) (doc_rev b1) in
  mkBuilder st doc [].

Definition handle_data (s : string) (b : builder) : builder :=
  mkBuilder (stack b) (doc_rev b) (current_data b ++ [s]).

Definition feed_token (b : builder) (t : token) : builder :=
  match t with
  | TStart name a => handle_starttag name a b
  | TEnd name => handle_endtag name b
  | TText s => handle_data s b
  end.

Definition feed (b : builder) (markup : html) : builder :=
  fold_left feed_token markup b.

(** The end of the document: the pending text is flushed and every element
    still open is closed. *)
Fixpoint pop_all (n : nat) (st : list frame) (doc : list node) : list node :=
  match n with
  | O => doc
  | S n' => let (st', doc') := popTag st doc in pop_all n' st' doc'
  end.

Definition finish (b : builder) : node :=
  let b1 := endData b in
  Tag "[document]" [] (List.rev (pop_all (length (stack b1)) (stack b1) (doc_rev b1))).

(** [BeautifulSoup(markup, 'html.parser')], given what [html.parser]
    reports for the markup. *)
Definition BeautifulSoup (markup : html) : node :=
  finish (feed (mkBuilder [] [] []) markup).

(** ** Navigating the tree *)

(** [tag.descendants]: everything below a tag, in document order. *)
Fixpoint descendants (n : node) : list node :=
  match n with
  | Text _ | Contained _ _ => []
  | Tag _ _ cs =>
      (fix below (l : list node) : list node :=
         match l with
         | [] => []
         | c :: l' => c :: descendants c ++ below l'
         end) cs
  end.

Definition contents (n : node) : list node :=
  match n with
  | Text _ | Contained _ _ => []
  | Tag _ _ cs => cs
  end.

Definition is_tag_named (name : string) (n : node) : bool :=
  match n with
  | Tag name' _ _ => String.eqb name' name
  | Text _ | Contained _ _ => false
  end.

Definition has_id (v : string) (n : node) : bool :=
  match n with
  | Tag _ a _ => match get_attr a "id" with
                 | Some v' => String.eqb v' v
                 | None => false
                 end
  | Text _ | Contained _ _ => false
  end.

(** [tag.find_all(name)]. *)
Definition find_all (n : node) (name : string) : list node :=
  filter (is_tag_named name) (descendants n).

(** [tag.find(name)], [None] when there is none. *)
Definition find (n : node) (name : string) : option node :=
  List.find (is_tag_named name) (descendants n).

(** [tag.find(id=v)]. *)
Definition find_id (n : node) (v : string) : option node :=
  List.find (has_id v) (descendants n).

(** The strings below a node that are of the class [k] ([None] for
    [NavigableString]), joined in document order. *)
Fixpoint strings (k : option string) (n : node) : string :=
  match n with
  | Text s => match k with None => s | Some _ => "" end
  | Contained c s =>
      match k with
      | Some c' => if String.eqb c c' then s else ""
      | None => ""
      end
  | Tag _ _ cs =>
      (fix all (l : list node) : string :=
         match l with
         | [] => ""
         | c :: l' => (strings k c ++ all l')%string
         end) cs
  end.

(** [tag.text]: the strings below the tag that are of the class the tag
    is interested in, joined; for every tag but a string container this is
    [NavigableString] (bs4 4.11 and later).  A string is its own text. *)
Definition text (n : node) : string :=
  match n with
  | Text s | Contained _ s => s
  | Tag name _ _ =>
      strings (if is_string_container name then Some name else None) n
  end.

(** ** The spelling of markup *)

Definition double_quote : string := String "034" "".

Definition spell_attr (kv : string * string) : string :=
  (" " ++ fst kv ++ "=" ++ double_quote ++ snd kv ++ double_quote)%string.

(** A start tag [<name k="v" ...>], an end tag [</name>], or the text as
    it is. *)
Definition spell_token (t : token) : string :=
  match t with
  | TStart name a =>
      ("<" ++ name ++ String.concat "" (map spell_attr a) ++ ">")%string
  | TEnd name => ("</" ++ name ++ ">")%string
  | TText s => s
  end.

Definition spell (markup : html) : string :=
  String.concat "" (map spell_token markup).

Definition is_lower (c : ascii) : bool :=
  let n := N_of_ascii c in ((97 <=? n) && (n <=? 122))%N.

Definition is_name_char (c : ascii) : bool := is_lower c || is_digit c.

Definition is_tag_name (name : string) : bool :=
  match name with
  | String c r => is_lower c && all_chars is_name_char r
  | "" => false
  end.

Definition is_attr_char (c : ascii) : bool :=
  is_lower c || is_digit c || Ascii.eqb c "-".

Definition is_attr_name (k : string) : bool :=
  match k with
  | String c r => is_lower c && all_chars is_attr_char r
  | "" => false
  end.

Definition is_value_char (c : ascii) : bool :=
  negb (Ascii.eqb c "034" || Ascii.eqb c "&" || Ascii.eqb c "<" || Ascii.eqb c ">").

Definition is_text_char (c : ascii) : bool :=
  negb (Ascii.eqb c "<" || Ascii.eqb c "&").

(** The elements whose content [html.parser] does not read as markup, in
    one version of Python or another. *)
Definition raw_text_elements : list string :=
  ["script"; "style"; "textarea"; "title"; "plaintext"; "xmp"; "iframe";
   "noembed"; "noframes"; "noscript"].

(** The tokens whose spelling [html.parser] reads back as they are: names
    in lower case, made of letters and digits, attribute values without
    quote, ampersand or angle bracket, text that is not empty and holds
    neither [<] nor [&], and no element with raw text. *)
Definition canonical_token (t : token) : bool :=
  match t with
  | TStart name a =>
      is_tag_name name
      && negb (existsb (String.eqb name) raw_text_elements)
      && forallb (fun kv => is_attr_name (fst kv) && all_chars is_value_char (snd kv)) a
  | TEnd name => is_tag_name name
  | TText s => negb (is_empty s) && all_chars is_text_char s
  end.

Definition canonical (markup : html) : bool := forallb canonical_token markup.

(** ** The two substitutions of the markup repair *)

(** [re.sub(pattern, repl, s)] for a pattern that matches no empty string
    and a replacement without references.  [match_at s] is what follows
    the match of the pattern at the start of [s], if there is one.  The text
    is read from left to right; a character at which no match starts is
    kept, and after a match the reading goes on behind it ([skip] is the
    number of characters of the match that are still to be passed). *)
Fixpoint re_sub_from (match_at : string -> option string) (repl : string)
         (skip : nat) (s : string) : string :=
  match s with
  | "" => ""
  | String c r =>
      match skip with
      | S k => re_sub_from match_at repl k r
      | O =>
          match match_at s with
          | Some rest =>
              (repl ++ re_sub_from match_at repl
                                   (String.length r - String.length rest) r)%string
          | None => String c (re_sub_from match_at repl 0 r)
          end
      end
  end.

Definition re_sub (match_at : string -> option string) (repl s : string) : string :=
  re_sub_from match_at repl 0 s.

(** [re.sub(r'<tbody>', '<tbody><tr>', markup)]. *)
Definition sub_tbody (markup : string) : string :=
  re_sub (after_prefix "<tbody>") "<tbody><tr>" markup.

(** What follows the longest run of [\s] at the start of [s]. *)
Fixpoint skip_spaces (s : string) : string :=
  match s with
  | String c r => if is_space c then skip_spaces r else s
  | "" => ""
  end.

(** A match of [</tr>\s*<td>] at the start of [s]: [\s*] takes every
    blank, and giving blanks back never helps, as [<] is none. *)
Definition match_tr_td (s : string) : option string :=
  match after_prefix "</tr>" s with
  | Some r => after_prefix "<td>" (skip_spaces r)
  | None => None
  end.

(** [re.sub(r'</tr>\s*<td>', '</tr><tr><td>', markup)]. *)
Definition sub_tr_td (markup : string) : string :=
  re_sub match_tr_td "</tr><tr><td>" markup.

End Html.

Import Html.

(* ================================================================= *)
(** * [parse_table] *)

Section ParseTable.

(** [unicodedata.normalize('NFC', _)]. *)
Variable normalize : string -> string.

Variables term term_code subject subject_code : string.

(** The body of the loop of [parse_table] for one row. *)
Definition parse_row (row : node) : outcome Course :=
  let cells := find_all row "td" in
  c0 <- index cells 0 ;;
  a <- deref (find c0 "a") ;;
  let crn := text a in
  c1 <- index cells 1 ;;
  let id := text c1 in
  c2 <- index cells 2 ;;
  let attributes := map normalize (split_comma_space (text c2)) in
  c3 <- index cells 3 ;;
  let title := text c3 in
  c4 <- index cells 4 ;;
  let instructor := text c4 in
  c5 <- index cells 5 ;;
  let credit_hours := text c5 in
  c6 <- index cells 6 ;;
  time <- parse_time (text c6) ;;
  c7 <- index cells 7 ;;
  proj_enr <- int (text c7) ;;
  c8 <- index cells 8 ;;
  curr_enr <- int (text c8) ;;
  c9 <- index cells 9 ;;
  let seats_avail := text c9 in
  c10 <- index cells 10 ;;
  let status := text c10 in
  Return (mkCourse crn id term term_code subject subject_code attributes
                   title instructor credit_hours time proj_enr curr_enr
                   seats_avail status).

Fixpoint parse_rows (trs : list node) (rows : list Course)
  : outcome (list Course) :=
  match trs with
  | [] => Return rows
  | row :: rest =>
      c <- parse_row row ;;
      parse_rows rest (rows ++ [c])
  end.

(** [soup.find(id='results').find('table').find('tbody')]. *)
Definition results_tbody (soup : node) : outcome node :=
  results <- deref (find_id soup "results") ;;
  table <- deref (find results "table") ;;
  deref (find table "tbody").

Definition parse_table (soup : node) : outcome (list Course) :=
  tbody <- results_tbody soup ;;
  parse_rows (find_all tbody "tr") [].

End ParseTable.

(* ================================================================= *)
(** * [make_url] and [fetch] *)

Definition make_url (term subject : string) : string :=
  "https://courselist.wm.edu/courselist/courseinfo/searchresults"
  ++ "?term_code=" ++ term ++ "&term_subj=" ++ subject
  ++ "&attr=0&attr2=0&levl=0&status=0&ptrm=0&search=Search".

(** The [{"name": ..., "code": ...}] dictionaries of [parse_select]. *)
Record subject_info : Type := mkInfo { name : string; code : string }.

(** The body of the loop of [parse_select] for one child of the list.  A
    string of any class compares with ["\n"] by its characters, a tag is
    never equal to it; [el['value']] on a string is a [TypeError], on a tag
    without the attribute a [KeyError]. *)
Definition parse_select_step (out : list subject_info) (el : node)
  : outcome (list subject_info) :=
  match el with
  | Text s | Contained _ s =>
      if String.eqb s newline then Return out else Raise TypeError
  | Tag _ a _ =>
      match get_attr a "value" with
      | None => Raise KeyError
      | Some v =>
          if String.eqb v "0" then Return out
          else Return (out ++ [mkInfo (text el) v])
      end
  end.

Fixpoint parse_select_loop (els : list node) (out : list subject_info)
  : outcome (list subject_info) :=
  match els with
  | [] => Return out
  | el :: rest =>
      out' <- parse_select_step out el ;;
      parse_select_loop rest out'
  end.

(** [parse_select(id_)]; iterating over [None] is a [TypeError]. *)
Definition parse_select (soup : node) (id_ : string) : outcome (list subject_info) :=
  match find_id soup id_ with
  | None => Raise TypeError
  | Some el => parse_select_loop (contents el) []
  end.

(** What the network does with a request: an answer or a failure after
    some time, or nothing ever. *)
Inductive reply : Type :=
| Answer (elapsed : nat) (text : string)
| Failure (elapsed : nat) (e : exn)
| Silence.

(** [requests.get(url).text]. *)
Definition response_text (r : reply) : outcome string :=
  match r with
  | Answer _ t => Return t
  | Failure _ e => Raise e
  | Silence => Hang
  end.

(** A [Future]: the arguments of the task, the time at which it is done,
    counted from the call of [futures.wait] ([None] if it never is), and
    what [result()] gives once it is done. *)
Record future : Type := mkFuture {
  fut_args : subject_info * subject_info;
  fut_done_at : option nat;
  fut_result : outcome (list Course)
}.

(** The task of the future comes to an end. *)
Definition completes (fu : future) : bool :=
  match fut_done_at fu with Some _ => true | None => false end.

(** What the script runs in: the normalisation of [unicodedata], what
    [html.parser] reports for a text, the network, and the order in which a
    [set] of futures is iterated. *)
Record world : Type := mkWorld {
  normalize : string -> string;
  html_parser : string -> html;
  requests_get : string -> reply;
  set_order : list future -> list future;
  set_order_perm : forall fs, Permutation (set_order fs) fs
}.

Definition MAX_CONCURRENCY : nat := 20.

Definition landing_url : string := "https://courselist.wm.edu/courselist/".

Section Fetch.

Variable w : world.

(** The markup repair of the task: the two substitutions, applied when
    the body of the table has a cell. *)
Definition repaired_soup (page : string) : outcome node :=
  let soup := BeautifulSoup (html_parser w page) in
  tbody <- results_tbody soup ;;
  if (0 <? length (find_all tbody "td"))%nat
  then
    let html_normalized := sub_tbody page in
    let html_normalized := sub_tr_td html_normalized in
    Return (BeautifulSoup (html_parser w html_normalized))
  else Return soup.

(** The task [f(term, subject)]. *)
Definition f (term subject : subject_info) : outcome (list Course) :=
  let url := make_url (code term) (code subject) in
  page <- response_text (requests_get w url) ;;
  soup <- repaired_soup page ;;
  parse_table (normalize w) (name term) (code term) (name subject) (code subject)
              soup.

(** [executor.submit(f, term, subject)]: the task is done when its
    request is. *)
Definition submit (term subject : subject_info) : future :=
  mkFuture (term, subject)
           (match requests_get w (make_url (code term) (code subject)) with
            | Answer t _ | Failure t _ => Some t
            | Silence => None
            end)
           (f term subject).

(** The two loops that submit the tasks, with their bounds. *)
Definition submit_all (terms subjects : list subject_info) : list future :=
  flat_map (fun term => map (fun subject => submit term subject)
                            (firstn 10 subjects))
           (firstn 1 terms).

Definition done_by (timeout : nat) (fu : future) : bool :=
  match fut_done_at fu with
  | Some t => (t <=? timeout)%nat
  | None => false
  end.

(** [futures.wait(fs, timeout, return_when=ALL_COMPLETED)]. *)
Definition wait (fs : list future) (timeout : nat) : list future * list future :=
  (set_order w (filter (done_by timeout) fs),
   set_order w (filter (fun fu => negb (done_by timeout fu)) fs)).

(** [[f.result(timeout=1) for f in finished]]. *)
Fixpoint results (finished : list future) : outcome (list (list Course)) :=
  match finished with
  | [] => Return []
  | fu :: rest =>
      r <- fut_result fu ;;
      rs <- results rest ;;
      Return (r :: rs)
  end.

(** Leaving the [with] block shuts the executor down and waits for every
    task that is still running, also when an exception is on its way. *)
Definition leave_with {A} (fs : list future) (o : outcome A) : outcome A :=
  if forallb completes fs then o else Hang.

Definition fetch_tasks (terms subjects : list subject_info)
  : outcome (list Course) :=
  let fs := submit_all terms subjects in
  leave_with fs
    (let (finished, pending) := wait fs 60 in
     if (0 <? length pending)%nat
     then Raise (Exception "some jobs did not complete successfully")
     else
       result_sets <- results finished ;;
       Return (concat result_sets)).

(** The landing page and its two lists. *)
Definition fetch_index : outcome (list subject_info * list subject_info) :=
  r <- response_text (requests_get w landing_url) ;;
  let soup := BeautifulSoup (html_parser w r) in
  terms <- parse_select soup "term_code" ;;
  subjects <- parse_select soup "term_subj" ;;
  Return (terms, subjects).

Definition fetch : outcome (list Course) :=
  idx <- fetch_index ;;
  fetch_tasks (fst idx) (snd idx).

End Fetch.

(** ** Words for the statements about rows *)

(** The text of the [i]-th cell of a row, counting from 0. *)
Definition cell_text (row : node) (i : nat) : option string :=
  option_map text (nth_error (find_all row "td") i).

(** The projected-enrollment cell (column 7) or the current-enrollment cell
    (column 8) of the row is there and [int] rejects it. *)
Definition bad_enrollment (row : node) : Prop :=
  (exists s, cell_text row 7 = Some s /\ int s = Raise ValueError)
  \/ (exists s, cell_text row 8 = Some s /\ int s = Raise ValueError).

(** The first cell of the row holds a link, from which the CRN is read. *)
Definition has_crn_link (row : node) : Prop :=
  exists c0 a, nth_error (find_all row "td") 0 = Some c0 /\ find c0 "a" = Some a.

(** The entries [parse_select] keeps among the children of a list. *)
Definition select_entries (els : list node) : list subject_info :=
  flat_map (fun el =>
              match el with
              | Tag _ a _ =>
                  match get_attr a "value" with
                  | Some v => if String.eqb v "0" then [] else [mkInfo (text el) v]
                  | None => []
                  end
              | Text _ | Contained _ _ => []
              end) els.

(** A child [parse_select] copes with: the string ["\n"], of whatever
    class, or an element with a [value]. *)
Definition select_child (el : node) : Prop :=
  el = Text newline
  \/ (exists c, el = Contained c newline)
  \/ exists nm a cs v, el = Tag nm a cs /\ get_attr a "value" = Some v.

(** The cross product of two lists, in the order of two nested loops. *)
Definition cross_product {A B} (xs : list A) (ys : list B) : list (A * B) :=
  flat_map (fun x => map (fun y => (x, y)) ys) xs.

(** The rows [parse_table] goes through. *)
Definition table_rows (soup : node) : outcome (list node) :=
  tbody <- results_tbody soup ;;
  Return (find_all tbody "tr").

(** The number of rows a task came back with. *)
Definition row_count (fu : future) : nat :=
  match fut_result fu with
  | Return rows => length rows
  | _ => 0
  end.

(** The task is done within the deadline and came back with rows. *)
Definition succeeds_within (timeout : nat) (fu : future) : Prop :=
  done_by timeout fu = true /\ exists rows, fut_result fu = Return rows.

(* ================================================================= *)
(** * [json.dumps] and [json.loads]

    The values the script serializes are dictionaries with string keys
    whose leaves are integers; the model of [json] covers objects, strings
    and integers, and [loads] gives [None] where the library raises or
    returns a value of another kind. *)

Module Json.

Unset Elimination Schemes.
Inductive value : Type :=
| JInt (z : Z)
| JStr (s : string)
| JObj (members : dict value).
Set Elimination Schemes.

Definition quote_char : ascii := "034".
Definition backslash : ascii := "092".

Definition hex_digit (n : N) : ascii :=
  ascii_of_N (if (n <? 10)%N then 48 + n else 87 + n).

(** [py_encode_basestring_ascii] on one character: the short escapes, the
    printable ASCII characters as they are, and [\u00XX] for the rest. *)
Definition escape_char (c : ascii) : string :=
  let n := N_of_ascii c in
  if (n =? 34)%N then String backslash (String quote_char "")
  else if (n =? 92)%N then String backslash (String backslash "")
  else if (n =? 10)%N then String backslash "n"
  else if (n =? 13)%N then String backslash "r"
  else if (n =? 9)%N then String backslash "t"
  else if (n =? 12)%N then String backslash "f"
  else if (n =? 8)%N then String backslash "b"
  else if ((32 <=? n) && (n <=? 126))%N then String c ""
  else String backslash
         (String "u" (String "0" (String "0"
            (String (hex_digit (n / 16)) (String (hex_digit (n mod 16)) ""))))).

Fixpoint escape (s : string) : string :=
  match s with
  | "" => ""
  | String c r => (escape_char c ++ escape r)%string
  end.

Definition encode_string (s : string) : string :=
  String quote_char (escape s ++ String quote_char "")%string.

(** [json.dumps(v)] with the default separators. *)
Fixpoint dumps (v : value) : string :=
  match v with
  | JInt z => str_of_int z
  | JStr s => encode_string s
  | JObj members =>
      ("{" ++ join ", " (map (fun kv : string * value =>
                                (encode_string (fst kv) ++ ": " ++ dumps (snd kv))%string)
                             members)
           ++ "}")%string
  end.

(** ** Reading *)

Definition is_json_space (c : ascii) : bool :=
  let n := N_of_ascii c in ((n =? 32) || (n =? 9) || (n =? 10) || (n =? 13))%N.

Fixpoint skip_ws (s : string) : string :=
  match s with
  | String c r => if is_json_space c then skip_ws r else s
  | "" => ""
  end.

Definition hex_value (c : ascii) : option N :=
  let n := N_of_ascii c in
  if ((48 <=? n) && (n <=? 57))%N then Some (n - 48)%N
  else if ((97 <=? n) && (n <=? 102))%N then Some (n - 87)%N
  else if ((65 <=? n) && (n <=? 70))%N then Some (n - 55)%N
  else None.

(** The character a [\uXXXX] escape stands for, when it is below 256. *)
Definition unicode_escape (h1 h2 h3 h4 : ascii) : option ascii :=
  match hex_value h1, hex_value h2, hex_value h3, hex_value h4 with
  | Some a, Some b, Some c, Some d =>
      let n := (((a * 16 + b) * 16 + c) * 16 + d)%N in
      if (n <? 256)%N then Some (ascii_of_N n) else None
  | _, _, _, _ => None
  end.

(** The table [BACKSLASH] of the decoder. *)
Definition short_escape (e : ascii) : option ascii :=
  let n := N_of_ascii e in
  if (n =? 34)%N then Some quote_char
  else if (n =? 92)%N then Some backslash
  else if (n =? 47)%N then Some "/"%char
  else if (n =? 98)%N then Some "008"%char
  else if (n =? 102)%N then Some "012"%char
  else if (n =? 110)%N then Some "010"%char
  else if (n =? 114)%N then Some "013"%char
  else if (n =? 116)%N then Some "009"%char
  else None.

Definition prepend (c : ascii) (r : option (string * string)) : option (string * string) :=
  match r with
  | Some (s, rest) => Some (String c s, rest)
  | None => None
  end.

(** [py_scanstring], after the opening quote: the string and what follows
    its closing quote. *)
Fixpoint scan_string (s : string) : option (string * string) :=
  match s with
  | "" => None
  | String c r =>
      if Ascii.eqb c quote_char then Some ("", r)
      else if Ascii.eqb c backslash then
        match r with
        | String e r' =>
            if Ascii.eqb e "u" then
              match r' with
              | String h1 (String h2 (String h3 (String h4 r''))) =>
                  match unicode_escape h1 h2 h3 h4 with
                  | Some ch => prepend ch (scan_string r'')
                  | None => None
                  end
              | _ => None
              end
            else
              match short_escape e with
              | Some ch => prepend ch (scan_string r')
              | None => None
              end
        | "" => None
        end
      else if (N_of_ascii c <? 32)%N then None
      else prepend c (scan_string r)
  end.

(** The longest run of digits at the head of [s]. *)
Fixpoint take_digits (s : string) : uint * string :=
  match s with
  | String c r =>
      if is_digit c then
        let (u, rest) := take_digits r in
        match uint_of_char c (Some u) with
        | Some u' => (u', rest)
        | None => (u, rest)
        end
      else (Nil, s)
  | "" => (Nil, "")
  end.

Definition starts_fraction (s : string) : bool :=
  match s with
  | String c _ => Ascii.eqb c "." || Ascii.eqb c "e" || Ascii.eqb c "E"
  | "" => false
  end.

(** An integer literal: digits without a superfluous leading zero, not
    followed by a fraction or an exponent. *)
Definition scan_natural (s : string) : option (Z * string) :=
  let (u, rest) := take_digits s in
  if starts_fraction rest then None
  else match u with
       | Nil => None
       | D0 Nil => Some (0%Z, rest)
       | D0 _ => None
       | _ => Some (Z.of_uint u, rest)
       end.

Definition scan_number (s : string) : option (value * string) :=
  match s with
  | String c r =>
      if Ascii.eqb c "-" then
        match scan_natural r with
        | Some (z, rest) => Some (JInt (- z), rest)
        | None => None
        end
      else
        match scan_natural s with
        | Some (z, rest) => Some (JInt z, rest)
        | None => None
        end
  | "" => None
  end.

(** [dict(pairs)]. *)
Definition dict_of_pairs (pairs : list (string * value)) : dict value :=
  fold_left (fun d kv => dict_set d (fst kv) (snd kv)) pairs [].

(** A value, and the members of an object after its first [{], [pairs]
    being those read so far.  [fuel] bounds the number of values and
    members and is never short in [loads]. *)
Fixpoint scan_value (fuel : nat) (s : string) : option (value * string) :=
  match fuel with
  | O => None
  | S fuel' =>
      match s with
      | "" => None
      | String c r =>
          if Ascii.eqb c quote_char then
            match scan_string r with
            | Some (str, rest) => Some (JStr str, rest)
            | None => None
            end
          else if Ascii.eqb c "{" then
            match skip_ws r with
            | "" => None
            | String c1 r1 =>
                if Ascii.eqb c1 "}" then Some (JObj [], r1)
                else scan_members fuel' (String c1 r1) []
            end
          else scan_number s
      end
  end
with scan_members (fuel : nat) (s : string) (pairs : list (string * value))
  : option (value * string) :=
  match fuel with
  | O => None
  | S fuel' =>
      match s with
      | "" => None
      | String c r =>
          if Ascii.eqb c quote_char then
            match scan_string r with
            | None => None
            | Some (key, r1) =>
                match skip_ws r1 with
                | "" => None
                | String c2 r2 =>
                    if Ascii.eqb c2 ":" then
                      match scan_value fuel' (skip_ws r2) with
                      | None => None
                      | Some (v, r3) =>
                          let pairs' := pairs ++ [(key, v)] in
                          match skip_ws r3 with
                          | "" => None
                          | String c4 r4 =>
                              if Ascii.eqb c4 "}"
                              then Some (JObj (dict_of_pairs pairs'), r4)
                              else if Ascii.eqb c4 ","
                              then scan_members fuel' (skip_ws r4) pairs'
                              else None
                          end
                      end
                    else None
                end
            end
          else None
      end
  end.

(** [json.loads(s)]. *)
Definition loads (s : string) : option value :=
  match scan_value (S (String.length s)) (skip_ws s) with
  | Some (v, rest) => if is_empty (skip_ws rest) then Some v else None
  | None => None
  end.

End Json.

Import Json.

(* ================================================================= *)
(** * The insert statement *)

Definition dquote : string := String quote_char "".

(** [list_to_db_array]. *)
Definition list_to_db_array (li : list string) : string :=
  let li_str := join ", " (map (fun s => (dquote ++ s ++ dquote)%string) li) in
  ("{" ++ li_str ++ "}")%string.

(** [dataclasses.asdict] on a [Time] and on a [TimeSpan]. *)
Definition asdict_Time (t : Time) : value :=
  JObj [("hour", JInt (hour t)); ("minute", JInt (minute t))].

Definition asdict (time_span : TimeSpan) : value :=
  JObj [("start", asdict_Time (start time_span));
        ("end", asdict_Time (end_ time_span))].

(** [{day: dataclasses.asdict(time_span) for day, time_span in times.items()}]. *)
Definition times_document (times : dict TimeSpan) : value :=
  JObj (map (fun kv => (fst kv, asdict (snd kv))) times).

(** [times_to_json]. *)
Definition times_to_json (times : dict TimeSpan) : string :=
  dumps (times_document times).

Definition squote (s : string) : string := ("'" ++ s ++ "'")%string.

(** [course_to_db_insert_query]. *)
Definition course_to_db_insert_query (c : Course) : string :=
  ("(" ++ join ", "
     [squote (crn c); squote (id c); squote (term c); squote (term_code c);
      squote (subject c); squote (subject_code c);
      squote (list_to_db_array (attributes c)); squote (title c);
      squote (instructor c); squote (credit_hours c);
      squote (times_to_json (time c)); squote (str_of_int (proj_enr c));
      squote (str_of_int (curr_enr c)); squote (seats_avail c);
      squote (status c)]
   ++ ")")%string.

(** The values occur in the string one after the other, in this order. *)
Fixpoint occurs_in_order (vals : list string) (s : string) : Prop :=
  match vals with
  | [] => True
  | v :: vs => exists pre post, s = (pre ++ v ++ post)%string /\ occurs_in_order vs post
  end.

(** Every object of the value has distinct keys, as a [dict] has. *)
Fixpoint distinct_keys (v : value) : Prop :=
  match v with
  | JObj members =>
      NoDup (keys members)
      /\ (fix all (ms : dict value) : Prop :=
            match ms with
            | [] => True
            | kv :: ms' => distinct_keys (snd kv) /\ all ms'
            end) members
  | _ => True
  end.

(** How many values and members [loads] goes through to read a value. *)
Fixpoint cost (v : value) : nat :=
  match v with
  | JObj members =>
      S ((fix members_cost (ms : dict value) : nat :=
            match ms with
            | [] => O
            | kv :: ms' => S (Nat.max (cost (snd kv)) (members_cost ms'))
            end) members)
  | _ => 1
  end.

Fixpoint members_cost (ms : dict value) : nat :=
  match ms with
  | [] => O
  | kv :: ms' => S (Nat.max (cost (snd kv)) (members_cost ms'))
  end.

(** One member of an object, as [dumps] writes it. *)
Definition member (kv : string * value) : string :=
  (encode_string (fst kv) ++ ": " ++ dumps (snd kv))%string.

(** What may follow a value: nothing, a comma or a closing brace. *)
Definition delimited (rest : string) : Prop :=
  match rest with
  | "" => True
  | String c _ => c = ","%char \/ c = "}"%char
  end.

(** What may follow the digits of an integer: no further digit, and no
    fraction or exponent. *)
Definition no_digit_ahead (rest : string) : Prop :=
  match rest with
  | "" => True
  | String c _ => is_digit c = false
  end.

Definition number_tail (rest : string) : Prop :=
  no_digit_ahead rest /\ starts_fraction rest = false.

(* ================================================================= *)
(** * Well-nested markup

    To state what the markup repair achieves, pages are described by their
    nesting: a sequence of text, elements with their content, void
    elements, and end tags that close nothing (the [</tr>] of the course
    list).  [render] writes such a description as markup and [build] is the
    tree BeautifulSoup makes of it. *)

Inductive items : Type :=
| Done
| Txt (s : string) (rest : items)
| Void (name : string) (a : attrs) (rest : items)
| Elem (name : string) (a : attrs) (body : items) (rest : items)
| Stray (name : string) (rest : items).

(** One sequence after the other. *)
Fixpoint seq (l r : items) : items :=
  match l with
  | Done => r
  | Txt s rest => Txt s (seq rest r)
  | Void name a rest => Void name a (seq rest r)
  | Elem name a body rest => Elem name a body (seq rest r)
  | Stray name rest => Stray name (seq rest r)
  end.

Definition seq_all (ls : list items) : items := fold_right seq Done ls.

Fixpoint render (l : items) : html :=
  match l with
  | Done => []
  | Txt s rest => TText s :: render rest
  | Void name a rest => TStart name a :: render rest
  | Elem name a body rest =>
      TStart name a :: render body ++ TEnd name :: render rest
  | Stray name rest => TEnd name :: render rest
  end.

(** What [endData] makes of the pending text, [pw] telling whether an
    enclosing element preserves whitespace. *)
Definition flush (pw : bool) (d : list string) : list node :=
  match d with
  | [] => []
  | _ =>
      let s := String.concat "" d in
      [Text (if all_chars is_ascii_space s && negb pw
             then (if has_char "010" s then newline else " ")
             else s)]
  end.

Definition keeps_whitespace (name : string) : bool :=
  String.eqb name "pre" || String.eqb name "textarea".

(** The children BeautifulSoup gives an element for the items [l], [d]
    being the text read just before them. *)
Fixpoint build (pw : bool) (d : list string) (l : items) : list node :=
  match l with
  | Done => flush pw d
  | Txt s rest => build pw (d ++ [s]) rest
  | Void name a rest => flush pw d ++ Tag name a [] :: build pw [] rest
  | Elem name a body rest =>
      flush pw d
      ++ Tag name a (build (keeps_whitespace name || pw) [] body)
      :: build pw [] rest
  | Stray name rest => flush pw d ++ build pw [] rest
  end.

(** The builder with open elements [st] and document [doc] after the nodes
    [ns] became the last children of its innermost open element, [d] being
    the pending text. *)
Definition grown (st : list frame) (doc : list node) (ns : list node)
           (d : list string) : builder :=
  match st with
  | f :: rest =>
      mkBuilder (mkFrame (f_name f) (f_attrs f) (List.rev ns ++ f_rev f) :: rest)
                doc d
  | [] => mkBuilder [] (List.rev ns ++ doc) d
  end.

(** The tags called [name] among the nodes [cs] and below them, in
    document order. *)
Definition find_all_in (cs : list node) (name : string) : list node :=
  filter (is_tag_named name) (flat_map (fun c => c :: descendants c) cs).

(** The items are properly nested below open elements called [open]: an
    element is neither void nor a string container, a void element is
    void, and a stray end tag names no open element. *)
Fixpoint nested (open : list string) (l : items) : Prop :=
  match l with
  | Done => True
  | Txt _ rest => nested open rest
  | Void name _ rest => is_void name = true /\ nested open rest
  | Elem name _ body rest =>
      is_void name = false /\ is_string_container name = false
      /\ nested (name :: open) body /\ nested open rest
  | Stray name rest =>
      existsb (String.eqb name) open = false /\ nested open rest
  end.

(** What a cell may hold: text and properly nested elements, none of them
    a row, a table body or a string container. *)
Fixpoint cell_content (l : items) : Prop :=
  match l with
  | Done => True
  | Txt _ rest => cell_content rest
  | Void name _ rest => is_void name = true /\ cell_content rest
  | Elem name _ body rest =>
      is_void name = false /\ is_string_container name = false
      /\ name <> "tr" /\ name <> "tbody"
      /\ cell_content body /\ cell_content rest
  | Stray _ _ => False
  end.

(** Blank text only. *)
Fixpoint blanks (sp : items) : Prop :=
  match sp with
  | Done => True
  | Txt s rest => all_chars is_space s = true /\ blanks rest
  | _ => False
  end.

Section Tables.

(** The blank text the page has between its tags. *)
Variable sp : items.

(** A table: its rows, each a list of cells, each the content of a cell. *)
Definition table : Type := list (list items).

Definition cells_items (row : list items) : items :=
  seq_all (map (fun c => Elem "td" [] c sp) row).

Definition site_rows (rows : table) : items :=
  seq_all (map (fun row => seq (cells_items row) (Stray "tr" sp)) rows).

Definition tr_rows (rows : table) : items :=
  seq_all (map (fun r => Elem "tr" [] (cells_items r) Done) rows).

Definition results_region (body : items) : items :=
  Elem "div" [("id", "results")]
       (Elem "table" [] (Elem "tbody" [] body Done) Done) Done.

(** The markup of the course list: the cells of a row are followed by
    [</tr>] and no [<tr>] comes before them. *)
Definition site_items (t : table) : items :=
  results_region
    (seq sp (site_rows t)).

Definition site_markup (t : table) : html := render (site_items t).

(** The same table with every row between [<tr>] and [</tr>]. *)
Definition wellformed_items (t : table) : items :=
  results_region
    (seq sp (seq_all (map (fun row => Elem "tr" [] (seq sp (cells_items row)) sp) t))).

Definition wellformed_markup (t : table) : html := render (wellformed_items t).

(** What the two substitutions make of the markup of the course list. *)
Definition repaired_items (t : table) : items :=
  match t with
  | [] => site_items []
  | row :: rows =>
      results_region
        (Elem "tr" [] (seq sp (cells_items row))
              (seq (tr_rows rows) sp))
  end.

(** Every row has a cell, and every cell holds cell content. *)
Definition table_ok (t : table) : Prop :=
  Forall (fun row => row <> [] /\ Forall cell_content row) t.

End Tables.

(* ================================================================= *)
(** * The substitutions, token by token

    On canonical markup the two regular expressions act on whole tokens;
    these functions say how, and the facts about the repair are proved of
    them first. *)

Definition is_tbody_open (t : token) : bool :=
  match t with
  | TStart name [] => String.eqb name "tbody"
  | _ => false
  end.

(** The first substitution on tokens: a [<tr>] after every [<tbody>]. *)
Definition sub_tbody_tokens (markup : html) : html :=
  flat_map (fun t =>
              if is_tbody_open t then [TStart "tbody" []; TStart "tr" []]
              else [t]) markup.

Definition is_blank_text (t : token) : bool :=
  match t with
  | TText s => all_chars is_space s
  | _ => false
  end.

Definition is_td_open (t : token) : bool :=
  match t with
  | TStart name [] => String.eqb name "td"
  | _ => false
  end.

Definition is_tr_close (t : token) : bool :=
  match t with
  | TEnd name => String.eqb name "tr"
  | _ => false
  end.

(** The second substitution on tokens, read from left to right.  [held]
    is [None] outside a candidate match; after a [</tr>] it holds the blank
    text seen since, which is dropped if [<td>] comes next and put back
    otherwise. *)
Fixpoint sub_tr_td_tokens_from (held : option (list token)) (markup : html) : html :=
  match markup with
  | [] => match held with
          | Some blanks => TEnd "tr" :: blanks
          | None => []
          end
  | t :: rest =>
      match held with
      | None =>
          if is_tr_close t then sub_tr_td_tokens_from (Some []) rest
          else t :: sub_tr_td_tokens_from None rest
      | Some blanks =>
          if is_blank_text t then sub_tr_td_tokens_from (Some (blanks ++ [t])) rest
          else if is_td_open t
          then TEnd "tr" :: TStart "tr" [] :: TStart "td" []
                 :: sub_tr_td_tokens_from None rest
          else if is_tr_close t
          then TEnd "tr" :: blanks ++ sub_tr_td_tokens_from (Some []) rest
          else TEnd "tr" :: blanks ++ t :: sub_tr_td_tokens_from None rest
      end
  end.

Definition sub_tr_td_tokens (markup : html) : html := sub_tr_td_tokens_from None markup.

(** A token the substitutions leave alone and do not start a match on. *)
Definition quiet (t : token) : Prop :=
  is_tbody_open t = false /\ is_tr_close t = false.

(* ================================================================= *)
(** * Reading canonical markup

    What is known of [html.parser] and used below: it reads the spelling of
    canonical tokens back as these tokens, a run of text coming as one
    string or as several.  [reads_canonical] says so of the parser of a
    world, in terms of the tree BeautifulSoup builds. *)

Definition reads_canonical (w : world) : Prop :=
  forall markup,
    canonical markup = true ->
    BeautifulSoup (html_parser w (spell markup)) = BeautifulSoup markup.

(** A reader of canonical spelling, for the worlds of the examples.  It
    goes through the text character by character: in text, in the name of
    a start tag or of an end tag, in the name or in the value of an
    attribute, or behind the [=] or the closing quote of an attribute. *)
Inductive reading : Type :=
| InText (acc : string)
| InName (acc : string)
| InEndName (acc : string)
| InAttrName (name : string) (a : attrs) (acc : string)
| AfterEq (name : string) (a : attrs) (k : string)
| InValue (name : string) (a : attrs) (k : string) (acc : string)
| AfterValue (name : string) (a : attrs).

Definition text_token (acc : string) : html :=
  if is_empty acc then [] else [TText acc].

Definition snoc (acc : string) (c : ascii) : string :=
  (acc ++ String c "")%string.

Definition read_char (st : reading) (c : ascii) : reading * html :=
  match st with
  | InText acc =>
      if Ascii.eqb c "<" then (InName "", text_token acc)
      else (InText (snoc acc c), [])
  | InName acc =>
      if Ascii.eqb c "/" && is_empty acc then (InEndName "", [])
      else if Ascii.eqb c ">" then (InText "", [TStart acc []])
      else if Ascii.eqb c " " then (InAttrName acc [] "", [])
      else (InName (snoc acc c), [])
  | InEndName acc =>
      if Ascii.eqb c ">" then (InText "", [TEnd acc])
      else (InEndName (snoc acc c), [])
  | InAttrName name a acc =>
      if Ascii.eqb c "=" then (AfterEq name a acc, [])
      else (InAttrName name a (snoc acc c), [])
  | AfterEq name a k =>
      if Ascii.eqb c "034" then (InValue name a k "", [])
      else (AfterEq name a k, [])
  | InValue name a k acc =>
      if Ascii.eqb c "034" then (AfterValue name (a ++ [(k, acc)]), [])
      else (InValue name a k (snoc acc c), [])
  | AfterValue name a =>
      if Ascii.eqb c ">" then (InText "", [TStart name a])
      else if Ascii.eqb c " " then (InAttrName name a "", [])
      else (AfterValue name a, [])
  end.

Fixpoint read_from (st : reading) (s : string) : html :=
  match s with
  | "" => match st with
          | InText acc => text_token acc
          | _ => []
          end
  | String c r =>
      let (st', out) := read_char st c in
      out ++ read_from st' r
  end.

Definition canonical_reader (s : string) : html := read_from (InText "") s.

(** The tokens with every run of text as one string, [acc] being the
    text in front of them. *)
Fixpoint gather (acc : string) (markup : html) : html :=
  match markup with
  | [] => text_token acc
  | TText s :: rest => gather (acc ++ s) rest
  | t :: rest => text_token acc ++ t :: gather "" rest
  end.

(** The builder with its pending text as one string. *)
Definition settle (b : builder) : builder :=
  mkBuilder (stack b) (doc_rev b)
            (match current_data b with
             | [] => []
             | d => [String.concat "" d]
             end).

(** What the spelling of a tag holds behind its [<]. *)
Definition tag_body (t : token) : string :=
  match t with
  | TStart name a => (name ++ String.concat "" (map spell_attr a) ++ ">")%string
  | TEnd name => ("/" ++ name ++ ">")%string
  | TText _ => ""
  end.

Definition is_text (t : token) : bool :=
  match t with
  | TText _ => true
  | _ => false
  end.

(** The start tag [<name>], without attributes. *)
Definition is_open (name : string) (t : token) : bool :=
  match t with
  | TStart name' [] => String.eqb name' name
  | _ => false
  end.

(* ================================================================= *)
(** * Pages and networks used as examples *)

Definition option_el (value label : string) : html :=
  [TStart "option" [("value", value)]; TText label; TEnd "option"].

Definition select_el (id_ : string) (body : html) : html :=
  TStart "select" [("id", id_)] :: body ++ [TEnd "select"].

(** A landing page with the given terms and one subject, each entry on a
    line of its own. *)
Definition landing_page (terms : html) : html :=
  select_el "term_code" (TText newline :: terms)
  ++ select_el "term_subj"
       (TText newline :: option_el "0" "All" ++ TText newline
          :: option_el "CSCI" "Computer Science" ++ [TText newline]).

Definition one_term : html :=
  option_el "20233" "Fall 2023" ++ [TText newline].

Definition two_terms : html :=
  option_el "20233" "Fall 2023" ++ TText newline
    :: option_el "20241" "Spring 2024" ++ [TText newline].

(** Two entries of a list separated by a blank instead of a line break. *)
Definition select_with_blank : html :=
  select_el "term_code"
    (option_el "20233" "Fall 2023" ++ TText " "
       :: option_el "20241" "Spring 2024").

Definition cell (s : string) : html := [TStart "td" []; TText s; TEnd "td"].

Definition crn_cell (s : string) : html :=
  [TStart "td" []; TStart "a" [("href", "#")]; TText s; TEnd "a"; TEnd "td"].

Definition line_break : items := Txt newline Done.

(** A table with one course. *)
Definition one_course : table :=
  [[Elem "a" [("href", "#")] (Txt "12345" Done) Done; Txt "CSCI 141 01" Done;
    Txt "C100, ALV" Done; Txt "Intro" Done; Txt "Staff" Done; Txt "4" Done;
    Txt "MWF:0900-0950" Done; Txt "10" Done; Txt "8" Done; Txt "2" Done;
    Txt "OPEN" Done]].

(** Its result page, written as the site writes it: no [<tr>] in front of
    the cells. *)
Definition one_course_page : html := site_markup line_break one_course.

(** A network that serves the spelling of [landing] and answers every
    search with the spelling of [one_course_page] after [elapsed] time
    units. *)
Definition network (landing : html) (elapsed : nat) (url : string) : reply :=
  if String.eqb url landing_url then Answer 0 (spell landing)
  else Answer elapsed (spell one_course_page).

Definition example_world (landing : html) (elapsed : nat) : world :=
  mkWorld (fun s => s) canonical_reader (network landing elapsed) (fun fs => fs)
          (fun fs => Permutation_refl fs).

Definition fall_2023 : subject_info := mkInfo "Fall 2023" "20233".
Definition spring_2024 : subject_info := mkInfo "Spring 2024" "20241".
Definition computer_science : subject_info := mkInfo "Computer Science" "CSCI".

(** A result page whose only row has a projected enrollment that is not a
    number. *)
Definition bad_enrollment_page : html :=
  [TStart "div" [("id", "results")]; TStart "table" []; TStart "tbody" [];
   TStart "tr" []]
  ++ crn_cell "12345" ++ cell "CSCI 141 01" ++ cell "C100, ALV" ++ cell "Intro"
  ++ cell "Staff" ++ cell "4" ++ cell "MWF:0900-0950" ++ cell "ten" ++ cell "8"
  ++ cell "2" ++ cell "OPEN"
  ++ [TEnd "tr"; TEnd "tbody"; TEnd "table"; TEnd "div"].

(** The cells of a course with the given CRN. *)
Definition course_row (crn_ : string) : list items :=
  [Elem "a" [("href", "#")] (Txt crn_ Done) Done; Txt "CSCI 141 01" Done;
   Txt "C100, ALV" Done; Txt "Intro" Done; Txt "Staff" Done; Txt "4" Done;
   Txt "MWF:0900-0950" Done; Txt "10" Done; Txt "8" Done; Txt "2" Done;
   Txt "OPEN" Done].

(** Two courses with a [</tr>] of its own between them. *)
Definition courses_with_gap : table :=
  [course_row "12345"; []; course_row "22222"].

(** A cell written with an attribute, and a row of such cells as the
    course list writes rows: [</tr>] behind the cells. *)
Definition class_cell (body : html) : html :=
  TStart "td" [("class", "c")] :: body ++ [TEnd "td"; TText newline].

Definition class_row (crn_ : string) : html :=
  class_cell [TStart "a" [("href", "#")]; TText crn_; TEnd "a"]
  ++ class_cell [TText "CSCI 141 01"] ++ class_cell [TText "C100, ALV"]
  ++ class_cell [TText "Intro"] ++ class_cell [TText "Staff"]
  ++ class_cell [TText "4"] ++ class_cell [TText "MWF:0900-0950"]
  ++ class_cell [TText "10"] ++ class_cell [TText "8"]
  ++ class_cell [TText "2"] ++ class_cell [TText "OPEN"]
  ++ [TEnd "tr"; TText newline].

(** A result page with two such rows, [open_row] standing in front of
    each: nothing on the page of the course list, [<tr>] on the
    well-formed page. *)
Definition class_rows_page (open_row : html) : html :=
  [TStart "div" [("id", "results")]; TStart "table" []; TStart "tbody" [];
   TText newline]
  ++ open_row ++ class_row "12345" ++ open_row ++ class_row "22222"
  ++ [TEnd "tbody"; TEnd "table"; TEnd "div"].

Definition class_page : html := class_rows_page [].

Definition class_page_wellformed : html := class_rows_page [TStart "tr" []].

(** A result page whose table body holds one row without cells. *)
Definition empty_row_page : html :=
  [TStart "div" [("id", "results")]; TStart "table" []; TStart "tbody" [];
   TStart "tr" []; TEnd "tr"; TEnd "tbody"; TEnd "table"; TEnd "div"].

(** The CRNs of the courses of a result. *)
Definition crns (o : outcome (list Course)) : outcome (list string) :=
  cs <- o ;; Return (map crn cs).

(* ================================================================= *)
(** * [build_query] *)

(** The text of the statement up to the tuples, line by line. *)
Definition query_lines : list string :=
  [""; "        INSERT INTO courses ("; "            crn,"; "            id,";
   "            term,"; "            term_code,"; "            subject,";
   "            subject_code,"; "            attributes,"; "            title,";
   "            instructor,"; "            credit_hours,"; "            time,";
   "            proj_enr,"; "            curr_enr,"; "            seats_avail,";
   "            status)"; "        VALUES"; "            "].

(** [build_query]. *)
Definition build_query (courses : list Course) : string :=
  let courses_query := join ", " (map course_to_db_insert_query courses) in
  (join newline query_lines ++ courses_query ++ newline ++ "    ")%string.

(** The columns of the table, and the text a course gives for each. *)
Definition columns : list string :=
  ["crn"; "id"; "term"; "term_code"; "subject"; "subject_code"; "attributes";
   "title"; "instructor"; "credit_hours"; "time"; "proj_enr"; "curr_enr";
   "seats_avail"; "status"].

Definition column_texts (c : Course) : list string :=
  [crn c; id c; term c; term_code c; subject c; subject_code c;
   list_to_db_array (attributes c); title c; instructor c; credit_hours c;
   times_to_json (time c); str_of_int (proj_enr c); str_of_int (curr_enr c);
   seats_avail c; status c].

(* ================================================================= *)
(** * Words for further statements *)

(** A day key: one capital letter. *)
Definition day_letter (d : string) : Prop :=
  exists c, d = String c "" /\ is_upper c = true.

(** What [parse_row] reads from the cells of a row into a record, for a
    task on the given term and subject. *)
Definition record_of_row (normalize : string -> string)
           (term_ subject_ : subject_info) (row : node) (c : Course) : Prop :=
  (exists c0 a, nth_error (find_all row "td") 0 = Some c0
                /\ find c0 "a" = Some a /\ crn c = text a)
  /\ cell_text row 1 = Some (id c)
  /\ (exists s, cell_text row 2 = Some s
                /\ attributes c = map normalize (split_comma_space s))
  /\ cell_text row 3 = Some (title c)
  /\ cell_text row 4 = Some (instructor c)
  /\ cell_text row 5 = Some (credit_hours c)
  /\ (exists s, cell_text row 6 = Some s /\ parse_time s = Return (time c))
  /\ (exists s, cell_text row 7 = Some s /\ int s = Return (proj_enr c))
  /\ (exists s, cell_text row 8 = Some s /\ int s = Return (curr_enr c))
  /\ cell_text row 9 = Some (seats_avail c)
  /\ cell_text row 10 = Some (status c)
  /\ term c = name term_ /\ term_code c = code term_
  /\ subject c = name subject_ /\ subject_code c = code subject_.

(** The rows a task came back with, none if it failed. *)
Definition rows_of (fu : future) : list Course :=
  match fut_result fu with
  | Return rows => rows
  | _ => []
  end.

(** A list whose only child is an element without a [value]. *)
Definition select_with_group : html :=
  select_el "term_code"
    [TStart "optgroup" [("label", "Terms")]; TEnd "optgroup"].

(** The record of [one_course] for a task on the given term and subject. *)
Definition one_course_record (term_ subject_ : subject_info) : Course :=
  mkCourse "12345" "CSCI 141 01" (name term_) (code term_) (name subject_)
           (code subject_) ["C100"; "ALV"] "Intro" "Staff" "4"
           [("M", mkTimeSpan (mkTime 9 0) (mkTime 9 50));
            ("W", mkTimeSpan (mkTime 9 0) (mkTime 9 50));
            ("F", mkTimeSpan (mkTime 9 0) (mkTime 9 50))]
           10 8 "2" "OPEN".

(** A world whose searches are answered with a page without results. *)
Definition empty_results_world (landing : html) (elapsed : nat) : world :=
  mkWorld (fun s => s) canonical_reader
          (fun url => if String.eqb url landing_url then Answer 0 (spell landing)
                      else Answer elapsed "")
          (fun fs => fs) (fun fs => Permutation_refl fs).

(** The course carries the names and codes of the term and the subject. *)
Definition stamped (term_ subject_ : subject_info) (c : Course) : Prop :=
  term c = name term_ /\ term_code c = code term_
  /\ subject c = name subject_ /\ subject_code c = code subject_.

(** The course with another title and another instructor. *)
Definition with_title_instructor (c : Course) (title_ instructor_ : string) : Course :=
  mkCourse (crn c) (id c) (term c) (term_code c) (subject c) (subject_code c)
           (attributes c) title_ instructor_ (credit_hours c) (time c)
           (proj_enr c) (curr_enr c) (seats_avail c) (status c).

(** What is left of [s] after the first occurrence of [v]. *)
Fixpoint after_first (v s : string) : option string :=
  match after_prefix v s with
  | Some r => Some r
  | None =>
      match s with
      | String _ s' => after_first v s'
      | "" => None
      end
  end.

(** A test for [occurs_in_order]. *)
Fixpoint in_order (vals : list string) (s : string) : bool :=
  match vals with
  | [] => true
  | v :: vs =>
      match after_first v s with
      | Some r => in_order vs r
      | None => false
      end
  end.

(** The pieces between the double quotes of the array literal of values
    that hold no double quote. *)
Definition array_pieces (li : list string) : list string :=
  match li with
  | [] => ["{}"]
  | v :: vs => "{" :: v :: flat_map (fun x => [", "; x]) vs ++ ["}"]
  end.

(** What follows the first value in the array literal. *)
Fixpoint array_rest (vs : list string) : string :=
  match vs with
  | [] => "}"
  | x :: xs => (", " ++ dquote ++ x ++ dquote ++ array_rest xs)%string
  end.

(** The rows of a well-formed table body, each between [<tr>] and [</tr>]
    and followed by the blank text [sp]. *)
Definition wellformed_rows (sp : items) (t : table) : items :=
  seq_all (map (fun row => Elem "tr" [] (seq sp (cells_items sp row)) sp) t).

(** The tree of a result page whose table body holds the nodes [kids]. *)
Definition results_tree (kids : list node) : node :=
  Tag "[document]" []
      [Tag "div" [("id", "results")] [Tag "table" [] [Tag "tbody" [] kids]]].

(** A world whose searches are answered with the page of [one_course]
    written with every row between [<tr>] and [</tr>]. *)
Definition wellformed_world (landing : html) (elapsed : nat) : world :=
  mkWorld (fun s => s) canonical_reader
          (fun url => if String.eqb url landing_url then Answer 0 (spell landing)
                      else Answer elapsed
                             (spell (wellformed_markup line_break one_course)))
          (fun fs => fs) (fun fs => Permutation_refl fs).

(* ================================================================= *)
(** * [write_to_db] and the script *)

(** [print(s)] on the standard output written so far. *)
Definition print (s : string) (stdout : string) : string :=
  (stdout ++ s ++ newline)%string.

(** [write_to_db]: the connection is not used, the statement is printed. *)
Definition write_to_db {C} (conn : C) (courses : list Course) (stdout : string)
  : string :=
  let query := build_query courses in
  print query stdout.

(** The script: what it leaves on the standard output. *)
Definition main (w : world) (stdout : string) : outcome string :=
  courses <- fetch w ;;
  Return (write_to_db 1%Z courses stdout).
(* ================================================================= *)
(** * Facts about the primitives *)

Section DictFacts.
Context {V : Type}.
Implicit Types (d : dict V) (k : string) (v : V).

Lemma dict_get_set_same d k v : dict_get (dict_set d k v) k = Some v.
Proof.
  induction d as [|[k' v'] d IH]; simpl.
  - now rewrite String.eqb_refl.
  - destruct (String.eqb k' k) eqn:E; simpl; rewrite E; auto.
Qed.

Lemma dict_get_set_other d k k' v :
  k <> k' -> dict_get (dict_set d k v) k' = dict_get d k'.
Proof.
  intros Hne. induction d as [|[k0 v0] d IH]; simpl.
  - destruct (String.eqb_spec k k'); congruence.
  - destruct (String.eqb_spec k0 k) as [->|Hk]; simpl.
    + destruct (String.eqb_spec k k'); congruence.
    + now rewrite IH.
Qed.

Lemma keys_dict_set d k v :
  keys (dict_set d k v) = if existsb (String.eqb k) (keys d)
                          then keys d else keys d ++ [k].
Proof.
  unfold keys. induction d as [|[k0 v0] d IH]; simpl; auto.
  rewrite (String.eqb_sym k k0).
  destruct (String.eqb k0 k) eqn:E; simpl; auto.
  rewrite IH. now destruct (existsb _ _).
Qed.

Lemma existsb_eqb_In k (l : list string) :
  existsb (String.eqb k) l = true <-> In k l.
Proof.
  rewrite existsb_exists. split.
  - intros (x & Hx & E). apply String.eqb_eq in E. now subst.
  - intros H. exists k. split; auto. apply String.eqb_refl.
Qed.

Lemma NoDup_keys_dict_set d k v :
  NoDup (keys d) -> NoDup (keys (dict_set d k v)).
Proof.
  intros H. rewrite keys_dict_set.
  destruct (existsb (String.eqb k) (keys d)) eqn:E; auto.
  assert (Hn : ~ In k (keys d)).
  { intros Hin. apply existsb_eqb_In in Hin. congruence. }
  clear E. induction (keys d) as [|x l IH]; simpl.
  - constructor; [intros []|constructor].
  - inversion H; subst. constructor.
    + rewrite in_app_iff. simpl. intros [?|[?|[]]]; [tauto|].
      subst. apply Hn. now left.
    + apply IH; auto. intros ?. apply Hn. now right.
Qed.

Lemma NoDup_keys_dict_update d other :
  NoDup (keys d) -> NoDup (keys (dict_update d other)).
Proof.
  unfold dict_update. revert d.
  induction other as [|[k v] o IH]; simpl; intros d H; auto.
  apply IH. now apply NoDup_keys_dict_set.
Qed.

Lemma dict_get_fold_set (ks : list string) v d k :
  dict_get (fold_left (fun acc k => dict_set acc k v) ks d) k
  = if existsb (String.eqb k) ks then Some v else dict_get d k.
Proof.
  revert d. induction ks as [|k0 ks IH]; simpl; intros d; auto.
  rewrite IH. destruct (existsb (String.eqb k) ks) eqn:E.
  - now rewrite orb_true_r.
  - rewrite orb_false_r. destruct (String.eqb_spec k k0) as [->|Hne].
    + apply dict_get_set_same.
    + apply dict_get_set_other. congruence.
Qed.

Lemma dict_get_const (ks : list string) v k :
  dict_get (dict_const ks v) k
  = if existsb (String.eqb k) ks then Some v else None.
Proof. unfold dict_const. now rewrite dict_get_fold_set. Qed.

(** What [d.update(other)] leaves at a key, when all the values of
    [other] are the same. *)
Lemma dict_get_update_const d (ks : list string) v k :
  dict_get (dict_update d (dict_const ks v)) k
  = if existsb (String.eqb k) ks then Some v else dict_get d k.
Proof.
  assert (G : forall (o : dict V) d0,
    (forall k' v', In (k', v') o -> v' = v) ->
    dict_get (fold_left (fun acc kv => dict_set acc (fst kv) (snd kv)) o d0) k
    = if existsb (String.eqb k) (keys o) then Some v else dict_get d0 k).
  { induction o as [|[k0 v0] o IH]; simpl; intros d0 Hv; auto.
    rewrite IH by (intros; eapply Hv; right; eauto).
    destruct (existsb (String.eqb k) (keys o)) eqn:E.
    - now rewrite orb_true_r.
    - rewrite orb_false_r. destruct (String.eqb_spec k k0) as [->|Hne].
      + rewrite dict_get_set_same. f_equal. apply (Hv k0). now left.
      + apply dict_get_set_other. congruence. }
  unfold dict_update. rewrite G.
  - assert (K : existsb (String.eqb k) (keys (dict_const ks v))
                = existsb (String.eqb k) ks).
    { pose proof (dict_get_const ks v k) as Hc.
      destruct (existsb (String.eqb k) ks) eqn:E.
      - clear E. induction (dict_const ks v) as [|[a b] l IHl]; simpl in *.
        + discriminate.
        + rewrite (String.eqb_sym k a).
          destruct (String.eqb a k); simpl; auto.
      - clear E. induction (dict_const ks v) as [|[a b] l IHl]; simpl in *; auto.
        rewrite (String.eqb_sym k a).
        destruct (String.eqb a k); simpl; auto. discriminate. }
    now rewrite K.
  - intros k' v' Hin.
    assert (Hg : forall (l : list string) (acc : dict V),
               (forall a b, In (a, b) acc -> b = v) ->
               forall a b, In (a, b) (fold_left (fun acc k => dict_set acc k v) l acc)
                           -> b = v).
    { induction l as [|x l IHl]; simpl; intros acc Ha a b Hab; eauto.
      eapply IHl; [|exact Hab]. clear - Ha.
      induction acc as [|[a0 b0] acc IHa]; simpl; intros a b Hab.
      - destruct Hab as [E|[]]. now inversion E.
      - destruct (String.eqb a0 x).
        + destruct Hab as [E|Hab]; [now inversion E|].
          eapply Ha. right. eauto.
        + destruct Hab as [E|Hab].
          * inversion E; subst. eapply Ha. left. eauto.
          * eapply IHa; eauto. intros; eapply Ha; right; eauto. }
    eapply (Hg ks []); [intros ? ? []|exact Hin].
Qed.

End DictFacts.
Example parse_time_tba : parse_time "TBA" = Return [].
Proof. reflexivity. Qed.

Example parse_time_mwf :
  parse_time "MWF:0900-0950"
  = Return (let sp := mkTimeSpan (mkTime 9 0) (mkTime 9 50) in
            [("M", sp); ("W", sp); ("F", sp)]).
Proof. reflexivity. Qed.


(* ================================================================= *)
(** * Facts about [parse_time] *)

Lemma is_digit_cases c :
  is_digit c = true ->
  c = "0"%char \/ c = "1"%char \/ c = "2"%char \/ c = "3"%char \/ c = "4"%char \/
  c = "5"%char \/ c = "6"%char \/ c = "7"%char \/ c = "8"%char \/ c = "9"%char.
Proof.
  destruct c as [[] [] [] [] [] [] [] []]; vm_compute; intros H;
    try discriminate H; tauto.
Qed.

Ltac digit_cases H :=
  apply is_digit_cases in H;
  destruct H as [H|[H|[H|[H|[H|[H|[H|[H|[H|H]]]]]]]]]; subst.

Lemma int_two_digits a b :
  is_digit a = true -> is_digit b = true ->
  int (two a b) = Return (two_digit_value (two a b)).
Proof. intros Ha Hb. digit_cases Ha; digit_cases Hb; reflexivity. Qed.

Lemma two_digit_value_bounds a b :
  is_digit a = true -> is_digit b = true ->
  (0 <= two_digit_value (two a b) <= 99)%Z.
Proof. intros Ha Hb. digit_cases Ha; digit_cases Hb; vm_compute; split; discriminate. Qed.

(** The groups of a match are pairs of digits. *)
Lemma re_match_time_groups t m :
  re_match_time t = Some m ->
  exists a b c d e f g h,
    is_digit a = true /\ is_digit b = true /\ is_digit c = true /\
    is_digit d = true /\ is_digit e = true /\ is_digit f = true /\
    is_digit g = true /\ is_digit h = true /\
    g_start_hour m = two a b /\ g_start_minute m = two c d /\
    g_end_hour m = two e f /\ g_end_minute m = two g h.
Proof.
  unfold re_match_time. destruct (span_chars is_upper t) as [days rest].
  destruct (is_empty days); [discriminate|].
  do 10 (destruct rest as [|? rest]; [discriminate|]).
  match goal with
  | |- (if ?b then _ else _) = _ -> _ => destruct b eqn:E; [|discriminate]
  end.
  intros H. inversion H; subst; clear H. simpl.
  repeat (apply andb_true_iff in E; destruct E as [E ?]).
  do 8 eexists. repeat split; eauto.
Qed.

Lemma parse_time_step_pure times t :
  parse_time_step times t = Return (apply_token times t).
Proof.
  unfold parse_time_step, apply_token.
  destruct (re_match_time t) as [m|] eqn:E; auto.
  destruct (re_match_time_groups _ E)
    as (a & b & c & d & e & f & g & h & Ha & Hb & Hc & Hd & He & Hf & Hg & Hh
        & E1 & E2 & E3 & E4).
  unfold span_of_match, days_of_match. rewrite E1, E2, E3, E4.
  rewrite !int_two_digits by assumption. reflexivity.
Qed.

Lemma parse_time_loop_pure tokens times :
  parse_time_loop tokens times = Return (fold_left apply_token tokens times).
Proof.
  revert times. induction tokens as [|t ts IH]; simpl; intros times; auto.
  rewrite parse_time_step_pure. simpl. apply IH.
Qed.

Lemma dict_get_apply_token times t d :
  dict_get (apply_token times t) d
  = match re_match_time t with
    | Some m => if existsb (String.eqb d) (days_of_match m)
                then Some (span_of_match m) else dict_get times d
    | None => dict_get times d
    end.
Proof.
  unfold apply_token. destruct (re_match_time t) as [m|]; auto.
  apply dict_get_update_const.
Qed.

Lemma dict_get_fold_unnamed tokens times d :
  (forall t, In t tokens -> ~ names_day t d) ->
  dict_get (fold_left apply_token tokens times) d = dict_get times d.
Proof.
  revert times. induction tokens as [|t ts IH]; simpl; intros times H; auto.
  rewrite IH by (intros; apply H; auto).
  rewrite dict_get_apply_token.
  destruct (re_match_time t) as [m|] eqn:E; auto.
  destruct (existsb (String.eqb d) (days_of_match m)) eqn:Ex; auto.
  exfalso. apply (H t); [now left|]. exists m. split; auto.
  now apply existsb_eqb_In.
Qed.

(** The entry of a day is written by the last token that names it. *)
Lemma dict_get_fold_last pre t post m times d :
  re_match_time t = Some m -> In d (days_of_match m) ->
  (forall t', In t' post -> ~ names_day t' d) ->
  dict_get (fold_left apply_token (pre ++ t :: post) times) d
  = Some (span_of_match m).
Proof.
  intros E Hd Hpost. rewrite fold_left_app. simpl.
  rewrite dict_get_fold_unnamed by assumption.
  rewrite dict_get_apply_token, E.
  apply existsb_eqb_In in Hd. now rewrite Hd.
Qed.

(** Every entry of the result was written by a matching token. *)
Lemma dict_get_fold_origin tokens d sp :
  dict_get (fold_left apply_token tokens []) d = Some sp ->
  exists pre t m post,
    tokens = pre ++ t :: post /\ re_match_time t = Some m /\
    In d (days_of_match m) /\ sp = span_of_match m /\
    (forall t', In t' post -> ~ names_day t' d).
Proof.
  induction tokens as [|t ts IH] using rev_ind; simpl; [discriminate|].
  rewrite fold_left_app. simpl. rewrite dict_get_apply_token.
  destruct (re_match_time t) as [m|] eqn:E.
  - destruct (existsb (String.eqb d) (days_of_match m)) eqn:Ex.
    + intros H. inversion H; subst. exists ts, t, m, []. repeat split; auto.
      now apply existsb_eqb_In.
    + intros H. destruct (IH H) as (pre & t0 & m0 & post & -> & E0 & Hd & -> & Hp).
      exists pre, t0, m0, (post ++ [t]). rewrite <- app_assoc. simpl.
      repeat split; auto. intros t' Hin. apply in_app_iff in Hin.
      destruct Hin as [Hin|[<-|[]]]; auto.
      intros (m' & E' & Hd'). rewrite E in E'. inversion E'; subst.
      apply existsb_eqb_In in Hd'. congruence.
  - intros H. destruct (IH H) as (pre & t0 & m0 & post & -> & E0 & Hd & -> & Hp).
    exists pre, t0, m0, (post ++ [t]). rewrite <- app_assoc. simpl.
    repeat split; auto. intros t' Hin. apply in_app_iff in Hin.
    destruct Hin as [Hin|[<-|[]]]; auto.
    intros (m' & E' & _). congruence.
Qed.

Lemma NoDup_keys_apply_token times t :
  NoDup (keys times) -> NoDup (keys (apply_token times t)).
Proof.
  unfold apply_token. destruct (re_match_time t); auto.
  apply NoDup_keys_dict_update.
Qed.

Lemma NoDup_keys_fold_apply tokens times :
  NoDup (keys times) -> NoDup (keys (fold_left apply_token tokens times)).
Proof.
  revert times. induction tokens as [|t ts IH]; simpl; intros; auto.
  apply IH. now apply NoDup_keys_apply_token.
Qed.

(** ** Splitting on spaces *)

Lemma split_char_nonempty c s : split_char c s <> [].
Proof.
  destruct s as [|x s]; simpl; [discriminate|].
  destruct (Ascii.eqb x c); [discriminate|].
  destruct (split_char c s); discriminate.
Qed.

Lemma split_char_app c a b :
  split_char c (a ++ String c b) = split_char c a ++ split_char c b.
Proof.
  induction a as [|x a IH]; simpl.
  - now rewrite Ascii.eqb_refl.
  - destruct (Ascii.eqb x c); [now rewrite IH|].
    rewrite IH. pose proof (split_char_nonempty c a) as Hn.
    destruct (split_char c a); [congruence|reflexivity].
Qed.

Lemma split_char_token c t :
  has_char c t = false -> split_char c t = [t].
Proof.
  induction t as [|x t IH]; simpl; auto.
  intros H. apply orb_false_iff in H. destruct H as [Hx Ht].
  rewrite Hx, (IH Ht). reflexivity.
Qed.

Lemma time_tokens_app a b :
  time_tokens (a ++ String " " b) = time_tokens a ++ time_tokens b.
Proof. unfold time_tokens. now rewrite split_char_app, filter_app. Qed.

Lemma time_tokens_token t :
  has_char " " t = false -> t <> "" -> time_tokens t = [t].
Proof.
  intros H Hne. unfold time_tokens. rewrite split_char_token by assumption.
  simpl. destruct t; [congruence|reflexivity].
Qed.

(** ** Matching at the start of a token *)

Lemma string_app_assoc (a b c : string) : ((a ++ b) ++ c = a ++ (b ++ c))%string.
Proof. induction a; simpl; congruence. Qed.

Lemma string_app_nil_r (a : string) : (a ++ "")%string = a.
Proof. induction a; simpl; congruence. Qed.

Lemma has_char_app c (a b : string) :
  has_char c (a ++ b) = has_char c a || has_char c b.
Proof. induction a as [|x a IH]; simpl; auto. now rewrite IH, orb_assoc. Qed.

Lemma span_chars_stop p t a c r (x : string) :
  span_chars p t = (a, String c r) ->
  span_chars p (t ++ x) = (a, (String c r ++ x)%string).
Proof.
  revert a. induction t as [|y t IH]; simpl; intros a H; [discriminate|].
  destruct (p y) eqn:Ey.
  - destruct (span_chars p t) as [a' b'] eqn:Es. inversion H; subst.
    now rewrite (IH a' eq_refl).
  - inversion H; subst. reflexivity.
Qed.

Lemma span_chars_all p days c r :
  all_chars p days = true -> p c = false ->
  span_chars p (days ++ String c r) = (days, String c r).
Proof.
  intros Hd Hc. induction days as [|y days IH]; simpl in *.
  - now rewrite Hc.
  - apply andb_true_iff in Hd. destruct Hd as [Hy Hd].
    now rewrite Hy, (IH Hd).
Qed.

Lemma re_match_time_prefix t m (x : string) :
  re_match_time t = Some m -> re_match_time (t ++ x) = Some m.
Proof.
  unfold re_match_time. destruct (span_chars is_upper t) as [days rest] eqn:Es.
  destruct (is_empty days) eqn:Ed; [discriminate|].
  destruct rest as [|c0 rest]; [discriminate|].
  rewrite (span_chars_stop _ _ x Es), Ed.
  do 9 (destruct rest as [|? rest]; [discriminate|]).
  simpl. auto.
Qed.

Lemma re_match_time_exact days a b c d e f g h :
  days <> "" -> all_chars is_upper days = true ->
  is_digit a = true -> is_digit b = true -> is_digit c = true ->
  is_digit d = true -> is_digit e = true -> is_digit f = true ->
  is_digit g = true -> is_digit h = true ->
  re_match_time (schedule_token days a b c d e f g h)
  = Some (mkMatch days (two a b) (two c d) (two e f) (two g h)).
Proof.
  intros Hne Hup Ha Hb Hc Hd He Hf Hg Hh.
  unfold re_match_time, schedule_token.
  rewrite span_chars_all by (auto; reflexivity).
  destruct days; [congruence|]. simpl is_empty. cbv iota.
  now rewrite Ha, Hb, Hc, Hd, He, Hf, Hg, Hh.
Qed.

Lemma re_match_time_nonempty t m : re_match_time t = Some m -> t <> "".
Proof. intros H ->. discriminate. Qed.

Lemma parse_time_single t :
  has_char " " t = false -> t <> "" ->
  parse_time t = Return (apply_token [] t).
Proof.
  intros H Hne. unfold parse_time. rewrite time_tokens_token by assumption.
  now rewrite parse_time_loop_pure.
Qed.

Lemma In_dict_get {V} (d : dict V) k v :
  NoDup (keys d) -> In (k, v) d -> dict_get d k = Some v.
Proof.
  induction d as [|[k0 v0] d IH]; simpl; intros Hnd Hin; [contradiction|].
  inversion Hnd; subst. destruct Hin as [E|Hin].
  - inversion E; subst. now rewrite String.eqb_refl.
  - destruct (String.eqb_spec k0 k) as [->|Hne]; auto.
    exfalso. apply H1. unfold keys. change k with (fst (k, v)).
    now apply in_map.
Qed.

Lemma span_of_match_two_digits t m :
  re_match_time t = Some m ->
  Time_two_digits (start (span_of_match m)) /\
  Time_two_digits (end_ (span_of_match m)).
Proof.
  intros E. destruct (re_match_time_groups _ E)
    as (a & b & c & d & e & f & g & h & Ha & Hb & Hc & Hd & He & Hf & Hg & Hh
        & E1 & E2 & E3 & E4).
  unfold span_of_match, Time_two_digits. simpl. rewrite E1, E2, E3, E4.
  repeat split; apply two_digit_value_bounds; assumption.
Qed.

Lemma digit_is_not_space c : is_digit c = true -> Ascii.eqb c " " = false.
Proof.
  destruct c as [[] [] [] [] [] [] [] []]; vm_compute; intros H;
    try discriminate H; reflexivity.
Qed.

Lemma upper_is_not_space c : is_upper c = true -> Ascii.eqb c " " = false.
Proof.
  destruct c as [[] [] [] [] [] [] [] []]; vm_compute; intros H;
    try discriminate H; reflexivity.
Qed.

Lemma upper_has_no_space days :
  all_chars is_upper days = true -> has_char " " days = false.
Proof.
  induction days as [|y days IH]; simpl; auto.
  intros H. apply andb_true_iff in H. destruct H as [Hy H].
  now rewrite (upper_is_not_space _ Hy), (IH H).
Qed.

(** ** Schedules given by their tokens *)

Lemma time_tokens_join ts :
  Forall (fun t => t <> "" /\ has_char " " t = false) ts ->
  time_tokens (join " " ts) = ts.
Proof.
  induction 1 as [|t ts [Hne Hsp] Hts IH]; [reflexivity|].
  destruct ts as [|t' ts'].
  - now apply time_tokens_token.
  - unfold join in *.
    change (time_tokens (t ++ String " " (String.concat " " (t' :: ts')))
            = t :: t' :: ts').
    rewrite time_tokens_app, IH, time_tokens_token by assumption.
    reflexivity.
Qed.

(** What [parse_time] makes of one token. *)
Lemma dict_get_single_token t m d :
  re_match_time t = Some m ->
  dict_get (apply_token [] t) d
  = if existsb (String.eqb d) (days_of_match m) then Some (span_of_match m)
    else None.
Proof. intros E. now rewrite dict_get_apply_token, E. Qed.

(* ================================================================= *)
(** * Facts about [parse_table] and [parse_select] *)

Lemma parse_time_total s :
  parse_time s = Return (fold_left apply_token (time_tokens s) []).
Proof. apply parse_time_loop_pure. Qed.

Lemma int_cases s : (exists z, int s = Return z) \/ int s = Raise ValueError.
Proof.
  unfold int. destruct (int_literal (strip s)); eauto.
  destruct (count_digits (strip s) <=? max_str_digits)%N; eauto.
Qed.

Section RowFacts.
Variable normalize : string -> string.
Variables term term_code subject subject_code : string.

Abbreviation parse_row' := (parse_row normalize term term_code subject subject_code).
Abbreviation parse_rows' := (parse_rows normalize term term_code subject subject_code).

Tactic Notation "open_cells" integer(n) :=
  unfold cell_text, has_crn_link in *;
  destruct (find_all _ "td") as [|? ?] eqn:?; cbn in *;
  try discriminate; try lia;
  do n (match goal with
        | l : list node |- _ =>
            destruct l as [|? l]; cbn in *; try discriminate; try lia
        end).

Lemma parse_row_never_hangs row : parse_row' row <> Hang.
Proof.
  unfold parse_row. generalize (find_all row "td"). intros cells.
  unfold index.
  repeat (match goal with
          | |- context [nth_error cells ?i] =>
              destruct (nth_error cells i); cbn [bind]; [|discriminate]
          | |- context [deref ?o] =>
              destruct o; cbn [bind deref]; [|discriminate]
          | |- context [parse_time ?s] =>
              rewrite (parse_time_total s); cbn [bind]
          | |- context [int ?s] =>
              destruct (int_cases s) as [[? ->]| ->]; cbn [bind]; [|discriminate]
          end).
  discriminate.
Qed.

(** A row with a bad enrollment cell is not turned into a record. *)
Lemma parse_row_bad_raises row :
  bad_enrollment row -> exists e, parse_row' row = Raise e.
Proof.
  intros [(s & Hs & Hbad)|(s & Hs & Hbad)]; unfold parse_row.
  - open_cells 7. inversion Hs; subst; clear Hs.
    destruct (find _ "a"); cbn; [|eauto].
    rewrite parse_time_total. cbn. rewrite Hbad. cbn. eauto.
  - open_cells 8. inversion Hs; subst; clear Hs.
    destruct (find _ "a"); cbn; [|eauto].
    rewrite parse_time_total. cbn.
    match goal with
    | |- context [int ?x] => destruct (int_cases x) as [[? ->]| ->]; cbn; eauto
    end.
    rewrite Hbad. cbn. eauto.
Qed.

(** With a link in the first cell, the error is the one of [int]. *)
Lemma parse_row_bad_ValueError row :
  has_crn_link row -> bad_enrollment row -> parse_row' row = Raise ValueError.
Proof.
  intros (c0 & a & H0 & Ha) [(s & Hs & Hbad)|(s & Hs & Hbad)]; unfold parse_row.
  - open_cells 7. inversion Hs; inversion H0; subst; clear Hs H0.
    rewrite Ha. cbn.
    rewrite parse_time_total. cbn. now rewrite Hbad.
  - open_cells 8. inversion Hs; inversion H0; subst; clear Hs H0.
    rewrite Ha. cbn.
    rewrite parse_time_total. cbn.
    match goal with
    | |- context [int ?x] => destruct (int_cases x) as [[? ->]| ->]; cbn; auto
    end.
    now rewrite Hbad.
Qed.

(** A complete row with two integers becomes a record that holds them. *)
Lemma parse_row_stores_enrollment row p q s7 s8 :
  has_crn_link row ->
  (11 <= length (find_all row "td"))%nat ->
  cell_text row 7 = Some s7 -> int s7 = Return p ->
  cell_text row 8 = Some s8 -> int s8 = Return q ->
  exists c, parse_row' row = Return c /\ proj_enr c = p /\ curr_enr c = q.
Proof.
  intros (c0 & a & H0 & Ha) Hlen H7 Hp H8 Hq. unfold parse_row.
  open_cells 10.
  inversion H0; inversion H7; inversion H8; subst.
  rewrite Ha. cbn. rewrite parse_time_total. cbn.
  rewrite Hp. cbn. rewrite Hq. cbn. eexists. repeat split.
Qed.

Lemma parse_rows_raise_in trs rows :
  (exists row, In row trs /\ exists e, parse_row' row = Raise e) ->
  exists e, parse_rows' trs rows = Raise e.
Proof.
  revert rows. induction trs as [|r trs IH]; intros rows (row & Hin & e & He).
  - destruct Hin.
  - cbn. destruct (parse_row' r) as [c|e'|] eqn:Er; cbn.
    + apply IH. destruct Hin as [<-|Hin]; [congruence|]. eauto.
    + eauto.
    + exfalso. eapply parse_row_never_hangs; eauto.
Qed.

Lemma parse_rows_first_raise before row after rows e :
  (forall r, In r before -> exists c, parse_row' r = Return c) ->
  parse_row' row = Raise e ->
  parse_rows' (before ++ row :: after) rows = Raise e.
Proof.
  revert rows. induction before as [|r before IH]; intros rows Hb He; cbn.
  - now rewrite He.
  - destruct (Hb r (or_introl eq_refl)) as [c ->]. cbn.
    apply IH; auto. intros; apply Hb; now right.
Qed.

End RowFacts.

Lemma parse_select_loop_entries els out :
  Forall select_child els ->
  parse_select_loop els out = Return (out ++ select_entries els).
Proof.
  intros H. revert out. induction H as [|el els Hel _ IH]; intros out; cbn.
  - now rewrite app_nil_r.
  - destruct Hel as [->|[[c ->]|(nm & a & cs & v & -> & Hv)]].
    + cbn. apply IH.
    + cbn. apply IH.
    + cbn [parse_select_step]. rewrite Hv.
      destruct (String.eqb v "0"); cbn [bind]; rewrite IH.
      * reflexivity.
      * now rewrite <- app_assoc.
Qed.

Lemma parse_select_loop_stray_text before s after out :
  Forall select_child before -> s <> newline ->
  parse_select_loop (before ++ Text s :: after) out = Raise TypeError.
Proof.
  intros H Hs. revert out. induction H as [|el els Hel _ IH]; intros out; cbn.
  - destruct (String.eqb_spec s newline); [congruence|reflexivity].
  - destruct Hel as [->|[[c ->]|(nm & a & cs & v & -> & Hv)]].
    + cbn. apply IH.
    + cbn. apply IH.
    + cbn [parse_select_step]. rewrite Hv.
      destruct (String.eqb v "0"); cbn [bind]; apply IH.
Qed.

Section TableFacts.
Variable normalize : string -> string.
Variables term term_code subject subject_code : string.

Abbreviation parse_row'' := (parse_row normalize term term_code subject subject_code).
Abbreviation parse_rows'' := (parse_rows normalize term term_code subject subject_code).
Abbreviation parse_table'' := (parse_table normalize term term_code subject subject_code).

Lemma parse_table_rows soup trs :
  table_rows soup = Return trs -> parse_table'' soup = parse_rows'' trs [].
Proof.
  unfold table_rows, parse_table.
  destruct (results_tbody soup); cbn; intros H; inversion H; auto.
Qed.

Lemma parse_rows_Return trs rows out :
  parse_rows'' trs rows = Return out ->
  exists cs, out = rows ++ cs
             /\ Forall2 (fun row c => parse_row'' row = Return c) trs cs.
Proof.
  revert rows. induction trs as [|r trs IH]; cbn; intros rows H.
  - inversion H; subst. exists []. rewrite app_nil_r. split; constructor.
  - destruct (parse_row'' r) as [c| |] eqn:Er; cbn in H; try discriminate.
    destruct (IH _ H) as (cs & -> & HF). exists (c :: cs).
    rewrite <- app_assoc. split; [reflexivity|]. now constructor.
Qed.

(** What a record says about the enrollment cells of its row. *)
Lemma parse_row_Return_enrollment row c :
  parse_row'' row = Return c ->
  exists s7 s8,
    cell_text row 7 = Some s7 /\ int s7 = Return (proj_enr c) /\
    cell_text row 8 = Some s8 /\ int s8 = Return (curr_enr c).
Proof.
  unfold parse_row, cell_text. generalize (find_all row "td"). intros cells.
  unfold index.
  repeat (match goal with
          | |- context [nth_error cells ?i] =>
              destruct (nth_error cells i) eqn:?; cbn [bind]; [|discriminate]
          | |- context [deref ?o] =>
              destruct o; cbn [bind deref]; [|discriminate]
          | |- context [parse_time ?s] =>
              rewrite (parse_time_total s); cbn [bind]
          | |- context [int ?s] =>
              let E := fresh "E" in
              destruct (int s) eqn:E; cbn [bind]; try discriminate
          end).
  intros H. inversion H; subst; clear H. cbn.
  do 2 eexists. repeat split; eauto.
Qed.

(** Rows that each parse give a table that parses, record by record. *)
Lemma parse_rows_all_Return (P : node -> Course -> Prop) trs rows :
  Forall (fun r => exists c, parse_row'' r = Return c /\ P r c) trs ->
  exists cs, parse_rows'' trs rows = Return (rows ++ cs) /\ Forall2 P trs cs.
Proof.
  intros H. revert rows. induction H as [|r trs (c & Hc & HP) _ IH]; intros rows.
  - exists []. rewrite app_nil_r. split; [reflexivity|constructor].
  - destruct (IH (rows ++ [c])) as (cs & E & HF).
    exists (c :: cs). cbn [parse_rows]. rewrite Hc. cbn [bind].
    rewrite E, <- app_assoc. split; [reflexivity|]. now constructor.
Qed.

End TableFacts.

(* ================================================================= *)
(** * Facts about [fetch] *)

Lemma submit_all_args w terms subjects :
  map fut_args (submit_all w terms subjects)
  = cross_product (firstn 1 terms) (firstn 10 subjects).
Proof.
  unfold submit_all, cross_product.
  induction (firstn 1 terms) as [|t ts IH]; cbn [flat_map map]; auto.
  rewrite map_app, IH, map_map. reflexivity.
Qed.

Lemma filter_all {A} (p : A -> bool) l :
  (forall x, In x l -> p x = true) -> filter p l = l.
Proof.
  induction l as [|x l IH]; cbn; intros H; auto.
  rewrite (H x (or_introl eq_refl)), IH; auto.
Qed.

Lemma filter_none {A} (p : A -> bool) l :
  (forall x, In x l -> p x = false) -> filter p l = [].
Proof.
  induction l as [|x l IH]; cbn; intros H; auto.
  rewrite (H x (or_introl eq_refl)), IH; auto.
Qed.

Lemma filter_nonempty {A} (p : A -> bool) l x :
  In x l -> p x = true -> (0 < length (filter p l))%nat.
Proof.
  induction l as [|y l IH]; cbn; intros Hin Hp; [contradiction|].
  destruct Hin as [->|Hin].
  - rewrite Hp. cbn. lia.
  - destruct (p y); cbn; [lia|auto].
Qed.

Lemma results_all_Return (fs : list future) :
  (forall fu, In fu fs -> exists rows, fut_result fu = Return rows) ->
  exists sets, results fs = Return sets /\ map (@length Course) sets = map row_count fs.
Proof.
  induction fs as [|fu fs IH]; cbn; intros H.
  - exists []. auto.
  - destruct (H fu (or_introl eq_refl)) as [rows E].
    destruct IH as (sets & Es & El); [intros; apply H; auto|].
    rewrite E, Es. cbn. exists (rows :: sets). split; auto.
    cbn. unfold row_count at 1. rewrite E. now rewrite El.
Qed.

Lemma length_concat_sum {A} (l : list (list A)) :
  length (concat l) = list_sum (map (@length A) l).
Proof.
  induction l as [|a l IH]; auto.
  cbn [concat map]. rewrite length_app, IH. reflexivity.
Qed.

Lemma list_sum_perm l l' : Permutation l l' -> list_sum l = list_sum l'.
Proof. unfold list_sum. induction 1; cbn [fold_right]; lia. Qed.

(** When every task succeeds within the deadline, the courses returned are
    as many as the rows of the tasks together. *)
Lemma fetch_tasks_length w terms subjects :
  (forall fu, In fu (submit_all w terms subjects) -> succeeds_within 60 fu) ->
  exists courses,
    fetch_tasks w terms subjects = Return courses
    /\ length courses = list_sum (map row_count (submit_all w terms subjects)).
Proof.
  intros H. unfold fetch_tasks, leave_with, wait.
  set (fs := submit_all w terms subjects) in *.
  assert (Hc : forallb completes fs = true).
  { apply forallb_forall. intros fu Hin. destruct (H fu Hin) as [Hd _].
    unfold done_by in Hd. unfold completes. now destruct (fut_done_at fu). }
  rewrite Hc.
  rewrite (filter_all (done_by 60) fs) by (intros; now apply H).
  rewrite (filter_none (fun fu => negb (done_by 60 fu)) fs)
    by (intros fu Hin; destruct (H fu Hin) as [-> _]; reflexivity).
  pose proof (Permutation_sym (set_order_perm w [])) as Hnil.
  apply Permutation_nil in Hnil.
  rewrite Hnil. cbn [length Nat.ltb Nat.leb].
  destruct (results_all_Return (set_order w fs)) as (sets & Es & El).
  { intros fu Hin. apply (Permutation_in _ (set_order_perm w fs)) in Hin.
    now apply H. }
  rewrite Es. cbn [bind]. eexists. split; [reflexivity|].
  rewrite length_concat_sum, El. apply list_sum_perm.
  apply Permutation_map, set_order_perm.
Qed.

(* ================================================================= *)
(** * BeautifulSoup on well-nested markup *)

Lemma feed_app b m1 m2 : feed b (m1 ++ m2) = feed (feed b m1) m2.
Proof. apply fold_left_app. Qed.

Lemma feed_cons b t m : feed b (t :: m) = feed (feed_token b t) m.
Proof. reflexivity. Qed.

Lemma frame_eta f : mkFrame (f_name f) (f_attrs f) (f_rev f) = f.
Proof. now destruct f. Qed.

Lemma grown_names st doc ns d :
  map f_name (stack (grown st doc ns d)) = map f_name st.
Proof. now destruct st. Qed.

Lemma preserves_whitespace_names st st' :
  map f_name st = map f_name st' ->
  preserves_whitespace st = preserves_whitespace st'.
Proof.
  revert st'. induction st as [|f st IH]; intros [|f' st'] H; try discriminate; auto.
  cbn [map] in H. inversion H as [[Hn Ht]].
  unfold preserves_whitespace in *. cbn [existsb]. rewrite Hn. f_equal.
  now apply IH.
Qed.

Lemma grown_preserves st doc ns d :
  preserves_whitespace (stack (grown st doc ns d)) = preserves_whitespace st.
Proof. apply preserves_whitespace_names, grown_names. Qed.

Lemma grown_add st doc ns n :
  (let (st', doc') := add_node n (stack (grown st doc ns [])) (doc_rev (grown st doc ns []))
   in mkBuilder st' doc' [])
  = grown st doc (ns ++ [n]) [].
Proof.
  destruct st as [|f rest]; cbn; now rewrite rev_app_distr.
Qed.

Lemma held_in_names st st' :
  map f_name st = map f_name st' -> held_in st = held_in st'.
Proof.
  unfold held_in. revert st'.
  induction st as [|f st IH]; intros [|f' st'] H; try discriminate; auto.
  cbn [map] in H. inversion H as [[Hn Ht]].
  cbn [List.find]. rewrite Hn.
  destruct (is_string_container (f_name f')); cbn [option_map]; [now rewrite Hn|].
  now apply IH.
Qed.

Lemma grown_held st doc ns d : held_in (stack (grown st doc ns d)) = held_in st.
Proof. apply held_in_names, grown_names. Qed.

Lemma held_in_cons name a st :
  is_string_container name = false -> held_in st = None ->
  held_in (mkFrame name a [] :: st) = None.
Proof.
  intros Hn Hs. unfold held_in in *. cbn [List.find f_name]. now rewrite Hn.
Qed.

Lemma endData_grown st doc ns d :
  held_in st = None ->
  endData (grown st doc ns d)
  = grown st doc (ns ++ flush (preserves_whitespace st) d) [].
Proof.
  intros Hheld. unfold endData. destruct d as [|s d].
  - cbn [flush]. rewrite app_nil_r. destruct st; reflexivity.
  - replace (current_data (grown st doc ns (s :: d))) with (s :: d)
      by (destruct st; reflexivity).
    cbv iota. rewrite grown_preserves.
    replace (stack (grown st doc ns (s :: d))) with (stack (grown st doc ns []))
      by (destruct st; reflexivity).
    replace (doc_rev (grown st doc ns (s :: d))) with (doc_rev (grown st doc ns []))
      by (destruct st; reflexivity).
    unfold string_node. rewrite grown_held, Hheld.
    rewrite grown_add. reflexivity.
Qed.

Lemma is_open_names name st :
  existsb (fun f => String.eqb (f_name f) name) st
  = existsb (String.eqb name) (map f_name st).
Proof.
  induction st as [|f st IH]; cbn; auto.
  now rewrite IH, (String.eqb_sym name).
Qed.

Lemma grown_eta st doc ns :
  mkBuilder (stack (grown st doc ns [])) (doc_rev (grown st doc ns [])) []
  = grown st doc ns [].
Proof. now destruct st. Qed.

(** Feeding the markup of properly nested items appends the tree of these
    items to the element that is open. *)
Lemma feed_render l :
  forall st doc ns d,
    held_in st = None ->
    nested (map f_name st) l ->
    endData (feed (grown st doc ns d) (render l))
    = grown st doc (ns ++ build (preserves_whitespace st) d l) [].
Proof.
  induction l as [|s rest IH|name a rest IH|name a body IHb rest IHr|name rest IH];
    intros st doc ns d Hheld Hn; cbn [render build nested] in *.
  - now apply endData_grown.
  - rewrite feed_cons. cbn [feed_token]. unfold handle_data.
    replace (mkBuilder _ _ _) with (grown st doc ns (d ++ [s]))
      by (destruct st; reflexivity).
    now apply IH.
  - destruct Hn as [Hv Hn]. rewrite feed_cons. cbn [feed_token].
    unfold handle_starttag. rewrite Hv, endData_grown, grown_add by exact Hheld.
    rewrite IH by assumption. now rewrite <- !app_assoc.
  - destruct Hn as (Hv & Hsc & Hbody & Hrest). rewrite feed_cons. cbn [feed_token].
    unfold handle_starttag. rewrite Hv, endData_grown by exact Hheld.
    set (ns1 := ns ++ flush _ d). set (G1 := grown st doc ns1 []).
    rewrite feed_app, feed_cons. cbn [feed_token]. unfold handle_endtag.
    change (mkBuilder (mkFrame name a [] :: stack G1) (doc_rev G1) [])
      with (grown (mkFrame name a [] :: stack G1) (doc_rev G1) [] []).
    rewrite IHb;
      [|apply held_in_cons; [exact Hsc|unfold G1; now rewrite grown_held]
       |cbn [map f_name]; unfold G1; now rewrite grown_names].
    cbn [List.app preserves_whitespace existsb f_name].
    fold (keeps_whitespace name). fold (preserves_whitespace (stack G1)).
    assert (Hpw : preserves_whitespace (stack G1) = preserves_whitespace st)
      by apply grown_preserves.
    rewrite Hpw.
    set (kids := build _ [] body).
    cbn [grown stack doc_rev f_name f_attrs f_rev].
    unfold popToTag. cbn [existsb f_name]. rewrite String.eqb_refl.
    cbn [orb length pop_loop popTag f_name]. rewrite String.eqb_refl.
    unfold close_frame. cbn [f_name f_attrs f_rev].
    rewrite app_nil_r, rev_involutive.
    match goal with
    | |- context [feed ?B (render rest)] =>
        replace B with (grown st doc (ns1 ++ [Tag name a kids]) [])
    end.
    2:{ rewrite <- grown_add. fold G1. change ([] ++ kids) with kids.
        destruct (add_node (Tag name a kids) (stack G1) (doc_rev G1)).
        reflexivity. }
    rewrite IHr by assumption. unfold ns1. now rewrite <- !app_assoc.
  - destruct Hn as [Hno Hn]. rewrite feed_cons. cbn [feed_token].
    unfold handle_endtag. rewrite endData_grown by exact Hheld.
    unfold popToTag. rewrite is_open_names, grown_names, Hno.
    rewrite grown_eta. rewrite IH by assumption. now rewrite <- app_assoc.
Qed.

(** The tree of a document made of properly nested items. *)
Lemma BeautifulSoup_render l :
  nested [] l ->
  BeautifulSoup (render l) = Tag "[document]" [] (build false [] l).
Proof.
  intros Hn. unfold BeautifulSoup, finish.
  change (mkBuilder [] [] []) with (grown [] [] [] []).
  rewrite (feed_render l [] [] [] [] eq_refl) by exact Hn.
  cbn. now rewrite app_nil_r, rev_involutive.
Qed.

(* ================================================================= *)
(** * The two substitutions on the markup of the course list *)

Lemma render_seq a b : render (seq a b) = render a ++ render b.
Proof.
  induction a as [|s r IH|n at_ r IH|n at_ body _ r IH|n r IH]; cbn; auto;
    rewrite IH; auto.
  now rewrite <- app_assoc.
Qed.

Lemma render_region body :
  render (results_region body)
  = TStart "div" [("id", "results")] :: TStart "table" [] :: TStart "tbody" []
      :: render body ++ [TEnd "tbody"; TEnd "table"; TEnd "div"].
Proof. cbn. now rewrite <- ?app_assoc. Qed.

Lemma void_not_tbody n : is_void n = true -> n <> "tbody".
Proof. intros H ->. discriminate H. Qed.

Lemma tbody_open_other n a : n <> "tbody" -> is_tbody_open (TStart n a) = false.
Proof.
  intros H. destruct a; cbn; auto. now apply String.eqb_neq.
Qed.

Lemma quiet_cell_content c : cell_content c -> Forall quiet (render c).
Proof.
  induction c as [|s r IH|n at_ r IH|n at_ body IHb r IH|n r IH]; cbn;
    intros H.
  - constructor.
  - constructor; [split; reflexivity|auto].
  - destruct H as [Hv H]. constructor; auto. split; [|reflexivity].
    apply tbody_open_other. now apply void_not_tbody.
  - destruct H as (Hv & _ & Htr & Htb & Hb & Hr). constructor.
    + split; [now apply tbody_open_other|reflexivity].
    + apply Forall_app. split; auto. constructor; auto.
      split; [reflexivity|]. cbn. now apply String.eqb_neq.
  - contradiction.
Qed.

Lemma quiet_blanks sp : blanks sp -> Forall quiet (render sp).
Proof.
  induction sp; cbn; intros H; try contradiction; constructor.
  - split; reflexivity.
  - apply IHsp, H.
Qed.

Lemma blank_text_blanks sp :
  blanks sp -> Forall (fun t => is_blank_text t = true) (render sp).
Proof.
  induction sp; cbn; intros H; try contradiction; constructor.
  - apply H.
  - apply IHsp, H.
Qed.

Lemma sub_tbody_app m1 m2 : sub_tbody_tokens (m1 ++ m2) = sub_tbody_tokens m1 ++ sub_tbody_tokens m2.
Proof. apply flat_map_app. Qed.

Lemma sub_tbody_quiet m :
  Forall (fun t => is_tbody_open t = false) m -> sub_tbody_tokens m = m.
Proof.
  induction 1 as [|t m Ht _ IH]; auto.
  unfold sub_tbody_tokens in *. cbn [flat_map]. rewrite Ht, IH. reflexivity.
Qed.

Lemma quiet_not_tbody m :
  Forall quiet m -> Forall (fun t => is_tbody_open t = false) m.
Proof. apply Forall_impl. now intros t [H _]. Qed.

Lemma sub_tr_td_pass m rest :
  Forall quiet m ->
  sub_tr_td_tokens_from None (m ++ rest) = m ++ sub_tr_td_tokens_from None rest.
Proof.
  induction 1 as [|t m [_ Ht] _ IH]; auto.
  cbn. now rewrite Ht, IH.
Qed.

Lemma sub_tr_td_pass_cons t rest :
  is_tr_close t = false ->
  sub_tr_td_tokens_from None (t :: rest) = t :: sub_tr_td_tokens_from None rest.
Proof. intros Ht. cbn. now rewrite Ht. Qed.

Lemma sub_tr_td_hold held m rest :
  Forall (fun t => is_blank_text t = true) m ->
  sub_tr_td_tokens_from (Some held) (m ++ rest) = sub_tr_td_tokens_from (Some (held ++ m)) rest.
Proof.
  intros H. revert held. induction H as [|t m Ht _ IH]; intros held.
  - now rewrite app_nil_r.
  - cbn. rewrite Ht, IH, <- app_assoc. reflexivity.
Qed.

Section RepairFacts.

Variable sp : items.
Hypothesis sp_blanks : blanks sp.

Abbreviation row_ok := (fun row : list items => row <> [] /\ Forall cell_content row).

Lemma render_cells_cons c cs :
  render (cells_items sp (c :: cs))
  = TStart "td" [] :: render c ++ TEnd "td" :: render sp ++ render (cells_items sp cs).
Proof.
  unfold cells_items. cbn [map seq_all fold_right seq render].
  now rewrite render_seq.
Qed.

Lemma quiet_cells row :
  Forall cell_content row -> Forall quiet (render (cells_items sp row)).
Proof.
  induction 1 as [|c cs Hc _ IH]; [constructor|].
  rewrite render_cells_cons. constructor; [split; reflexivity|].
  apply Forall_app. split; [now apply quiet_cell_content|].
  constructor; [split; reflexivity|].
  apply Forall_app. split; [now apply quiet_blanks|exact IH].
Qed.

Lemma render_site_rows_cons row rows :
  render (site_rows sp (row :: rows))
  = render (cells_items sp row) ++ TEnd "tr" :: render sp ++ render (site_rows sp rows).
Proof.
  unfold site_rows. cbn [map seq_all fold_right].
  rewrite !render_seq. cbn [render]. rewrite <- app_assoc. reflexivity.
Qed.

Lemma render_tr_rows_cons row rows :
  render (tr_rows sp (row :: rows))
  = TStart "tr" [] :: render (cells_items sp row) ++ TEnd "tr" :: render (tr_rows sp rows).
Proof. reflexivity. Qed.

Lemma sub_tr_td_after_tr m :
  sub_tr_td_tokens_from None (TEnd "tr" :: m) = sub_tr_td_tokens_from (Some []) m.
Proof. reflexivity. Qed.

Lemma sub_tr_td_held_cells held c cs rest :
  sub_tr_td_tokens_from (Some held) (render (cells_items sp (c :: cs)) ++ rest)
  = TEnd "tr" :: TStart "tr" []
      :: sub_tr_td_tokens_from None (render (cells_items sp (c :: cs)) ++ rest).
Proof. rewrite render_cells_cons. reflexivity. Qed.

Lemma sub_tr_td_held_tbody held rest :
  sub_tr_td_tokens_from (Some held) (TEnd "tbody" :: rest)
  = TEnd "tr" :: held ++ TEnd "tbody" :: sub_tr_td_tokens_from None rest.
Proof. reflexivity. Qed.

(** From the cells of a row to the end of the table body: a [<tr>] is put
    in front of every later row and the blank text before it goes. *)
Lemma sub_tr_td_rows rows :
  forall row tail,
    row_ok row -> Forall row_ok rows ->
    sub_tr_td_tokens_from None
      (render (cells_items sp row) ++ TEnd "tr" :: render sp
         ++ render (site_rows sp rows) ++ TEnd "tbody" :: tail)
    = render (cells_items sp row) ++ TEnd "tr" :: render (tr_rows sp rows)
        ++ render sp ++ TEnd "tbody" :: sub_tr_td_tokens_from None tail.
Proof.
  induction rows as [|r rs IH]; intros row tail [Hne Hrow] Hrows.
  - rewrite sub_tr_td_pass by now apply quiet_cells.
    f_equal. rewrite sub_tr_td_after_tr.
    rewrite sub_tr_td_hold by now apply blank_text_blanks.
    unfold site_rows, tr_rows. cbn [List.app map seq_all fold_right render].
    now rewrite sub_tr_td_held_tbody.
  - inversion Hrows as [|? ? Hr Hrs]; subst.
    rewrite sub_tr_td_pass by now apply quiet_cells.
    f_equal. rewrite sub_tr_td_after_tr.
    rewrite sub_tr_td_hold by now apply blank_text_blanks.
    rewrite render_site_rows_cons, render_tr_rows_cons.
    destruct r as [|c cs]; [destruct Hr; congruence|].
    rewrite <- ?app_assoc. cbn [List.app]. rewrite <- ?app_assoc.
    rewrite sub_tr_td_held_cells.
    rewrite (IH (c :: cs) tail Hr Hrs) || fail 1.
    cbn [List.app]. now rewrite <- ?app_assoc.
Qed.

Lemma not_tbody_site_rows rows :
  Forall row_ok rows ->
  Forall (fun t => is_tbody_open t = false) (render (site_rows sp rows)).
Proof.
  induction 1 as [|row rows [_ Hrow] _ IH]; [constructor|].
  rewrite render_site_rows_cons. apply Forall_app. split.
  - now apply quiet_not_tbody, quiet_cells.
  - constructor; [reflexivity|]. apply Forall_app. split; auto.
    now apply quiet_not_tbody, quiet_blanks.
Qed.

(** The two substitutions turn the markup of the course list into markup
    with every row between [<tr>] and [</tr>]. *)
Lemma repair_site_markup t :
  table_ok t -> t <> [] ->
  sub_tr_td_tokens (sub_tbody_tokens (site_markup sp t)) = render (repaired_items sp t).
Proof.
  intros Hok Hne. destruct t as [|row rows]; [congruence|].
  pose proof Hok as Hok'.
  inversion Hok as [|? ? Hrow Hrows]; subst.
  unfold site_markup, site_items, repaired_items. rewrite !render_region.
  fold (site_rows sp (row :: rows)). fold (tr_rows sp rows).
  set (body := render (seq sp (site_rows sp (row :: rows)))).
  assert (Hb : sub_tbody_tokens body = body).
  { apply sub_tbody_quiet. unfold body. rewrite render_seq.
    apply Forall_app. split.
    - now apply quiet_not_tbody, quiet_blanks.
    - now apply not_tbody_site_rows. }
  match goal with
  | |- sub_tr_td_tokens (sub_tbody_tokens (?A :: ?B :: ?C :: body ++ ?tl)) = _ =>
      change (A :: B :: C :: body ++ tl) with ([A; B; C] ++ body ++ tl)
  end.
  rewrite !sub_tbody_app, Hb.
  change (sub_tbody_tokens [TStart "div" [("id", "results")]; TStart "table" [];
                     TStart "tbody" []])
    with [TStart "div" [("id", "results")]; TStart "table" [];
          TStart "tbody" []; TStart "tr" []].
  change (sub_tbody_tokens [TEnd "tbody"; TEnd "table"; TEnd "div"])
    with [TEnd "tbody"; TEnd "table"; TEnd "div"].
  unfold sub_tr_td_tokens. cbn [List.app].
  do 4 (rewrite sub_tr_td_pass_cons by reflexivity).
  unfold body. rewrite render_seq, render_site_rows_cons.
  rewrite <- ?app_assoc.
  rewrite sub_tr_td_pass by now apply quiet_blanks.
  cbn [List.app]. rewrite <- ?app_assoc.
  rewrite (@sub_tr_td_rows rows row [TEnd "table"; TEnd "div"] Hrow Hrows).
  cbn [render]. rewrite !render_seq, <- ?app_assoc. cbn [List.app].
  rewrite <- ?app_assoc. cbn [List.app]. rewrite <- ?app_assoc. reflexivity.
Qed.

End RepairFacts.

(* ================================================================= *)
(** * Finding rows and cells in the tree of well-nested markup *)

Lemma descendants_Tag n a cs :
  descendants (Tag n a cs) = flat_map (fun c => c :: descendants c) cs.
Proof. cbn [descendants]. induction cs as [|c cs IH]; cbn [flat_map]; [reflexivity|]. cbn [List.app]. now rewrite IH. Qed.

Lemma find_all_Tag n a cs name : find_all (Tag n a cs) name = find_all_in cs name.
Proof. unfold find_all, find_all_in. now rewrite descendants_Tag. Qed.

Lemma find_all_in_Tag n a kids ns name :
  find_all_in (Tag n a kids :: ns) name
  = (if String.eqb n name then [Tag n a kids] else [])
      ++ find_all_in kids name ++ find_all_in ns name.
Proof.
  unfold find_all_in. cbn [flat_map]. rewrite descendants_Tag.
  cbn [List.app filter is_tag_named]. rewrite filter_app.
  now destruct (String.eqb n name).
Qed.

Lemma find_all_in_flush pw d ns name :
  find_all_in (flush pw d ++ ns) name = find_all_in ns name.
Proof. destruct d; reflexivity. Qed.

Lemma find_all_in_flush_only pw d name : find_all_in (flush pw d) name = [].
Proof. destruct d; reflexivity. Qed.

(** The text read before the items changes strings only. *)
Lemma find_all_in_build_data pw d l name :
  find_all_in (build pw d l) name = find_all_in (build pw [] l) name.
Proof.
  revert d. induction l as [|s r IH|n a r IH|n a body _ r IH|n r IH];
    intros d; cbn [build].
  - now rewrite !find_all_in_flush_only.
  - rewrite (IH (d ++ [s])), (IH ([] ++ [s])). reflexivity.
  - now rewrite !find_all_in_flush.
  - now rewrite !find_all_in_flush.
  - now rewrite !find_all_in_flush.
Qed.

Lemma find_all_in_build_seq pw l r name :
  find_all_in (build pw [] (seq l r)) name
  = find_all_in (build pw [] l) name ++ find_all_in (build pw [] r) name.
Proof.
  induction l as [|s l IH|n a l IH|n a body _ l IH|n l IH]; cbn [seq build].
  - reflexivity.
  - now rewrite (find_all_in_build_data pw ([] ++ [s]) (seq l r)), IH,
      (find_all_in_build_data pw ([] ++ [s]) l).
  - cbn [flush List.app]. now rewrite !find_all_in_Tag, IH, <- !app_assoc.
  - cbn [flush List.app]. now rewrite !find_all_in_Tag, IH, <- !app_assoc.
  - cbn [flush List.app]. exact IH.
Qed.

Lemma find_all_in_blanks pw sp name :
  blanks sp -> find_all_in (build pw [] sp) name = [].
Proof.
  induction sp as [|s r IH| | |]; cbn [blanks]; intros H; try contradiction.
  - reflexivity.
  - cbn [build]. rewrite find_all_in_build_data. apply IH, H.
Qed.

Lemma find_all_in_cell_content c :
  cell_content c -> forall pw, find_all_in (build pw [] c) "tr" = [].
Proof.
  induction c as [|s r IH|n a r IH|n a body IHb r IH|n r IH]; cbn [cell_content];
    intros H pw.
  - reflexivity.
  - cbn [build]. rewrite find_all_in_build_data. now apply IH.
  - destruct H as [Hv H]. cbn [build flush List.app]. rewrite find_all_in_Tag.
    destruct (String.eqb_spec n "tr") as [->|_]; [discriminate Hv|].
    now rewrite IH.
  - destruct H as (Hv & _ & Htr & _ & Hb & Hr). cbn [build flush List.app].
    rewrite find_all_in_Tag.
    destruct (String.eqb_spec n "tr") as [->|_]; [congruence|].
    now rewrite IHb, IH.
  - contradiction.
Qed.

Lemma results_tbody_region body :
  results_tbody (Tag "[document]" [] (build false [] (results_region body)))
  = Return (Tag "tbody" [] (build false [] body)).
Proof. reflexivity. Qed.

Lemma parse_rows_ext normalize term term_code subject subject_code trs trs' :
  Forall2 (fun r r' => find_all r "td" = find_all r' "td") trs trs' ->
  forall rows,
    parse_rows normalize term term_code subject subject_code trs rows
    = parse_rows normalize term term_code subject subject_code trs' rows.
Proof.
  induction 1 as [|r r' trs trs' Hr _ IH]; intros rows; cbn [parse_rows]; auto.
  unfold parse_row. rewrite Hr.
  match goal with
  | |- bind ?m _ = bind ?m _ => destruct m; cbn [bind]; auto
  end.
Qed.

Lemma seq_all_cons x l : seq_all (x :: l) = seq x (seq_all l).
Proof. reflexivity. Qed.

Section TableNavigation.

Variable sp : items.
Hypothesis sp_blanks : blanks sp.

Lemma find_tr_in_cells row pw :
  Forall cell_content row ->
  find_all_in (build pw [] (cells_items sp row)) "tr" = [].
Proof.
  induction 1 as [|c cs Hc _ IH]; [reflexivity|].
  unfold cells_items in *. cbn [map]. rewrite seq_all_cons. cbn [seq build flush List.app].
  rewrite find_all_in_Tag. cbn [String.eqb Ascii.eqb Bool.eqb].
  rewrite find_all_in_cell_content by assumption.
  cbn [List.app]. rewrite find_all_in_build_seq, find_all_in_blanks by assumption.
  exact IH.
Qed.

(** The rows of the repaired markup. *)
Lemma rows_of_repaired row rows :
  Forall cell_content row ->
  Forall (fun r => r <> [] /\ Forall cell_content r) rows ->
  find_all_in
    (build false []
       (Elem "tr" [] (seq sp (cells_items sp row)) (seq (tr_rows sp rows) sp)))
    "tr"
  = Tag "tr" [] (build false [] (seq sp (cells_items sp row)))
      :: map (fun r => Tag "tr" [] (build false [] (cells_items sp r))) rows.
Proof.
  intros Hrow Hrows. cbn [build flush List.app]. rewrite find_all_in_Tag.
  cbn [String.eqb Ascii.eqb Bool.eqb keeps_whitespace orb List.app].
  rewrite find_all_in_build_seq, find_all_in_blanks, find_tr_in_cells by assumption.
  cbn [List.app]. f_equal.
  rewrite find_all_in_build_seq, (find_all_in_blanks false sp) by assumption.
  rewrite app_nil_r.
  induction Hrows as [|r rs [_ Hr] _ IH]; [reflexivity|].
  unfold tr_rows in *. cbn [map]. rewrite seq_all_cons. cbn [seq build flush List.app].
  rewrite find_all_in_Tag.
  cbn [String.eqb Ascii.eqb Bool.eqb keeps_whitespace orb List.app].
  rewrite find_tr_in_cells by assumption. cbn [List.app]. now rewrite IH.
Qed.

(** The rows of the well-formed markup. *)
Lemma rows_of_wellformed t :
  table_ok t ->
  find_all_in
    (build false []
       (seq sp (seq_all (map (fun row => Elem "tr" [] (seq sp (cells_items sp row)) sp) t))))
    "tr"
  = map (fun row => Tag "tr" [] (build false [] (seq sp (cells_items sp row)))) t.
Proof.
  intros Hok. rewrite find_all_in_build_seq, find_all_in_blanks by assumption.
  cbn [List.app].
  induction Hok as [|r rs [_ Hr] _ IH]; [reflexivity|].
  cbn [map]. rewrite seq_all_cons. cbn [seq build flush List.app].
  rewrite find_all_in_Tag.
  cbn [String.eqb Ascii.eqb Bool.eqb keeps_whitespace orb List.app].
  rewrite find_all_in_build_seq, (find_all_in_blanks false sp),
    find_tr_in_cells by assumption.
  cbn [List.app]. f_equal.
  rewrite find_all_in_build_seq, (find_all_in_blanks false sp) by assumption.
  exact IH.
Qed.

(** Blank text in front of the cells of a row does not change its cells. *)
Lemma cells_of_row X :
  find_all (Tag "tr" [] (build false [] (seq sp X))) "td"
  = find_all (Tag "tr" [] (build false [] X)) "td".
Proof.
  rewrite !find_all_Tag, find_all_in_build_seq, find_all_in_blanks by assumption.
  reflexivity.
Qed.

(** The markup of the course list has a cell as soon as the table has. *)
Lemma site_has_cell c cs rows :
  (0 < length (find_all_in
                 (build false [] (seq sp (site_rows sp ((c :: cs) :: rows)))) "td"))%nat.
Proof.
  rewrite find_all_in_build_seq, find_all_in_blanks by assumption.
  unfold site_rows, cells_items.
  cbn [map]. rewrite !seq_all_cons. cbn [seq build flush List.app].
  rewrite find_all_in_Tag. cbn [String.eqb Ascii.eqb Bool.eqb List.app length].
  lia.
Qed.

(** Without cells there is neither a cell nor a row in the tree. *)
Lemma site_without_cells k name :
  find_all_in (build false [] (seq sp (site_rows sp (repeat [] k)))) name = [].
Proof.
  rewrite find_all_in_build_seq, find_all_in_blanks by assumption.
  cbn [List.app].
  induction k as [|k IH]; [reflexivity|].
  unfold site_rows, cells_items in *.
  cbn [repeat map]. rewrite seq_all_cons.
  change (seq (seq_all []) (Stray "tr" sp)) with (Stray "tr" sp).
  rewrite find_all_in_build_seq. cbn [build flush List.app].
  rewrite find_all_in_blanks by assumption.
  exact IH.
Qed.

End TableNavigation.

(* ================================================================= *)
(** * The three descriptions of a page are properly nested *)

Lemma nested_seq open a b :
  nested open a -> nested open b -> nested open (seq a b).
Proof.
  revert open. induction a as [|s r IH|n at_ r IH|n at_ body _ r IH|n r IH];
    intros open Ha Hb; cbn [seq nested] in *; intuition.
Qed.

Lemma nested_blanks open sp : blanks sp -> nested open sp.
Proof.
  induction sp; cbn [blanks nested]; intros H; try contradiction; auto.
  apply IHsp, H.
Qed.

Lemma nested_cell_content c : cell_content c -> forall open, nested open c.
Proof.
  induction c as [|s r IH|n at_ r IH|n at_ body IHb r IH|n r IH];
    cbn [cell_content nested]; intros H open; try contradiction; auto.
  - destruct H. auto.
  - destruct H as (Hv & Hsc & _ & _ & Hb & Hr). auto.
Qed.

Section NestedPages.

Variable sp : items.
Hypothesis sp_blanks : blanks sp.

Lemma nested_cells open row :
  Forall cell_content row -> nested open (cells_items sp row).
Proof.
  induction 1 as [|c cs Hc _ IH]; [exact I|].
  unfold cells_items in *. cbn [map]. rewrite seq_all_cons.
  cbn [seq nested]. split; [reflexivity|]. split; [reflexivity|]. split.
  - now apply nested_cell_content.
  - apply nested_seq; [now apply nested_blanks|exact IH].
Qed.

Lemma nested_region body :
  nested ["tbody"; "table"; "div"] body -> nested [] (results_region body).
Proof. intros H. cbn. tauto. Qed.

Lemma nested_site_rows rows :
  Forall (fun row => Forall cell_content row) rows ->
  nested ["tbody"; "table"; "div"] (site_rows sp rows).
Proof.
  induction 1 as [|row rows Hrow _ IH]; [exact I|].
  unfold site_rows in *. cbn [map]. rewrite seq_all_cons.
  apply nested_seq; [|exact IH].
  apply nested_seq; [now apply nested_cells|].
  cbn [nested]. split; [reflexivity|]. now apply nested_blanks.
Qed.

Lemma table_ok_cells t :
  table_ok t -> Forall (fun row => Forall cell_content row) t.
Proof. apply Forall_impl. now intros row [_ H]. Qed.

Lemma nested_site t : table_ok t -> nested [] (site_items sp t).
Proof.
  intros Hok. apply nested_region, nested_seq.
  - now apply nested_blanks.
  - now apply nested_site_rows, table_ok_cells.
Qed.

Lemma nested_wellformed t : table_ok t -> nested [] (wellformed_items sp t).
Proof.
  intros Hok. apply nested_region, nested_seq; [now apply nested_blanks|].
  apply table_ok_cells in Hok.
  induction Hok as [|row rows Hrow _ IH]; [exact I|].
  cbn [map]. rewrite seq_all_cons. cbn [seq nested].
  split; [reflexivity|]. split; [reflexivity|]. split.
  - apply nested_seq; [now apply nested_blanks|now apply nested_cells].
  - apply nested_seq; [now apply nested_blanks|exact IH].
Qed.

Lemma nested_repaired t : table_ok t -> nested [] (repaired_items sp t).
Proof.
  intros Hok. destruct t as [|row rows]; [now apply nested_site|].
  apply table_ok_cells in Hok. inversion Hok as [|? ? Hrow Hrows]; subst.
  apply nested_region. cbn [nested]. split; [reflexivity|]. split; [reflexivity|]. split.
  - apply nested_seq; [now apply nested_blanks|now apply nested_cells].
  - apply nested_seq; [|now apply nested_blanks].
    clear Hok Hrow. induction Hrows as [|r rs Hr _ IH]; [exact I|].
    unfold tr_rows in *. cbn [map]. rewrite seq_all_cons. cbn [seq nested].
    split; [reflexivity|]. split; [reflexivity|]. split; [now apply nested_cells|exact IH].
Qed.

Lemma table_ok_repeat_nil k : Forall (fun row : list items => Forall cell_content row) (repeat [] k).
Proof. induction k; cbn; constructor; auto. Qed.

End NestedPages.

(* ================================================================= *)
(** * [loads] reads what [dumps] writes *)

Lemma value_ind' (P : value -> Prop) :
  (forall z, P (JInt z)) ->
  (forall s, P (JStr s)) ->
  (forall ms, Forall (fun kv => P (snd kv)) ms -> P (JObj ms)) ->
  forall v, P v.
Proof.
  intros Hi Hs Ho. fix F 1. intros [z|s|ms]; [apply Hi|apply Hs|].
  apply Ho. induction ms as [|kv ms IH]; constructor; [apply F|exact IH].
Qed.

Lemma string_length_app (a b : string) :
  String.length (a ++ b) = (String.length a + String.length b)%nat.
Proof. induction a; cbn; auto. Qed.

Lemma cost_JObj ms : cost (JObj ms) = S (members_cost ms).
Proof. reflexivity. Qed.

Lemma dumps_JObj ms :
  dumps (JObj ms) = ("{" ++ join ", " (map member ms) ++ "}")%string.
Proof. reflexivity. Qed.

Lemma distinct_keys_JObj ms :
  distinct_keys (JObj ms)
  <-> NoDup (keys ms) /\ Forall (fun kv => distinct_keys (snd kv)) ms.
Proof.
  cbn [distinct_keys]. apply and_iff_compat_l.
  induction ms as [|kv ms IH]; split; intros H.
  - constructor.
  - exact I.
  - destruct H as [H1 H2]. constructor; auto. now apply IH.
  - inversion H; subst. split; auto. now apply IH.
Qed.

(** ** Strings *)

Lemma scan_string_escape_char c r :
  scan_string (escape_char c ++ r) = prepend c (scan_string r).
Proof. destruct c as [[] [] [] [] [] [] [] []]; reflexivity. Qed.

Lemma scan_string_escape s rest :
  scan_string (escape s ++ String quote_char rest) = Some (s, rest).
Proof.
  induction s as [|c s IH]; [reflexivity|].
  cbn [escape]. rewrite string_app_assoc, scan_string_escape_char, IH.
  reflexivity.
Qed.

Lemma scan_encoded s rest :
  exists body, (encode_string s ++ rest)%string = String quote_char body
               /\ scan_string body = Some (s, rest).
Proof.
  exists (escape s ++ String quote_char rest)%string. split.
  - unfold encode_string. cbn [append]. now rewrite string_app_assoc.
  - apply scan_string_escape.
Qed.

(** ** Integers *)

Lemma take_digits_string_of_uint u rest :
  no_digit_ahead rest ->
  take_digits (NilEmpty.string_of_uint u ++ rest) = (u, rest).
Proof.
  intros Hr. induction u; cbn [NilEmpty.string_of_uint append take_digits];
    try (rewrite IHu; reflexivity).
  destruct rest as [|c r]; [reflexivity|]. cbn in *. now rewrite Hr.
Qed.

Lemma to_uint_unorm p : unorm (Pos.to_uint p) = Pos.to_uint p.
Proof.
  rewrite <- (DecimalPos.Unsigned.to_of (Pos.to_uint p)).
  now rewrite DecimalPos.Unsigned.of_to.
Qed.

Lemma to_uint_no_leading_zero p u : Pos.to_uint p <> D0 u.
Proof.
  intros E. pose proof (to_uint_unorm p) as Hn. rewrite E in Hn.
  rewrite DecimalFacts.unorm_D0 in Hn.
  destruct u as [|u|u|u|u|u|u|u|u|u|u].
  1: { apply (DecimalPos.Unsigned.to_uint_nonzero p). exact E. }
  all: match type of Hn with unorm ?x = _ =>
         pose proof (DecimalFacts.nb_digits_unorm x) as Hlen;
         rewrite Hn in Hlen; cbn [nb_digits] in Hlen;
         specialize (Hlen ltac:(discriminate)); lia
       end.
Qed.

Lemma of_uint_to_uint p : Z.of_uint (Pos.to_uint p) = Z.pos p.
Proof. unfold Z.of_uint. now rewrite DecimalPos.Unsigned.of_to. Qed.

Lemma scan_natural_pos p rest :
  number_tail rest ->
  scan_natural (NilEmpty.string_of_uint (Pos.to_uint p) ++ rest)
  = Some (Z.pos p, rest).
Proof.
  intros [Hd Hf]. unfold scan_natural.
  rewrite take_digits_string_of_uint, Hf by assumption.
  pose proof (to_uint_no_leading_zero p) as Hz.
  pose proof (DecimalPos.Unsigned.to_uint_nonnil p) as Hn.
  pose proof (of_uint_to_uint p) as Hv.
  destruct (Pos.to_uint p) as [|u|u|u|u|u|u|u|u|u|u];
    try congruence; try (now rewrite Hv).
Qed.

Lemma string_of_uint_head u :
  u <> Nil ->
  exists c r, NilEmpty.string_of_uint u = String c r /\ is_digit c = true.
Proof. destruct u; try congruence; intros _; do 2 eexists; split; reflexivity. Qed.

Lemma scan_number_str_of_int z rest :
  number_tail rest ->
  scan_number (str_of_int z ++ rest) = Some (JInt z, rest).
Proof.
  intros Ht. unfold str_of_int, NilZero.string_of_int, Z.to_int.
  destruct z as [|p|p].
  - destruct Ht as [Hd Hf].
    change (scan_number (String "0" rest) = Some (JInt 0, rest)).
    unfold scan_number. cbn [Ascii.eqb Bool.eqb].
    change (String "0" rest) with (NilEmpty.string_of_uint (D0 Nil) ++ rest)%string.
    unfold scan_natural.
    rewrite take_digits_string_of_uint, Hf by assumption. reflexivity.
  - unfold NilZero.string_of_uint.
    pose proof (DecimalPos.Unsigned.to_uint_nonnil p) as Hn.
    pose proof (scan_natural_pos p Ht) as Hs.
    destruct (string_of_uint_head Hn) as (c & r & E & Hc).
    destruct (Pos.to_uint p) eqn:Eu; try congruence;
      rewrite E in *; cbn [append scan_number];
      (replace (Ascii.eqb c "-") with false
        by (apply is_digit_cases in Hc;
            destruct Hc as [H|[H|[H|[H|[H|[H|[H|[H|[H|H]]]]]]]]]; subst; reflexivity));
      cbn [append] in Hs; now rewrite Hs.
  - unfold NilZero.string_of_uint.
    pose proof (DecimalPos.Unsigned.to_uint_nonnil p) as Hn.
    pose proof (scan_natural_pos p Ht) as Hs.
    destruct (Pos.to_uint p) eqn:Eu; try congruence;
      cbn [append scan_number Ascii.eqb Bool.eqb]; now rewrite Hs.
Qed.

(** ** Values *)

Lemma delimited_number_tail rest : delimited rest -> number_tail rest.
Proof.
  destruct rest as [|c r]; cbn; [intros _; split; reflexivity|].
  intros [->| ->]; split; reflexivity.
Qed.

Lemma str_of_int_head z :
  exists c r, str_of_int z = String c r
              /\ Ascii.eqb c quote_char = false /\ Ascii.eqb c "{" = false
              /\ is_json_space c = false.
Proof.
  unfold str_of_int, NilZero.string_of_int, Z.to_int, NilZero.string_of_uint.
  destruct z as [|p|p].
  - do 2 eexists. repeat split.
  - pose proof (DecimalPos.Unsigned.to_uint_nonnil p) as Hn.
    destruct (string_of_uint_head Hn) as (c & r & E & Hc).
    exists c, r. split.
    + destruct (Pos.to_uint p); try congruence; exact E.
    + apply is_digit_cases in Hc.
      destruct Hc as [H|[H|[H|[H|[H|[H|[H|[H|[H|H]]]]]]]]]; subst; repeat split.
  - do 2 eexists. repeat split.
Qed.

Lemma scan_value_int fuel z rest :
  delimited rest ->
  scan_value (S fuel) (str_of_int z ++ rest) = Some (JInt z, rest).
Proof.
  intros Hr. pose proof (scan_number_str_of_int z (delimited_number_tail _ Hr)) as Hs.
  destruct (str_of_int_head z) as (c & r & E & Hq & Hb & _).
  rewrite E in *. cbn [append scan_value] in *. now rewrite Hq, Hb.
Qed.

Lemma scan_value_str fuel s rest :
  scan_value (S fuel) (encode_string s ++ rest) = Some (JStr s, rest).
Proof.
  destruct (scan_encoded s rest) as (body & -> & Hb).
  cbn [scan_value]. rewrite Ascii.eqb_refl. now rewrite Hb.
Qed.

Lemma dumps_head v :
  exists c r, dumps v = String c r /\ is_json_space c = false.
Proof.
  destruct v as [z|s|ms].
  - destruct (str_of_int_head z) as (c & r & E & _ & _ & Hs). eauto.
  - do 2 eexists. split; reflexivity.
  - do 2 eexists. split; reflexivity.
Qed.

Lemma skip_ws_dumps v rest : skip_ws (dumps v ++ rest) = (dumps v ++ rest)%string.
Proof.
  destruct (dumps_head v) as (c & r & -> & Hc). cbn. now rewrite Hc.
Qed.

Lemma join_cons_cons sep x y l :
  join sep (x :: y :: l) = (x ++ sep ++ join sep (y :: l))%string.
Proof. reflexivity. Qed.

Lemma member_scan kv tail :
  exists body,
    (member kv ++ tail)%string = String quote_char body
    /\ scan_string body
       = Some (fst kv, String ":" (String " " (dumps (snd kv) ++ tail))).
Proof.
  unfold member.
  destruct (scan_encoded (fst kv) (": " ++ dumps (snd kv) ++ tail)) as (body & E & Hb).
  exists body. split; [|exact Hb].
  rewrite <- E. now rewrite !string_app_assoc.
Qed.

(** The members of an object, from the first key to the closing brace. *)
Lemma scan_members_dumps ms :
  Forall (fun kv => forall fuel rest,
              cost (snd kv) <= fuel -> delimited rest ->
              scan_value fuel (dumps (snd kv) ++ rest) = Some (snd kv, rest)) ms ->
  ms <> [] ->
  forall fuel pairs rest,
    members_cost ms <= fuel ->
    scan_members fuel (join ", " (map member ms) ++ String "}" rest) pairs
    = Some (JObj (dict_of_pairs (pairs ++ ms)), rest).
Proof.
  induction 1 as [|kv ms Hkv Hms IH]; [congruence|]. intros _ fuel pairs rest Hfuel.
  cbn [members_cost] in Hfuel.
  assert (Ekv : (fst kv, snd kv) = kv) by now destruct kv. destruct fuel as [|fuel]; [lia|].
  assert (Hv : cost (snd kv) <= fuel) by lia.
  assert (Hm : members_cost ms <= fuel) by lia.
  destruct ms as [|kv' ms'].
  - cbn [map join String.concat].
    destruct (member_scan kv (String "}" rest)) as (body & -> & Hb).
    cbn [scan_members]. rewrite Ascii.eqb_refl, Hb.
    cbn [skip_ws is_json_space N_of_ascii Ascii.eqb Bool.eqb].
    cbn. rewrite skip_ws_dumps, Hkv by (auto; cbn; auto).
    cbn. now rewrite Ekv.
  - assert (Hskip : skip_ws (join ", " (map member (kv' :: ms')) ++ String "}" rest)
                    = (join ", " (map member (kv' :: ms')) ++ String "}" rest)%string).
    { cbn [map]. destruct ms' as [|kv'' ms''].
      - cbn [map join String.concat].
        destruct (member_scan kv' (String "}" rest)) as (b' & -> & _). reflexivity.
      - cbn [map]. rewrite join_cons_cons, !string_app_assoc.
        match goal with
        | |- context [(member kv' ++ ?t)%string] =>
            destruct (member_scan kv' t) as (b' & -> & _)
        end.
        reflexivity. }
    cbn [map]. rewrite join_cons_cons, !string_app_assoc.
    change (member kv' :: map member ms') with (map member (kv' :: ms')).
    remember (join ", " (map member (kv' :: ms')) ++ String "}" rest)%string
      as T eqn:ET.
    destruct (member_scan kv (", " ++ T)) as (body & -> & Hb).
    cbn [scan_members]. rewrite Ascii.eqb_refl, Hb.
    cbn. rewrite skip_ws_dumps, Hkv by (auto; cbn; auto).
    cbn. rewrite Hskip. subst T.
    rewrite IH by (auto; discriminate). now rewrite Ekv, <- app_assoc.
Qed.

Lemma dict_of_pairs_distinct (ms : dict value) :
  NoDup (keys ms) -> dict_of_pairs ms = ms.
Proof.
  unfold dict_of_pairs.
  assert (G : forall (d : dict value),
             NoDup (keys (d ++ ms)) ->
             fold_left (fun d kv => dict_set d (fst kv) (snd kv)) ms d = d ++ ms).
  { induction ms as [|[k v] ms IH]; intros d Hnd; cbn.
    - now rewrite app_nil_r.
    - assert (Hset : dict_set d k v = d ++ [(k, v)]).
      { unfold keys in Hnd. rewrite map_app in Hnd. cbn in Hnd.
        apply NoDup_remove_2 in Hnd.
        assert (Hk : ~ In k (map fst d)) by (rewrite in_app_iff in Hnd; tauto).
        clear - Hk. induction d as [|[k0 v0] d IHd]; cbn in *; auto.
        destruct (String.eqb_spec k0 k) as [->|Hne]; [tauto|].
        f_equal. apply IHd. tauto. }
      rewrite Hset, IH; rewrite <- app_assoc; auto. }
  intros H. now apply (G []).
Qed.

(** [scan_value] reads back a value written by [dumps]. *)
Lemma scan_value_dumps v :
  distinct_keys v ->
  forall fuel rest,
    cost v <= fuel -> delimited rest ->
    scan_value fuel (dumps v ++ rest) = Some (v, rest).
Proof.
  induction v as [z|s|ms IH] using value_ind'; intros Hd fuel rest Hfuel Hrest.
  - destruct fuel as [|fuel]; [cbn in Hfuel; lia|]. now apply scan_value_int.
  - destruct fuel as [|fuel]; [cbn in Hfuel; lia|]. apply scan_value_str.
  - rewrite cost_JObj in Hfuel. destruct fuel as [|fuel]; [lia|].
    apply distinct_keys_JObj in Hd. destruct Hd as [Hnd Hall].
    rewrite dumps_JObj. destruct ms as [|kv ms].
    + reflexivity.
    + assert (E : (("{" ++ join ", " (map member (kv :: ms)) ++ "}") ++ rest)%string
                  = String "{" (join ", " (map member (kv :: ms)) ++ String "}" rest)).
      { cbn [append]. now rewrite string_app_assoc. }
      rewrite E. clear E.
      assert (Hhead : exists b, (join ", " (map member (kv :: ms)) ++ String "}" rest)%string
                                = String quote_char b).
      { cbn [map]. destruct ms as [|kv' ms'].
        - cbn [map join String.concat].
          destruct (member_scan kv (String "}" rest)) as (b & -> & _). eauto.
        - cbn [map]. rewrite join_cons_cons, !string_app_assoc.
          match goal with
          | |- context [(member kv ++ ?t)%string] =>
              destruct (member_scan kv t) as (b & -> & _)
          end. eauto. }
      destruct Hhead as [b Hb].
      cbn [scan_value Ascii.eqb Bool.eqb]. rewrite Hb.
      cbn [skip_ws is_json_space N_of_ascii Ascii.eqb Bool.eqb].
      cbn. rewrite <- Hb.
      rewrite scan_members_dumps.
      * cbn [List.app]. now rewrite dict_of_pairs_distinct.
      * clear - IH Hall. revert IH. induction Hall as [|x l Hx _ IHl]; intros IH;
          inversion IH; subst; constructor; auto.
      * discriminate.
      * lia.
Qed.

Lemma member_length kv :
  4 + String.length (dumps (snd kv)) <= String.length (member kv).
Proof.
  unfold member, encode_string. cbn [String.length append].
  rewrite !string_length_app. cbn [String.length]. lia.
Qed.

Lemma members_cost_le_length ms :
  Forall (fun kv => cost (snd kv) <= S (String.length (dumps (snd kv)))) ms ->
  members_cost ms <= String.length (join ", " (map member ms)).
Proof.
  induction 1 as [|kv ms Hkv _ IH]; [cbn; lia|].
  cbn [members_cost map]. pose proof (member_length kv) as Hm.
  destruct ms as [|kv' ms'].
  - cbn [map join String.concat members_cost]. lia.
  - cbn [map] in *. rewrite join_cons_cons, !string_length_app.
    cbn [String.length]. lia.
Qed.

Lemma cost_le_length v : cost v <= S (String.length (dumps v)).
Proof.
  induction v as [z|s|ms IH] using value_ind'.
  - cbn. lia.
  - cbn. lia.
  - rewrite cost_JObj, dumps_JObj. cbn [String.length append].
    rewrite string_length_app. cbn [String.length].
    pose proof (members_cost_le_length IH). lia.
Qed.

(** [json.loads(json.dumps(v))] is [v]. *)
Lemma loads_dumps v : distinct_keys v -> loads (dumps v) = Some v.
Proof.
  intros Hd. unfold loads.
  pose proof (skip_ws_dumps v "") as Hs. rewrite string_app_nil_r in Hs.
  rewrite Hs. rewrite <- (string_app_nil_r (dumps v)) at 2.
  rewrite scan_value_dumps; auto.
  - pose proof (cost_le_length v). lia.
  - exact I.
Qed.

(** ** The documents of [times_to_json] *)

Lemma distinct_keys_times times :
  NoDup (keys times) -> distinct_keys (times_document times).
Proof.
  intros H. unfold times_document. apply distinct_keys_JObj. split.
  - unfold keys in *. rewrite map_map. cbn [fst]. exact H.
  - apply Forall_forall. intros kv Hin. apply in_map_iff in Hin.
    destruct Hin as (x & <- & _). cbn [snd asdict asdict_Time distinct_keys keys map fst].
    repeat split; repeat constructor; cbn; intuition discriminate.
Qed.

Lemma asdict_inj sp1 sp2 : asdict sp1 = asdict sp2 -> sp1 = sp2.
Proof.
  destruct sp1 as [[h1 m1] [h2 m2]], sp2 as [[h3 m3] [h4 m4]].
  unfold asdict, asdict_Time. cbn. intros H. inversion H. reflexivity.
Qed.

Lemma times_document_inj t1 t2 :
  times_document t1 = times_document t2 -> t1 = t2.
Proof.
  unfold times_document. intros H. inversion H as [E]. clear H.
  revert t2 E. induction t1 as [|[k1 v1] t1 IH]; intros [|[k2 v2] t2] E;
    cbn [map fst snd] in E; try discriminate; auto.
  pose proof (f_equal (fun l : dict value =>
                         match l with kv :: _ => fst kv | [] => "" end) E) as Hk.
  pose proof (f_equal (fun l : dict value =>
                         match l with kv :: _ => snd kv | [] => JInt 0 end) E) as Hv.
  pose proof (f_equal (@tl _) E) as Ht.
  cbn [fst snd tl] in Hk, Hv, Ht. apply asdict_inj in Hv. subst.
  f_equal. now apply IH.
Qed.

(** ** Array literals *)

Lemma occurs_in_order_prefix vals (x s : string) :
  occurs_in_order vals s -> occurs_in_order vals (x ++ s).
Proof.
  destruct vals as [|v vs]; cbn; auto.
  intros (pre & post & -> & H). exists (x ++ pre)%string, post.
  split; auto. now rewrite string_app_assoc.
Qed.

Lemma occurs_in_order_join sep vals (pre post : string) :
  occurs_in_order vals (pre ++ join sep vals ++ post).
Proof.
  revert pre. induction vals as [|v vs IH]; intros pre; cbn [occurs_in_order]; auto.
  destruct vs as [|v' vs'].
  - exists pre, post. split; auto. exact I.
  - rewrite join_cons_cons. exists pre, (sep ++ join sep (v' :: vs') ++ post)%string.
    split.
    + now rewrite !string_app_assoc.
    + apply IH.
Qed.

Lemma occurs_in_order_inside (l r : string) vals s :
  occurs_in_order (map (fun v => (l ++ v ++ r)%string) vals) s ->
  occurs_in_order vals s.
Proof.
  revert s. induction vals as [|v vs IH]; intros s; cbn [map occurs_in_order]; auto.
  intros (pre & post & -> & H).
  exists (pre ++ l)%string, (r ++ post)%string. split.
  - now rewrite !string_app_assoc.
  - apply occurs_in_order_prefix. now apply IH.
Qed.

(* ================================================================= *)
(** * The regular expressions on canonical markup *)

Lemma concat_cons (x : string) l :
  String.concat "" (x :: l) = (x ++ String.concat "" l)%string.
Proof. destruct l; cbn; [now rewrite string_app_nil_r|reflexivity]. Qed.

Lemma spell_cons t m : spell (t :: m) = (spell_token t ++ spell m)%string.
Proof. unfold spell. cbn [map]. apply concat_cons. Qed.

Lemma spell_app m1 m2 : spell (m1 ++ m2) = (spell m1 ++ spell m2)%string.
Proof.
  induction m1 as [|t m1 IH]; [reflexivity|].
  cbn [List.app]. now rewrite !spell_cons, IH, string_app_assoc.
Qed.

Lemma spell_tag t :
  is_text t = false -> spell_token t = String "<" (tag_body t).
Proof. destruct t; [reflexivity|reflexivity|discriminate]. Qed.

(** ** Characters *)

Lemma name_char_plain c :
  is_name_char c = true ->
  Ascii.eqb c "<" = false /\ Ascii.eqb c ">" = false /\ Ascii.eqb c " " = false
  /\ Ascii.eqb c "/" = false /\ Ascii.eqb c "=" = false /\ Ascii.eqb c "034" = false.
Proof.
  destruct c as [[] [] [] [] [] [] [] []]; vm_compute; intros H;
    try discriminate H; repeat split.
Qed.

Lemma attr_char_plain c :
  is_attr_char c = true ->
  Ascii.eqb c "<" = false /\ Ascii.eqb c "=" = false.
Proof.
  destruct c as [[] [] [] [] [] [] [] []]; vm_compute; intros H;
    try discriminate H; repeat split.
Qed.

Lemma value_char_plain c :
  is_value_char c = true ->
  Ascii.eqb c "<" = false /\ Ascii.eqb c "034" = false.
Proof.
  unfold is_value_char. intros H. apply negb_true_iff in H.
  repeat (apply orb_false_iff in H; destruct H as [H ?]). auto.
Qed.

Lemma text_char_plain c : is_text_char c = true -> Ascii.eqb c "<" = false.
Proof.
  unfold is_text_char. intros H. apply negb_true_iff in H.
  apply orb_false_iff in H. tauto.
Qed.

Lemma lower_is_name_char c : is_lower c = true -> is_name_char c = true.
Proof. unfold is_name_char. now intros ->. Qed.

Lemma lower_is_attr_char c : is_lower c = true -> is_attr_char c = true.
Proof. unfold is_attr_char. now intros ->. Qed.

Lemma all_chars_impl (p q : ascii -> bool) s :
  (forall c, p c = true -> q c = true) ->
  all_chars p s = true -> all_chars q s = true.
Proof.
  intros Hpq. induction s as [|c s IH]; cbn; auto.
  intros H. apply andb_true_iff in H. destruct H as [Hc Hs].
  now rewrite (Hpq c Hc), IH.
Qed.

Lemma all_chars_free (p : ascii -> bool) d s :
  (forall c, p c = true -> Ascii.eqb c d = false) ->
  all_chars p s = true -> has_char d s = false.
Proof.
  intros Hp. induction s as [|c s IH]; cbn; auto.
  intros H. apply andb_true_iff in H. destruct H as [Hc Hs].
  now rewrite (Hp c Hc), IH.
Qed.

Lemma tag_name_chars n : is_tag_name n = true -> all_chars is_name_char n = true.
Proof.
  destruct n as [|c r]; [discriminate|]. cbn. intros H.
  apply andb_true_iff in H. destruct H as [Hc Hr].
  now rewrite (lower_is_name_char _ Hc), Hr.
Qed.

Lemma attr_name_chars k : is_attr_name k = true -> all_chars is_attr_char k = true.
Proof.
  destruct k as [|c r]; [discriminate|]. cbn. intros H.
  apply andb_true_iff in H. destruct H as [Hc Hr].
  now rewrite (lower_is_attr_char _ Hc), Hr.
Qed.

Lemma tag_name_free n d :
  is_tag_name n = true ->
  (forall c, is_name_char c = true -> Ascii.eqb c d = false) ->
  has_char d n = false.
Proof. intros Hn Hd. eapply all_chars_free; eauto. now apply tag_name_chars. Qed.

Lemma canonical_cons t m :
  canonical (t :: m) = true -> canonical_token t = true /\ canonical m = true.
Proof. unfold canonical. cbn [forallb]. apply andb_true_iff. Qed.

Lemma canonical_attrs a :
  forallb (fun kv => is_attr_name (fst kv) && all_chars is_value_char (snd kv)) a
  = true ->
  has_char "<" (String.concat "" (map spell_attr a)) = false.
Proof.
  induction a as [|[k v] a IH]; [reflexivity|].
  cbn [forallb map fst snd]. intros H.
  apply andb_true_iff in H. destruct H as [H Ha].
  apply andb_true_iff in H. destruct H as [Hk Hv].
  rewrite concat_cons, has_char_app, (IH Ha). unfold spell_attr.
  cbn [fst snd]. rewrite !has_char_app.
  rewrite (all_chars_free is_attr_char "<" k
             (fun c H => proj1 (attr_char_plain c H)) (attr_name_chars k Hk)).
  rewrite (all_chars_free is_value_char "<" v
             (fun c H => proj1 (value_char_plain c H)) Hv).
  reflexivity.
Qed.

(** The spelling of a canonical token holds no [<] but, for a tag, the
    one it starts with. *)
Lemma canonical_text s :
  canonical_token (TText s) = true -> has_char "<" s = false.
Proof.
  cbn. intros H. apply andb_true_iff in H. destruct H as [_ H].
  eapply all_chars_free; [|exact H]. apply text_char_plain.
Qed.

Lemma canonical_tag_body t :
  canonical_token t = true -> has_char "<" (tag_body t) = false.
Proof.
  destruct t as [n a|n|s]; cbn [canonical_token tag_body]; intros H.
  - apply andb_true_iff in H. destruct H as [H Ha].
    apply andb_true_iff in H. destruct H as [Hn _].
    rewrite !has_char_app, (canonical_attrs a Ha).
    rewrite (tag_name_free n "<" Hn (fun c H => proj1 (name_char_plain c H))).
    reflexivity.
  - cbn [String.append has_char]. rewrite has_char_app.
    rewrite (tag_name_free n "<" H (fun c H => proj1 (name_char_plain c H))).
    reflexivity.
  - reflexivity.
Qed.

(** ** [re.sub] *)

Section ReSub.

Variable match_at : string -> option string.
Variable repl : string.

(** The pattern starts with [<]. *)
Hypothesis needs_lt :
  forall c s, Ascii.eqb c "<" = false -> match_at (String c s) = None.

Lemma re_sub_skip x k y :
  re_sub_from match_at repl (String.length x + k) (x ++ y)
  = re_sub_from match_at repl k y.
Proof. induction x as [|c x IH]; [reflexivity|]. cbn. exact IH. Qed.

Lemma re_sub_text x y :
  has_char "<" x = false ->
  re_sub_from match_at repl 0 (x ++ y) = (x ++ re_sub_from match_at repl 0 y)%string.
Proof.
  induction x as [|c x IH]; [reflexivity|].
  cbn [has_char]. intros H. apply orb_false_iff in H. destruct H as [Hc Hx].
  cbn [String.append re_sub_from]. rewrite (needs_lt c _ Hc), (IH Hx). reflexivity.
Qed.

Lemma re_sub_no_match x y :
  has_char "<" x = false ->
  match_at (String "<" (x ++ y)) = None ->
  re_sub_from match_at repl 0 (String "<" (x ++ y))
  = String "<" (x ++ re_sub_from match_at repl 0 y).
Proof.
  intros Hx Hno. cbn [re_sub_from]. rewrite Hno. now rewrite re_sub_text.
Qed.

Lemma re_sub_match c x y :
  match_at (String c (x ++ y)) = Some y ->
  re_sub_from match_at repl 0 (String c (x ++ y))
  = (repl ++ re_sub_from match_at repl 0 y)%string.
Proof.
  intros Hm. cbn [re_sub_from]. rewrite Hm. f_equal.
  rewrite string_length_app.
  replace (String.length x + String.length y - String.length y)
    with (String.length x + 0) by lia.
  apply re_sub_skip.
Qed.

End ReSub.

(** ** Where the patterns match *)

Lemma ascii_eqb_sym a b : Ascii.eqb a b = Ascii.eqb b a.
Proof.
  destruct (Ascii.eqb_spec a b) as [->|H].
  - now rewrite Ascii.eqb_refl.
  - symmetry. apply Ascii.eqb_neq. congruence.
Qed.

(** A name followed by [>] or by a blank starts with [p] and [>] only if
    it is [p] and [>] follows. *)
Lemma name_at p n d r :
  has_char ">" p = false -> has_char " " p = false ->
  has_char ">" n = false -> has_char " " n = false ->
  Ascii.eqb d ">" = true \/ Ascii.eqb d " " = true ->
  after_prefix (p ++ ">") (n ++ String d r)
  = if String.eqb n p && Ascii.eqb d ">" then Some r else None.
Proof.
  revert n. induction p as [|x p IH]; intros [|a n] Hp1 Hp2 Hn1 Hn2 Hd;
    cbn [String.append after_prefix String.eqb has_char] in *.
  - rewrite (ascii_eqb_sym ">" d). now destruct (Ascii.eqb d ">").
  - apply orb_false_iff in Hn1. destruct Hn1 as [Ha _].
    rewrite (ascii_eqb_sym ">" a), Ha. reflexivity.
  - apply orb_false_iff in Hp1, Hp2. destruct Hp1 as [Hx1 _], Hp2 as [Hx2 _].
    destruct (Ascii.eqb_spec x d) as [->|_]; [|reflexivity].
    destruct Hd as [Hd|Hd]; congruence.
  - apply orb_false_iff in Hp1, Hp2, Hn1, Hn2.
    destruct Hp1 as [_ Hp1], Hp2 as [_ Hp2], Hn1 as [_ Hn1], Hn2 as [_ Hn2].
    rewrite (ascii_eqb_sym x a).
    destruct (Ascii.eqb a x); [now apply IH|reflexivity].
Qed.

Lemma tag_name_plain n :
  is_tag_name n = true -> has_char ">" n = false /\ has_char " " n = false.
Proof.
  intros H. split; apply (tag_name_free n _ H); intros c Hc;
    apply name_char_plain in Hc; tauto.
Qed.

Lemma tag_name_head n :
  is_tag_name n = true -> exists c r, n = String c r /\ Ascii.eqb c "/" = false.
Proof.
  destruct n as [|c r]; [discriminate|]. cbn. intros H.
  apply andb_true_iff in H. destruct H as [Hc _].
  exists c, r. split; [reflexivity|].
  apply lower_is_name_char, name_char_plain in Hc. tauto.
Qed.

Lemma spell_start n a rest :
  (spell_token (TStart n a) ++ rest)%string
  = String "<" (n ++ match a with
                     | [] => String ">" rest
                     | kv :: a' =>
                         String " " (fst kv ++ "=" ++ double_quote ++ snd kv
                                     ++ double_quote
                                     ++ String.concat "" (map spell_attr a')
                                     ++ ">" ++ rest)
                     end).
Proof.
  cbn [spell_token String.append]. f_equal. rewrite string_app_assoc. f_equal.
  destruct a as [|kv a']; [reflexivity|].
  cbn [map]. rewrite concat_cons. unfold spell_attr.
  rewrite !string_app_assoc. reflexivity.
Qed.

Lemma spell_end n rest :
  (spell_token (TEnd n) ++ rest)%string = String "<" (String "/" (n ++ String ">" rest)).
Proof.
  cbn [spell_token String.append]. do 2 f_equal. now rewrite string_app_assoc.
Qed.

(** The start tag [<p>] is found where the token is this tag. *)
Lemma open_at p t rest :
  is_tag_name p = true -> canonical_token t = true -> is_text t = false ->
  after_prefix ("<" ++ p ++ ">") (spell_token t ++ rest)
  = if is_open p t then Some rest else None.
Proof.
  intros Hp Ht Htext. destruct (tag_name_plain p Hp) as [Hp1 Hp2].
  destruct t as [n a|n|s]; [| |discriminate].
  - cbn [canonical_token] in Ht.
    apply andb_true_iff in Ht. destruct Ht as [Ht _].
    apply andb_true_iff in Ht. destruct Ht as [Hn _].
    destruct (tag_name_plain n Hn) as [Hn1 Hn2].
    rewrite spell_start. cbn [String.append after_prefix]. rewrite Ascii.eqb_refl.
    destruct a as [|kv a']; rewrite name_at by (auto; cbn; auto); cbn [is_open].
    + now rewrite andb_true_r.
    + now rewrite andb_false_r.
  - rewrite spell_end. cbn [String.append after_prefix is_open].
    rewrite Ascii.eqb_refl.
    destruct (tag_name_head p Hp) as (c & r & -> & Hc).
    cbn [String.append after_prefix]. now rewrite Hc.
Qed.

(** The end tag [</p>] is found where the token is this tag. *)
Lemma close_at p t rest :
  is_tag_name p = true -> canonical_token t = true -> is_text t = false ->
  after_prefix ("</" ++ p ++ ">") (spell_token t ++ rest)
  = match t with
    | TEnd n => if String.eqb n p then Some rest else None
    | _ => None
    end.
Proof.
  intros Hp Ht Htext. destruct (tag_name_plain p Hp) as [Hp1 Hp2].
  destruct t as [n a|n|s]; [| |discriminate].
  - cbn [canonical_token] in Ht.
    apply andb_true_iff in Ht. destruct Ht as [Ht _].
    apply andb_true_iff in Ht. destruct Ht as [Hn _].
    rewrite spell_start. cbn [String.append after_prefix]. rewrite Ascii.eqb_refl.
    destruct (tag_name_head n Hn) as (c & r & -> & Hc).
    cbn [String.append after_prefix]. rewrite (ascii_eqb_sym "/" c), Hc.
    reflexivity.
  - cbn [canonical_token] in Ht. destruct (tag_name_plain n Ht) as [Hn1 Hn2].
    rewrite spell_end. cbn [String.append after_prefix].
    rewrite !Ascii.eqb_refl.
    rewrite name_at by (auto; cbn; auto). now rewrite andb_true_r.
Qed.

(** ** The first substitution *)

Lemma match_tbody_needs_lt c s :
  Ascii.eqb c "<" = false -> after_prefix "<tbody>" (String c s) = None.
Proof. intros H. cbn [after_prefix]. now rewrite (ascii_eqb_sym "<" c), H. Qed.

Lemma canonical_sub_tbody m :
  canonical m = true -> canonical (sub_tbody_tokens m) = true.
Proof.
  unfold canonical, sub_tbody_tokens.
  induction m as [|t m IH]; [reflexivity|]. cbn [forallb flat_map].
  intros H. apply andb_true_iff in H. destruct H as [Ht Hm].
  rewrite forallb_app, (IH Hm), andb_true_r.
  destruct (is_tbody_open t) eqn:E; cbn [forallb]; [reflexivity|].
  now rewrite Ht.
Qed.

Lemma is_open_tbody t : is_open "tbody" t = is_tbody_open t.
Proof. reflexivity. Qed.

Lemma is_open_td t : is_open "td" t = is_td_open t.
Proof. reflexivity. Qed.

(** On canonical markup the first regular expression does to the text
    what [sub_tbody_tokens] does to the tokens. *)
Lemma sub_tbody_spell m :
  canonical m = true -> sub_tbody (spell m) = spell (sub_tbody_tokens m).
Proof.
  unfold sub_tbody, re_sub. induction m as [|t m IH]; [reflexivity|].
  intros H. apply canonical_cons in H. destruct H as [Ht Hm].
  rewrite spell_cons. unfold sub_tbody_tokens. cbn [flat_map].
  fold (sub_tbody_tokens m). rewrite spell_app, <- (IH Hm).
  destruct (is_text t) eqn:Htext.
  - destruct t as [| |s]; try discriminate. cbn [is_tbody_open spell_token].
    rewrite re_sub_text; [|apply match_tbody_needs_lt|now apply canonical_text].
    reflexivity.
  - pose proof (@open_at "tbody" t (spell m) eq_refl Ht Htext) as Hat.
    rewrite is_open_tbody in Hat.
    rewrite (spell_tag t Htext) in *. cbn [String.append] in *.
    destruct (is_tbody_open t) eqn:E.
    + rewrite re_sub_match by exact Hat. reflexivity.
    + rewrite re_sub_no_match;
        [|apply match_tbody_needs_lt|now apply canonical_tag_body|exact Hat].
      rewrite spell_cons. cbn [spell String.concat map].
      rewrite (spell_tag t Htext). cbn [String.append].
      now rewrite string_app_nil_r.
Qed.

(** ** The second substitution *)

Lemma match_tr_td_needs_lt c s :
  Ascii.eqb c "<" = false -> match_tr_td (String c s) = None.
Proof.
  intros H. unfold match_tr_td. cbn [after_prefix].
  now rewrite (ascii_eqb_sym "<" c), H.
Qed.

Lemma space_not_lt c : is_space c = true -> Ascii.eqb c "<" = false.
Proof.
  destruct c as [[] [] [] [] [] [] [] []]; vm_compute; intros H;
    try discriminate H; reflexivity.
Qed.

Lemma skip_spaces_app x y :
  all_chars is_space x = true -> skip_spaces (x ++ y) = skip_spaces y.
Proof.
  induction x as [|c x IH]; [reflexivity|]. cbn [all_chars]. intros H.
  apply andb_true_iff in H. destruct H as [Hc Hx].
  cbn [String.append skip_spaces]. now rewrite Hc, IH.
Qed.

(** Behind the blanks of a text that is not blank comes a character of
    this text. *)
Lemma skip_spaces_text s y :
  all_chars is_space s = false -> has_char "<" s = false ->
  exists c r, skip_spaces (s ++ y) = String c r /\ Ascii.eqb c "<" = false.
Proof.
  induction s as [|c s IH]; [discriminate|].
  cbn [all_chars has_char String.append skip_spaces]. intros Hs Hlt.
  apply orb_false_iff in Hlt. destruct Hlt as [Hc Hlt].
  destruct (is_space c) eqn:E; [apply IH; auto|].
  exists c, (s ++ y)%string. auto.
Qed.

Lemma blank_spell held :
  forallb is_blank_text held = true ->
  all_chars is_space (spell held) = true /\ has_char "<" (spell held) = false.
Proof.
  induction held as [|t held IH]; [auto|]. cbn [forallb]. intros H.
  apply andb_true_iff in H. destruct H as [Ht Hh].
  destruct t as [| |s]; try discriminate. cbn [is_blank_text] in Ht.
  destruct (IH Hh) as [IH1 IH2]. rewrite spell_cons. cbn [spell_token].
  assert (Hall : forall a b, all_chars is_space a = true ->
                             all_chars is_space b = true ->
                             all_chars is_space (a ++ b) = true).
  { induction a as [|c a IHa]; cbn; auto. intros b Ha Hb.
    apply andb_true_iff in Ha. destruct Ha as [-> Ha]. now apply IHa. }
  split; [now apply Hall|].
  rewrite has_char_app, IH2, orb_false_r.
  eapply all_chars_free; [|exact Ht]. apply space_not_lt.
Qed.

Lemma canonical_sub_tr_td m :
  forall held,
    canonical m = true -> canonical (match held with Some h => h | None => [] end) = true ->
    canonical (sub_tr_td_tokens_from held m) = true.
Proof.
  unfold canonical. induction m as [|t m IH]; intros held Hm Hh.
  - destruct held; cbn [sub_tr_td_tokens_from forallb]; auto.
  - cbn [forallb] in Hm. apply andb_true_iff in Hm. destruct Hm as [Ht Hm].
    cbn [sub_tr_td_tokens_from]. destruct held as [h|].
    + destruct (is_blank_text t).
      * apply IH; [exact Hm|]. cbn in *. now rewrite forallb_app, Hh; cbn; rewrite Ht.
      * destruct (is_td_open t); [cbn [forallb]; apply (IH None); auto|].
        destruct (is_tr_close t); cbn [forallb].
        -- rewrite forallb_app. cbn in Hh. rewrite Hh. apply (IH (Some [])); auto.
        -- rewrite forallb_app. cbn in Hh. rewrite Hh. cbn [forallb]. rewrite Ht.
           apply (IH None); auto.
    + destruct (is_tr_close t); [apply (IH (Some [])); auto|].
      cbn [forallb]. rewrite Ht. apply (IH None); auto.
Qed.

Lemma sub_tr_td_tokens_held held t m :
  is_blank_text t = false -> is_td_open t = false ->
  sub_tr_td_tokens_from (Some held) (t :: m)
  = TEnd "tr" :: held ++ sub_tr_td_tokens_from None (t :: m).
Proof.
  intros Hb Ht. cbn [sub_tr_td_tokens_from]. rewrite Hb, Ht.
  now destruct (is_tr_close t).
Qed.

Lemma match_tr_td_behind_tr x :
  match_tr_td ("</tr>" ++ x) = after_prefix "<td>" (skip_spaces x).
Proof. reflexivity. Qed.

Lemma match_tr_td_tag t rest :
  canonical_token t = true -> is_text t = false -> is_tr_close t = false ->
  match_tr_td (spell_token t ++ rest) = None.
Proof.
  intros Ht Htext Hc. unfold match_tr_td.
  pose proof (@close_at "tr" t rest eq_refl Ht Htext) as H.
  change ("</" ++ "tr" ++ ">")%string with "</tr>" in H. rewrite H.
  destruct t as [| n|]; auto. cbn [is_tr_close] in Hc. now rewrite Hc.
Qed.

Lemma tr_close_spell t :
  is_tr_close t = true -> spell_token t = "</tr>".
Proof.
  destruct t as [|n|]; try discriminate. cbn [is_tr_close]. intros H.
  apply String.eqb_eq in H. now subst.
Qed.

Lemma td_open_spell t :
  is_td_open t = true -> spell_token t = "<td>".
Proof.
  destruct t as [n [|]| |]; try discriminate. cbn [is_td_open]. intros H.
  apply String.eqb_eq in H. now subst.
Qed.

(** On canonical markup the second regular expression does to the text
    what [sub_tr_td_tokens] does to the tokens: outside a candidate match,
    and behind a [</tr>] and blank text. *)
Lemma sub_tr_td_spell_both m :
  canonical m = true ->
  re_sub_from match_tr_td "</tr><tr><td>" 0 (spell m)
  = spell (sub_tr_td_tokens_from None m)
  /\ forall held,
       forallb is_blank_text held = true ->
       re_sub_from match_tr_td "</tr><tr><td>" 0 ("</tr>" ++ spell held ++ spell m)
       = spell (sub_tr_td_tokens_from (Some held) m).
Proof.
  induction m as [|t m IH]; intros Hm.
  - split; [reflexivity|]. intros held Hh.
    destruct (blank_spell held Hh) as [Hsp Hlt].
    cbn [sub_tr_td_tokens_from]. rewrite spell_cons.
    change (spell []) with "". rewrite string_app_nil_r.
    change ("</tr>" ++ spell held)%string with (String "<" ("/tr>" ++ spell held)).
    rewrite <- (string_app_nil_r ("/tr>" ++ spell held)) at 1.
    rewrite re_sub_no_match.
    + cbn [re_sub_from]. now rewrite string_app_nil_r.
    + apply match_tr_td_needs_lt.
    + rewrite has_char_app, Hlt. reflexivity.
    + rewrite string_app_nil_r.
      change (String "<" ("/tr>" ++ spell held)) with ("</tr>" ++ spell held)%string.
      rewrite match_tr_td_behind_tr.
      rewrite <- (string_app_nil_r (spell held)), skip_spaces_app by exact Hsp.
      reflexivity.
  - apply canonical_cons in Hm. destruct Hm as [Ht Hm].
    destruct (IH Hm) as [IHA IHB].
    assert (HA : re_sub_from match_tr_td "</tr><tr><td>" 0 (spell (t :: m))
                 = spell (sub_tr_td_tokens_from None (t :: m))).
    { rewrite spell_cons. cbn [sub_tr_td_tokens_from].
      destruct (is_tr_close t) eqn:Hc.
      - rewrite (tr_close_spell t Hc).
        rewrite <- (IHB [] eq_refl). reflexivity.
      - rewrite spell_cons, <- IHA.
        destruct (is_text t) eqn:Htext.
        + destruct t as [| |s]; try discriminate. cbn [spell_token].
          apply re_sub_text; [apply match_tr_td_needs_lt|now apply canonical_text].
        + pose proof (match_tr_td_tag t (spell m) Ht Htext Hc) as Hno.
          rewrite (spell_tag t Htext) in *. cbn [String.append] in *.
          apply re_sub_no_match;
            [apply match_tr_td_needs_lt|now apply canonical_tag_body|exact Hno]. }
    split; [exact HA|]. intros held Hh.
    destruct (blank_spell held Hh) as [Hsp Hlt].
    destruct (is_blank_text t) eqn:Hb.
    + cbn [sub_tr_td_tokens_from]. rewrite Hb.
      rewrite <- (IHB (held ++ [t])) by (rewrite forallb_app, Hh; cbn; now rewrite Hb).
      rewrite spell_app, spell_cons, !string_app_assoc.
      change (spell [t]) with (String.concat "" [spell_token t]).
      cbn [String.concat]. reflexivity.
    + assert (Hskip : match_tr_td ("</tr>" ++ spell held ++ spell (t :: m))
                      = if is_td_open t then Some (spell m) else None).
      { rewrite match_tr_td_behind_tr, skip_spaces_app by exact Hsp.
        rewrite spell_cons. destruct (is_text t) eqn:Htext.
        - destruct t as [| |s]; try discriminate. cbn [spell_token is_td_open].
          cbn [is_blank_text] in Hb.
          destruct (skip_spaces_text s (spell m) Hb (canonical_text s Ht))
            as (c & r & -> & Hc).
          cbn [after_prefix]. now rewrite (ascii_eqb_sym "<" c), Hc.
        - rewrite (spell_tag t Htext). cbn [String.append skip_spaces].
          change (is_space "<") with false. cbv iota.
          pose proof (@open_at "td" t (spell m) eq_refl Ht Htext) as Hat.
          rewrite (spell_tag t Htext) in Hat. cbn [String.append] in Hat.
          rewrite is_open_td in Hat. exact Hat. }
      destruct (is_td_open t) eqn:Htd.
      * cbn [sub_tr_td_tokens_from]. rewrite Hb, Htd.
        rewrite spell_cons in Hskip.
        rewrite !spell_cons, <- IHA. rewrite (td_open_spell t Htd) in *.
        change ("</tr>" ++ spell held ++ "<td>" ++ spell m)%string
          with (String "<" ("/tr>" ++ spell held ++ "<td>" ++ spell m)) in *.
        replace ("/tr>" ++ spell held ++ "<td>" ++ spell m)%string
          with (("/tr>" ++ spell held ++ "<td>") ++ spell m)%string in *
          by (now rewrite !string_app_assoc).
        rewrite re_sub_match by exact Hskip. reflexivity.
      * rewrite sub_tr_td_tokens_held by assumption.
        rewrite (spell_cons (TEnd "tr")), spell_app, <- HA.
        change ("</tr>" ++ spell held ++ spell (t :: m))%string
          with (String "<" ("/tr>" ++ spell held ++ spell (t :: m))) in *.
        replace ("/tr>" ++ spell held ++ spell (t :: m))%string
          with (("/tr>" ++ spell held) ++ spell (t :: m))%string in *
          by (now rewrite !string_app_assoc).
        rewrite re_sub_no_match;
          [|apply match_tr_td_needs_lt|rewrite has_char_app, Hlt; reflexivity
           |exact Hskip].
        rewrite string_app_assoc. reflexivity.
Qed.

Lemma sub_tr_td_spell m :
  canonical m = true -> sub_tr_td (spell m) = spell (sub_tr_td_tokens m).
Proof. intros H. apply (proj1 (sub_tr_td_spell_both m H)). Qed.

(** The markup repair on the spelling of canonical markup. *)
Lemma repair_spell m :
  canonical m = true ->
  sub_tr_td (sub_tbody (spell m)) = spell (sub_tr_td_tokens (sub_tbody_tokens m))
  /\ canonical (sub_tr_td_tokens (sub_tbody_tokens m)) = true.
Proof.
  intros H. rewrite sub_tbody_spell by exact H.
  pose proof (canonical_sub_tbody m H) as H1. split.
  - now apply sub_tr_td_spell.
  - now apply (canonical_sub_tr_td (sub_tbody_tokens m) None).
Qed.

(* ================================================================= *)
(** * The reader of canonical spelling *)

Lemma snoc_app acc c s : (snoc acc c ++ s)%string = (acc ++ String c s)%string.
Proof. unfold snoc. now rewrite string_app_assoc. Qed.

Lemma read_text s :
  forall acc rest,
    has_char "<" s = false ->
    read_from (InText acc) (s ++ rest) = read_from (InText (acc ++ s)) rest.
Proof.
  induction s as [|c s IH]; intros acc rest H.
  - now rewrite string_app_nil_r.
  - cbn [has_char] in H. apply orb_false_iff in H. destruct H as [Hc Hs].
    cbn [String.append read_from read_char]. rewrite Hc. cbn [List.app].
    rewrite IH by exact Hs. now rewrite snoc_app.
Qed.

Lemma read_name n :
  forall acc rest,
    all_chars is_name_char n = true ->
    read_from (InName acc) (n ++ rest) = read_from (InName (acc ++ n)) rest.
Proof.
  induction n as [|c n IH]; intros acc rest H.
  - now rewrite string_app_nil_r.
  - cbn [all_chars] in H. apply andb_true_iff in H. destruct H as [Hc Hn].
    apply name_char_plain in Hc. destruct Hc as (_ & Hgt & Hsp & Hsl & _).
    cbn [String.append read_from read_char]. rewrite Hsl, Hgt, Hsp.
    cbn [andb List.app]. rewrite IH by exact Hn. now rewrite snoc_app.
Qed.

Lemma read_end_name n :
  forall acc rest,
    all_chars is_name_char n = true ->
    read_from (InEndName acc) (n ++ rest) = read_from (InEndName (acc ++ n)) rest.
Proof.
  induction n as [|c n IH]; intros acc rest H.
  - now rewrite string_app_nil_r.
  - cbn [all_chars] in H. apply andb_true_iff in H. destruct H as [Hc Hn].
    apply name_char_plain in Hc. destruct Hc as (_ & Hgt & _).
    cbn [String.append read_from read_char]. rewrite Hgt.
    cbn [List.app]. rewrite IH by exact Hn. now rewrite snoc_app.
Qed.

Lemma read_attr_name k :
  forall name a acc rest,
    all_chars is_attr_char k = true ->
    read_from (InAttrName name a acc) (k ++ rest)
    = read_from (InAttrName name a (acc ++ k)) rest.
Proof.
  induction k as [|c k IH]; intros name a acc rest H.
  - now rewrite string_app_nil_r.
  - cbn [all_chars] in H. apply andb_true_iff in H. destruct H as [Hc Hk].
    apply attr_char_plain in Hc. destruct Hc as [_ Heq].
    cbn [String.append read_from read_char]. rewrite Heq.
    cbn [List.app]. rewrite IH by exact Hk. now rewrite snoc_app.
Qed.

Lemma read_value v :
  forall name a k acc rest,
    all_chars is_value_char v = true ->
    read_from (InValue name a k acc) (v ++ rest)
    = read_from (InValue name a k (acc ++ v)) rest.
Proof.
  induction v as [|c v IH]; intros name a k acc rest H.
  - now rewrite string_app_nil_r.
  - cbn [all_chars] in H. apply andb_true_iff in H. destruct H as [Hc Hv].
    apply value_char_plain in Hc. destruct Hc as [_ Hq].
    cbn [String.append read_from read_char]. rewrite Hq.
    cbn [List.app]. rewrite IH by exact Hv. now rewrite snoc_app.
Qed.

(** One attribute, read from behind the blank in front of it. *)
Lemma read_attr name a k v rest :
  is_attr_name k = true -> all_chars is_value_char v = true ->
  read_from (InAttrName name a "")
            (k ++ String "=" (String "034" (v ++ String "034" rest)))
  = read_from (AfterValue name (a ++ [(k, v)])) rest.
Proof.
  intros Hk Hv. rewrite read_attr_name by now apply attr_name_chars.
  cbn [String.append read_from read_char].
  rewrite Ascii.eqb_refl. cbn [List.app read_from read_char].
  rewrite Ascii.eqb_refl. cbn [List.app].
  rewrite read_value by exact Hv.
  cbn [String.append read_from read_char]. rewrite Ascii.eqb_refl.
  reflexivity.
Qed.

Lemma read_attrs a :
  forall name a0 rest,
    forallb (fun kv => is_attr_name (fst kv) && all_chars is_value_char (snd kv)) a
    = true ->
    read_from (AfterValue name a0)
              (String.concat "" (map spell_attr a) ++ String ">" rest)
    = TStart name (a0 ++ a) :: read_from (InText "") rest.
Proof.
  induction a as [|[k v] a IH]; intros name a0 rest H.
  - cbn. now rewrite app_nil_r.
  - cbn [forallb fst snd] in H. apply andb_true_iff in H. destruct H as [H Ha].
    apply andb_true_iff in H. destruct H as [Hk Hv].
    cbn [map]. rewrite concat_cons. unfold spell_attr at 1. cbn [fst snd].
    rewrite !string_app_assoc.
    cbn [String.append read_from read_char double_quote].
    change (Ascii.eqb " " ">") with false. rewrite Ascii.eqb_refl.
    cbn [List.app].
    rewrite read_attr by assumption. rewrite IH by exact Ha.
    now rewrite <- app_assoc.
Qed.

Lemma text_token_app acc t rest :
  text_token acc ++ t :: rest
  = (if is_empty acc then [] else [TText acc]) ++ t :: rest.
Proof. reflexivity. Qed.

(** The reader gives the tokens back, every run of text as one. *)
Lemma read_spell m :
  forall acc,
    canonical m = true ->
    read_from (InText acc) (spell m) = gather acc m.
Proof.
  induction m as [|t m IH]; intros acc Hm; [reflexivity|].
  apply canonical_cons in Hm. destruct Hm as [Ht Hm].
  rewrite spell_cons. destruct t as [n a|n|s]; cbn [gather].
  - cbn [canonical_token] in Ht.
    apply andb_true_iff in Ht. destruct Ht as [Ht Ha].
    apply andb_true_iff in Ht. destruct Ht as [Hn _].
    rewrite spell_start. cbn [read_from read_char]. rewrite Ascii.eqb_refl.
    f_equal. rewrite read_name by now apply tag_name_chars.
    cbn [String.append].
    destruct (tag_name_head n Hn) as (c & r & En & _).
    destruct a as [|[k v] a'].
    + cbn [read_from read_char]. rewrite En. cbn [is_empty andb].
      rewrite andb_false_r, Ascii.eqb_refl. cbn [List.app]. rewrite <- En.
      f_equal. now apply IH.
    + cbn [forallb fst snd] in Ha. apply andb_true_iff in Ha.
      destruct Ha as [Hkv Ha]. apply andb_true_iff in Hkv.
      destruct Hkv as [Hk Hv].
      cbn [read_from read_char fst snd]. rewrite En. cbn [is_empty andb].
      rewrite andb_false_r.
      change (Ascii.eqb " " ">") with false. rewrite Ascii.eqb_refl.
      cbn [List.app String.append double_quote]. rewrite <- En.
      rewrite read_attr by assumption.
      change (">" ++ spell m)%string with (String ">" (spell m)).
      rewrite read_attrs by exact Ha. cbn [List.app]. f_equal. now apply IH.
  - cbn [canonical_token] in Ht.
    rewrite spell_end. cbn [read_from read_char]. rewrite Ascii.eqb_refl.
    f_equal. cbn [read_from read_char is_empty]. rewrite Ascii.eqb_refl.
    cbn [andb List.app].
    rewrite read_end_name by now apply tag_name_chars.
    cbn [String.append read_from read_char]. rewrite Ascii.eqb_refl.
    cbn [List.app]. f_equal. now apply IH.
  - cbn [spell_token]. rewrite read_text by now apply canonical_text.
    now apply IH.
Qed.

(** ** The builder does not tell how a run of text was cut *)

Lemma concat_snoc d (s : string) :
  String.concat "" (d ++ [s]) = (String.concat "" d ++ s)%string.
Proof.
  induction d as [|x d IH]; [reflexivity|].
  cbn [List.app]. rewrite !concat_cons, IH. now rewrite string_app_assoc.
Qed.

Lemma endData_settle b : endData (settle b) = endData b.
Proof.
  destruct b as [st doc d]. unfold endData, settle.
  cbn [stack doc_rev current_data].
  destruct d as [|x d]; reflexivity.
Qed.

Lemma feed_token_settle t b :
  settle (feed_token (settle b) t) = settle (feed_token b t).
Proof.
  destruct t as [n a|n|s]; cbn [feed_token].
  - unfold handle_starttag. now rewrite endData_settle.
  - unfold handle_endtag. now rewrite endData_settle.
  - destruct b as [st doc d]. unfold handle_data, settle.
    cbn [stack doc_rev current_data]. f_equal.
    destruct d as [|x d]; [reflexivity|].
    change ([String.concat "" [String.concat "" (x :: d); s]]
            = [String.concat "" ((x :: d) ++ [s])]).
    rewrite concat_snoc. reflexivity.
Qed.

Lemma feed_settle m b : settle (feed (settle b) m) = settle (feed b m).
Proof.
  revert b. induction m as [|t m IH]; intros b.
  - cbn [feed fold_left]. destruct b as [st doc [|x d]]; reflexivity.
  - rewrite !feed_cons. rewrite <- (IH (feed_token (settle b) t)).
    rewrite feed_token_settle. apply IH.
Qed.

Lemma finish_settle b : finish (settle b) = finish b.
Proof. unfold finish. now rewrite endData_settle. Qed.

Lemma finish_of_settle b b' : settle b = settle b' -> finish b = finish b'.
Proof. intros H. now rewrite <- (finish_settle b), H, finish_settle. Qed.

Lemma is_empty_app_r (a s : string) : is_empty s = false -> is_empty (a ++ s) = false.
Proof. destruct a; cbn; auto. Qed.

Lemma feed_gather m :
  forall acc b,
    canonical m = true ->
    settle (feed b (gather acc m))
    = settle (feed (if is_empty acc then b else handle_data acc b) m).
Proof.
  induction m as [|t m IH]; intros acc b Hm.
  - cbn [gather]. unfold text_token. now destruct (is_empty acc).
  - apply canonical_cons in Hm. destruct Hm as [Ht Hm].
    destruct t as [n a|n|s]; cbn [gather].
    + unfold text_token. rewrite feed_app, feed_cons, (IH "" _ Hm).
      cbn [is_empty]. rewrite feed_cons. now destruct (is_empty acc).
    + unfold text_token. rewrite feed_app, feed_cons, (IH "" _ Hm).
      cbn [is_empty]. rewrite feed_cons. now destruct (is_empty acc).
    + cbn [canonical_token] in Ht. apply andb_true_iff in Ht.
      destruct Ht as [Hs _]. apply negb_true_iff in Hs.
      rewrite (IH (acc ++ s)%string b Hm), (is_empty_app_r acc s Hs).
      rewrite feed_cons. cbn [feed_token].
      rewrite <- feed_settle. symmetry. rewrite <- feed_settle. symmetry.
      f_equal. f_equal.
      destruct acc as [|c acc]; [reflexivity|]. cbn [is_empty].
      destruct b as [st doc d]. unfold handle_data, settle.
      cbn [stack doc_rev current_data]. f_equal.
      assert (E : String.concat "" (d ++ [(String c acc ++ s)%string])
                  = String.concat "" ((d ++ [String c acc]) ++ [s])).
      { rewrite !concat_snoc. now rewrite string_app_assoc. }
      destruct d as [|x d]; cbn [List.app] in *; now rewrite E.
Qed.

Lemma BeautifulSoup_gather m :
  canonical m = true -> BeautifulSoup (gather "" m) = BeautifulSoup m.
Proof.
  intros Hm. unfold BeautifulSoup. apply finish_of_settle.
  now rewrite feed_gather.
Qed.

(** A world whose parser is the reader reads canonical markup. *)
Lemma canonical_reader_reads w :
  html_parser w = canonical_reader -> reads_canonical w.
Proof.
  intros E m Hm. rewrite E. unfold canonical_reader.
  rewrite read_spell by exact Hm. now apply BeautifulSoup_gather.
Qed.

(* ================================================================= *)
(** * Well-formed pages, and the markup repair on them *)

Section RepairWellformed.

Variable sp : items.
Hypothesis sp_blanks : blanks sp.

Lemma wellformed_items_rows t :
  wellformed_items sp t = results_region (seq sp (wellformed_rows sp t)).
Proof. reflexivity. Qed.

Lemma render_wellformed_rows_cons row rows :
  render (wellformed_rows sp (row :: rows))
  = TStart "tr" [] :: render sp ++ render (cells_items sp row)
      ++ TEnd "tr" :: render sp ++ render (wellformed_rows sp rows).
Proof.
  unfold wellformed_rows. cbn [map]. rewrite seq_all_cons.
  cbn [seq render]. rewrite !render_seq, <- ?app_assoc. reflexivity.
Qed.

Lemma quiet_wellformed_rows t :
  Forall (fun row => Forall cell_content row) t ->
  Forall (fun tk => is_tbody_open tk = false) (render (wellformed_rows sp t)).
Proof.
  induction 1 as [|row rows Hrow _ IH]; [constructor|].
  rewrite render_wellformed_rows_cons. constructor; [reflexivity|].
  apply Forall_app. split; [now apply quiet_not_tbody, quiet_blanks|].
  apply Forall_app. split; [now apply quiet_not_tbody, quiet_cells|].
  constructor; [reflexivity|].
  apply Forall_app. split; [now apply quiet_not_tbody, quiet_blanks|exact IH].
Qed.

(** The second substitution finds nothing to replace between the rows. *)
Lemma sub_tr_td_wellformed_rows t tail :
  Forall (fun row => Forall cell_content row) t ->
  sub_tr_td_tokens_from None (render (wellformed_rows sp t) ++ TEnd "tbody" :: tail)
  = render (wellformed_rows sp t) ++ TEnd "tbody" :: sub_tr_td_tokens_from None tail.
Proof.
  induction 1 as [|row rows Hrow Hrows IH]; [reflexivity|].
  rewrite render_wellformed_rows_cons.
  cbn [List.app]. rewrite sub_tr_td_pass_cons by reflexivity. f_equal.
  rewrite <- ?app_assoc.
  rewrite sub_tr_td_pass by now apply quiet_blanks. f_equal.
  rewrite sub_tr_td_pass by now apply quiet_cells. f_equal.
  cbn [List.app]. rewrite <- ?app_assoc. rewrite sub_tr_td_after_tr.
  rewrite sub_tr_td_hold by now apply blank_text_blanks.
  cbn [List.app].
  destruct rows as [|r rs].
  - unfold wellformed_rows. cbn [map seq_all fold_right render List.app].
    now rewrite sub_tr_td_held_tbody.
  - rewrite <- IH. rewrite render_wellformed_rows_cons. reflexivity.
Qed.

(** What the two substitutions make of well-formed markup: one more
    [<tr>] after [<tbody>], which nothing closes. *)
Lemma repair_wellformed_markup t :
  table_ok t ->
  sub_tr_td_tokens (sub_tbody_tokens (wellformed_markup sp t))
  = [TStart "div" [("id", "results")]; TStart "table" []; TStart "tbody" [];
     TStart "tr" []]
    ++ render (seq sp (wellformed_rows sp t))
    ++ [TEnd "tbody"; TEnd "table"; TEnd "div"].
Proof.
  intros Hok. apply table_ok_cells in Hok.
  unfold wellformed_markup. rewrite wellformed_items_rows, render_region.
  set (body := render (seq sp (wellformed_rows sp t))).
  assert (Hb : sub_tbody_tokens body = body).
  { apply sub_tbody_quiet. unfold body. rewrite render_seq.
    apply Forall_app. split.
    - now apply quiet_not_tbody, quiet_blanks.
    - now apply quiet_wellformed_rows. }
  match goal with
  | |- sub_tr_td_tokens (sub_tbody_tokens (?A :: ?B :: ?C :: body ++ ?tl)) = _ =>
      change (A :: B :: C :: body ++ tl) with ([A; B; C] ++ body ++ tl)
  end.
  rewrite !sub_tbody_app, Hb.
  change (sub_tbody_tokens [TStart "div" [("id", "results")]; TStart "table" [];
                     TStart "tbody" []])
    with [TStart "div" [("id", "results")]; TStart "table" [];
          TStart "tbody" []; TStart "tr" []].
  change (sub_tbody_tokens [TEnd "tbody"; TEnd "table"; TEnd "div"])
    with [TEnd "tbody"; TEnd "table"; TEnd "div"].
  unfold sub_tr_td_tokens. cbn [List.app].
  do 4 (rewrite sub_tr_td_pass_cons by reflexivity).
  do 4 f_equal.
  unfold body. rewrite render_seq, <- ?app_assoc.
  rewrite sub_tr_td_pass by now apply quiet_blanks. f_equal.
  cbn [List.app].
  now rewrite sub_tr_td_wellformed_rows.
Qed.

(** The tree of the markup with the row that nothing closes: the end of
    the table body closes it, with the whole body inside. *)
Lemma BeautifulSoup_unclosed_row body :
  nested ["tr"; "tbody"; "table"; "div"] body ->
  BeautifulSoup
    ([TStart "div" [("id", "results")]; TStart "table" []; TStart "tbody" [];
      TStart "tr" []]
     ++ render body ++ [TEnd "tbody"; TEnd "table"; TEnd "div"])
  = results_tree [Tag "tr" [] (build false [] body)].
Proof.
  intros Hn. unfold BeautifulSoup. rewrite !feed_app.
  change (feed (mkBuilder [] [] [])
               [TStart "div" [("id", "results")]; TStart "table" [];
                TStart "tbody" []; TStart "tr" []])
    with (grown [mkFrame "tr" [] []; mkFrame "tbody" [] [];
                 mkFrame "table" [] []; mkFrame "div" [("id", "results")] []]
                [] [] []).
  rewrite feed_cons. cbn [feed_token]. unfold handle_endtag.
  rewrite feed_render by (reflexivity || exact Hn).
  change (preserves_whitespace _) with false.
  cbn [List.app]. set (kids := build false [] body).
  cbn [grown stack doc_rev f_name f_attrs f_rev]. rewrite app_nil_r.
  replace (results_tree [Tag "tr" [] kids])
    with (results_tree [Tag "tr" [] (List.rev (List.rev kids))])
    by now rewrite rev_involutive.
  generalize (List.rev kids). intros rk. reflexivity.
Qed.

Lemma cells_count row pw :
  length row <= length (find_all_in (build pw [] (cells_items sp row)) "td").
Proof.
  induction row as [|c cs IH]; [cbn; lia|].
  unfold cells_items in *. cbn [map]. rewrite seq_all_cons.
  cbn [seq build flush List.app]. rewrite find_all_in_Tag.
  cbn [String.eqb Ascii.eqb Bool.eqb].
  rewrite find_all_in_build_seq, (find_all_in_blanks pw sp "td") by assumption.
  cbn [List.app length]. rewrite length_app. lia.
Qed.

(** The cells of the row that nothing closes begin with the cells of the
    first row of the table. *)
Lemma cells_of_unclosed_row row rows :
  exists more,
    find_all (Tag "tr" [] (build false []
                             (seq sp (wellformed_rows sp (row :: rows))))) "td"
    = find_all (Tag "tr" [] (build false [] (seq sp (cells_items sp row)))) "td"
      ++ more.
Proof.
  rewrite !find_all_Tag.
  rewrite (find_all_in_build_seq false sp (wellformed_rows sp (row :: rows))).
  rewrite (find_all_in_blanks false sp "td") by assumption.
  unfold wellformed_rows. cbn [map]. rewrite seq_all_cons.
  cbn [seq build flush List.app]. rewrite find_all_in_Tag.
  cbn [String.eqb Ascii.eqb Bool.eqb keeps_whitespace orb List.app].
  eexists. reflexivity.
Qed.

Lemma first_row_cells row :
  length row
  <= length (find_all (Tag "tr" [] (build false [] (seq sp (cells_items sp row)))) "td").
Proof.
  rewrite find_all_Tag, find_all_in_build_seq.
  rewrite (find_all_in_blanks false sp "td") by assumption.
  apply cells_count.
Qed.

Lemma nested_wellformed_rows open t :
  Forall (fun row => Forall cell_content row) t ->
  nested open (wellformed_rows sp t).
Proof.
  induction 1 as [|row rows Hrow _ IH]; [exact I|].
  unfold wellformed_rows in *. cbn [map]. rewrite seq_all_cons. cbn [seq nested].
  split; [reflexivity|]. split; [reflexivity|]. split.
  - apply nested_seq; [now apply nested_blanks|now apply nested_cells].
  - apply nested_seq; [now apply nested_blanks|exact IH].
Qed.

(** The tree the task works on when the page is well-formed already. *)
Lemma repaired_soup_wellformed w row rows :
  reads_canonical w ->
  table_ok (row :: rows) ->
  canonical (wellformed_markup sp (row :: rows)) = true ->
  repaired_soup w (spell (wellformed_markup sp (row :: rows)))
  = Return (results_tree
              [Tag "tr" [] (build false []
                              (seq sp (wellformed_rows sp (row :: rows))))]).
Proof.
  intros Hreads Hok Hcan. unfold repaired_soup.
  destruct (repair_spell _ Hcan) as [Hrep Hcan'].
  rewrite Hrep, (Hreads _ Hcan), (Hreads _ Hcan').
  rewrite repair_wellformed_markup by exact Hok.
  rewrite BeautifulSoup_unclosed_row
    by (apply nested_seq;
        [now apply nested_blanks
        |now apply nested_wellformed_rows, table_ok_cells]).
  unfold wellformed_markup.
  rewrite BeautifulSoup_render by now apply nested_wellformed.
  rewrite wellformed_items_rows, results_tbody_region. cbn [bind].
  destruct (cells_of_unclosed_row row rows) as [more Hmore].
  rewrite (find_all_Tag "tbody" []), <- (find_all_Tag "tr" []), Hmore, length_app.
  pose proof (first_row_cells row) as Hlen.
  inversion Hok as [|? ? [Hne _] _]; subst.
  destruct row as [|c cs]; [congruence|]. cbn [length] in Hlen.
  match goal with
  | |- (if ?b then _ else _) = _ => replace b with true; [reflexivity|]
  end.
  symmetry. apply Nat.ltb_lt. lia.
Qed.

(** ** Canonical pages *)

Lemma canonical_app m1 m2 : canonical (m1 ++ m2) = canonical m1 && canonical m2.
Proof. apply forallb_app. Qed.

Lemma canonical_region body :
  canonical (render (results_region body)) = canonical (render body).
Proof.
  rewrite render_region. unfold canonical. cbn [forallb].
  rewrite forallb_app. cbn [forallb]. now rewrite !andb_true_r.
Qed.

Lemma canonical_site_rows_cons row rows :
  canonical (render (site_rows sp (row :: rows)))
  = canonical (render (cells_items sp row)) && canonical (render sp)
    && canonical (render (site_rows sp rows)).
Proof.
  rewrite render_site_rows_cons, canonical_app.
  change (TEnd "tr" :: render sp ++ render (site_rows sp rows))
    with ([TEnd "tr"] ++ render sp ++ render (site_rows sp rows)).
  rewrite !canonical_app. cbn. now rewrite andb_assoc.
Qed.

(** What a canonical page of the course list is made of. *)
Lemma canonical_site_parts t :
  canonical (site_markup sp t) = true ->
  canonical (render sp) = true
  /\ Forall (fun row => canonical (render (cells_items sp row)) = true) t.
Proof.
  unfold site_markup, site_items. rewrite canonical_region, render_seq, canonical_app.
  intros H. apply andb_true_iff in H. destruct H as [Hsp H]. split; [exact Hsp|].
  fold (site_rows sp t) in H.
  induction t as [|row rows IH]; [constructor|].
  rewrite canonical_site_rows_cons in H.
  apply andb_true_iff in H. destruct H as [H Hrows].
  apply andb_true_iff in H. destruct H as [Hrow _].
  constructor; auto.
Qed.

Lemma canonical_wellformed_rows t :
  canonical (render sp) = true ->
  Forall (fun row => canonical (render (cells_items sp row)) = true) t ->
  canonical (render (wellformed_rows sp t)) = true.
Proof.
  intros Hsp. induction 1 as [|row rows Hrow _ IH]; [reflexivity|].
  rewrite render_wellformed_rows_cons.
  change (TStart "tr" [] :: render sp ++ render (cells_items sp row)
            ++ TEnd "tr" :: render sp ++ render (wellformed_rows sp rows))
    with ([TStart "tr" []] ++ render sp ++ render (cells_items sp row)
            ++ [TEnd "tr"] ++ render sp ++ render (wellformed_rows sp rows)).
  rewrite !canonical_app, Hsp, Hrow, IH. reflexivity.
Qed.

Lemma canonical_wellformed t :
  canonical (site_markup sp t) = true ->
  canonical (wellformed_markup sp t) = true.
Proof.
  intros H. destruct (canonical_site_parts t H) as [Hsp Hrows].
  unfold wellformed_markup. rewrite wellformed_items_rows, canonical_region.
  rewrite render_seq, canonical_app, Hsp.
  now apply canonical_wellformed_rows.
Qed.

Lemma canonical_site_empty k :
  canonical (render sp) = true ->
  canonical (site_markup sp (repeat [] k)) = true.
Proof.
  intros Hsp.
  assert (H : canonical (render (site_rows sp (repeat [] k))) = true).
  { induction k as [|k IH]; [reflexivity|].
    cbn [repeat]. rewrite canonical_site_rows_cons, Hsp, IH. reflexivity. }
  unfold site_markup, site_items.
  rewrite canonical_region, render_seq, canonical_app, Hsp. exact H.
Qed.

End RepairWellformed.

(* ================================================================= *)
(** * The Time-Span Parser *)

(** C4: [parse_time] skips every token that does not match the pattern
    (such a token can be deleted from the schedule string without changing
    the result), never fails, and the mapping it returns holds exactly what
    the matching tokens wrote: a day letter is mapped to a span if and only
    if some matching token names the day and carries that start and end, no
    later token naming the day again.  This holds of the tokens of any
    string, and so of a schedule written as tokens with single spaces
    between them.  [parse_time "TBA"] is the empty mapping,
    [parse_time "MWF:0900-0950"] maps M, W and F to 9:00-9:50, and
    [parse_time "M:0900-0950 TBA F:1000-1050"] maps M to 9:00-9:50 and F to
    10:00-10:50. *)
Theorem parse_time_skips_and_maps :
  (forall a t b : string,
      has_char " " t = false -> re_match_time t = None ->
      parse_time (a ++ " " ++ t ++ " " ++ b) = parse_time (a ++ " " ++ b))
  /\ (forall s, exists times,
        parse_time s = Return times /\
        forall d sp,
          dict_get times d = Some sp <->
          exists pre t m post,
            time_tokens s = pre ++ t :: post /\ re_match_time t = Some m /\
            In d (days_of_match m) /\ sp = span_of_match m /\
            (forall t', In t' post -> ~ names_day t' d))
  /\ (forall ts,
        Forall (fun t => t <> "" /\ has_char " " t = false) ts ->
        exists times,
          parse_time (join " " ts) = Return times /\
          forall d sp,
            dict_get times d = Some sp <->
            exists pre t m post,
              ts = pre ++ t :: post /\ re_match_time t = Some m /\
              In d (days_of_match m) /\ sp = span_of_match m /\
              (forall t', In t' post -> ~ names_day t' d))
  /\ parse_time "TBA" = Return []
  /\ parse_time "MWF:0900-0950"
     = Return (let sp := mkTimeSpan (mkTime 9 0) (mkTime 9 50) in
               [("M", sp); ("W", sp); ("F", sp)])
  /\ parse_time "M:0900-0950 TBA F:1000-1050"
     = Return [("M", mkTimeSpan (mkTime 9 0) (mkTime 9 50));
               ("F", mkTimeSpan (mkTime 10 0) (mkTime 10 50))].
Proof.
  assert (Hmap : forall s, exists times,
             parse_time s = Return times /\
             forall d sp,
               dict_get times d = Some sp <->
               exists pre t m post,
                 time_tokens s = pre ++ t :: post /\ re_match_time t = Some m /\
                 In d (days_of_match m) /\ sp = span_of_match m /\
                 (forall t', In t' post -> ~ names_day t' d)).
  { intros s. exists (fold_left apply_token (time_tokens s) []).
    split; [apply parse_time_loop_pure|]. intros d sp. split.
    - apply dict_get_fold_origin.
    - intros (pre & t & m & post & -> & E & Hd & -> & Hp).
      now apply dict_get_fold_last. }
  split; [|split; [exact Hmap|split; [|repeat split; reflexivity]]].
  - intros a t b Hsp Hno. unfold parse_time. simpl.
    rewrite !time_tokens_app, !parse_time_loop_pure, !fold_left_app.
    f_equal. f_equal. destruct t as [|c t]; [reflexivity|].
    rewrite time_tokens_token by (auto; discriminate).
    cbn [fold_left]. unfold apply_token at 1. now rewrite Hno.
  - intros ts Hts. destruct (Hmap (join " " ts)) as (times & E & H).
    exists times. split; [exact E|].
    now rewrite (time_tokens_join Hts) in H.
Qed.

Lemma parse_time_skips_and_maps_witness :
  parse_time "M:0900-0950 TBA F:1000-1050" = parse_time "M:0900-0950 F:1000-1050"
  /\ (exists times,
        parse_time "MWF:0900-0950" = Return times /\
        dict_get times "W" = Some (mkTimeSpan (mkTime 9 0) (mkTime 9 50)))
  /\ (exists times,
        parse_time (join " " ["M:0900-0950"; "TBA"; "F:1000-1050"]) = Return times /\
        dict_get times "F" = Some (mkTimeSpan (mkTime 10 0) (mkTime 10 50))).
Proof.
  destruct parse_time_skips_and_maps as (Hskip & Hmap & Htok & _).
  split; [|split].
  - apply (Hskip "M:0900-0950" "TBA" "F:1000-1050"); reflexivity.
  - destruct (Hmap "MWF:0900-0950") as (times & E & H).
    exists times. split; [exact E|].
    apply H.
    exists [], "MWF:0900-0950",
      (mkMatch "MWF" "09" "00" "09" "50"), [].
    repeat split; try reflexivity.
    + simpl. tauto.
    + intros t' [].
  - destruct (Htok ["M:0900-0950"; "TBA"; "F:1000-1050"]) as (times & E & H).
    + repeat (apply Forall_cons || apply Forall_nil);
        (split; [discriminate|reflexivity]).
    + exists times. split; [exact E|].
      apply H.
      exists ["M:0900-0950"; "TBA"], "F:1000-1050",
        (mkMatch "F" "10" "00" "10" "50"), [].
      repeat split; try reflexivity.
      * simpl. tauto.
      * intros t' [].
Defined.

(** C5: when several matching tokens name the same day, [parse_time] maps
    the day to the span of the last of them, in a single entry; in
    particular "M:0900-0950 M:1000-1050" maps M to 10:00-10:50. *)
Theorem parse_time_last_write_wins :
  (forall s pre t1 mid t2 post m1 m2 d,
      time_tokens s = pre ++ t1 :: mid ++ t2 :: post ->
      re_match_time t1 = Some m1 -> In d (days_of_match m1) ->
      re_match_time t2 = Some m2 -> In d (days_of_match m2) ->
      (forall t, In t post -> ~ names_day t d) ->
      exists times,
        parse_time s = Return times /\
        dict_get times d = Some (span_of_match m2) /\
        NoDup (keys times))
  /\ parse_time "M:0900-0950 M:1000-1050"
     = Return [("M", mkTimeSpan (mkTime 10 0) (mkTime 10 50))].
Proof.
  split; [|reflexivity].
  intros s pre t1 mid t2 post m1 m2 d Hs E1 H1 E2 H2 Hpost.
  exists (fold_left apply_token (time_tokens s) []). split; [|split].
  - apply parse_time_loop_pure.
  - rewrite Hs.
    replace (pre ++ t1 :: mid ++ t2 :: post)
      with ((pre ++ t1 :: mid) ++ t2 :: post)
      by (rewrite <- app_assoc; reflexivity).
    now apply dict_get_fold_last.
  - apply NoDup_keys_fold_apply. constructor.
Qed.

Lemma parse_time_last_write_wins_witness :
  exists times,
    parse_time "M:0900-0950 MW:1000-1050 F:1100-1150" = Return times /\
    dict_get times "M" = Some (mkTimeSpan (mkTime 10 0) (mkTime 10 50)) /\
    NoDup (keys times).
Proof.
  apply (proj1 parse_time_last_write_wins
           "M:0900-0950 MW:1000-1050 F:1100-1150"
           [] "M:0900-0950" [] "MW:1000-1050" ["F:1100-1150"]
           (mkMatch "M" "09" "00" "09" "50")
           (mkMatch "MW" "10" "00" "10" "50") "M");
    try reflexivity.
  - simpl. tauto.
  - simpl. tauto.
  - intros t [<-|[]] (m & E & Hin). vm_compute in E. inversion E; subst.
    simpl in Hin. destruct Hin as [Hin|[]]. discriminate Hin.
Defined.

(** C7, as stated, fails: the pattern takes any two digits, so
    "M:9999-9999" yields hour 99 and minute 99. *)
Lemma parse_time_breaks_time_invariant :
  ~ (forall s times d sp,
        parse_time s = Return times -> In (d, sp) times ->
        Time_invariant (start sp) /\ Time_invariant (end_ sp)).
Proof.
  intros H.
  destruct (H "M:9999-9999"
              [("M", mkTimeSpan (mkTime 99 99) (mkTime 99 99))]
              "M" (mkTimeSpan (mkTime 99 99) (mkTime 99 99))
              eq_refl (or_introl eq_refl)) as [[[_ Hh] _] _].
  simpl in Hh. lia.
Qed.

(** C7, amended: every [Time] in the mapping returned by [parse_time] has
    its hour and its minute between 0 and 99. *)
Theorem parse_time_two_digit_fields :
  forall s, exists times,
    parse_time s = Return times /\
    forall d sp, In (d, sp) times ->
      Time_two_digits (start sp) /\ Time_two_digits (end_ sp).
Proof.
  intros s. exists (fold_left apply_token (time_tokens s) []).
  split; [apply parse_time_loop_pure|]. intros d sp Hin.
  apply In_dict_get in Hin; [|apply NoDup_keys_fold_apply; constructor].
  apply dict_get_fold_origin in Hin.
  destruct Hin as (pre & t & m & post & _ & E & _ & -> & _).
  eapply span_of_match_two_digits; eauto.
Qed.

Lemma parse_time_two_digit_fields_witness :
  exists times,
    parse_time "TR:1230-1350" = Return times /\
    (Time_two_digits (start (mkTimeSpan (mkTime 12 30) (mkTime 13 50))) /\
     Time_two_digits (end_ (mkTimeSpan (mkTime 12 30) (mkTime 13 50)))).
Proof.
  destruct (parse_time_two_digit_fields "TR:1230-1350") as (times & E & H).
  exists times. split; [exact E|].
  apply (H "R"). vm_compute in E. inversion E; subst. simpl. tauto.
Defined.

(** C10: the pattern is matched at the start of a token only.  A token
    that begins with day letters, a colon and two four-digit times is
    accepted whatever follows, with the groups of that prefix: for such a
    token [parse_time] maps every day letter of the prefix to the span of
    its four groups, and no other key, which is what it returns for the
    prefix alone.  So [parse_time "MWF:0900-0950x"] maps M, W and F to
    9:00-9:50. *)
Theorem parse_time_prefix_match :
  (forall days a b c d e f g h (x : string),
      days <> "" -> all_chars is_upper days = true ->
      is_digit a = true -> is_digit b = true -> is_digit c = true ->
      is_digit d = true -> is_digit e = true -> is_digit f = true ->
      is_digit g = true -> is_digit h = true ->
      re_match_time (schedule_token days a b c d e f g h ++ x)
      = Some (mkMatch days (two a b) (two c d) (two e f) (two g h))
      /\ (has_char " " x = false ->
          parse_time (schedule_token days a b c d e f g h ++ x)
          = parse_time (schedule_token days a b c d e f g h)
          /\ exists times,
               parse_time (schedule_token days a b c d e f g h ++ x) = Return times
               /\ (forall day,
                      In day (chars days) ->
                      dict_get times day
                      = Some (mkTimeSpan
                                (mkTime (two_digit_value (two a b))
                                        (two_digit_value (two c d)))
                                (mkTime (two_digit_value (two e f))
                                        (two_digit_value (two g h)))))
               /\ (forall day, ~ In day (chars days) -> dict_get times day = None)))
  /\ parse_time "MWF:0900-0950x" = parse_time "MWF:0900-0950"
  /\ parse_time "MWF:0900-0950x"
     = Return (let sp := mkTimeSpan (mkTime 9 0) (mkTime 9 50) in
               [("M", sp); ("W", sp); ("F", sp)]).
Proof.
  split; [|split; reflexivity].
  intros days a b c d e f g h x Hne Hup Ha Hb Hc Hd He Hf Hg Hh.
  pose proof (@re_match_time_exact days a b c d e f g h
                Hne Hup Ha Hb Hc Hd He Hf Hg Hh) as E.
  pose proof (re_match_time_prefix _ x E) as Ex.
  split; [exact Ex|].
  intros Hx.
  assert (Hsp : has_char " " (schedule_token days a b c d e f g h) = false).
  { unfold schedule_token. rewrite has_char_app. apply orb_false_iff. split.
    - now apply upper_has_no_space.
    - simpl. now rewrite !digit_is_not_space. }
  assert (Hspx : has_char " " (schedule_token days a b c d e f g h ++ x) = false)
    by (rewrite has_char_app, Hsp, Hx; reflexivity).
  assert (Hnex : (schedule_token days a b c d e f g h ++ x)%string <> "")
    by (eapply re_match_time_nonempty; eauto).
  split.
  - rewrite !parse_time_single; auto.
    + unfold apply_token. now rewrite Ex, E.
    + eapply re_match_time_nonempty; eauto.
  - exists (apply_token [] (schedule_token days a b c d e f g h ++ x)).
    split; [now apply parse_time_single|]. split.
    + intros day Hin. rewrite (dict_get_single_token _ day Ex).
      unfold days_of_match, span_of_match. cbn.
      apply existsb_eqb_In in Hin. now rewrite Hin.
    + intros day Hin. rewrite (dict_get_single_token _ day Ex).
      unfold days_of_match. cbn [g_days].
      destruct (existsb (String.eqb day) (chars days)) eqn:Ein; [|reflexivity].
      apply existsb_eqb_In in Ein. contradiction.
Qed.

Lemma parse_time_prefix_match_witness :
  re_match_time "TR:1230-1350pm"
  = Some (mkMatch "TR" "12" "30" "13" "50")
  /\ parse_time "TR:1230-1350pm" = parse_time "TR:1230-1350"
  /\ exists times,
       parse_time "TR:1230-1350pm" = Return times
       /\ dict_get times "R" = Some (mkTimeSpan (mkTime 12 30) (mkTime 13 50)).
Proof.
  destruct (proj1 parse_time_prefix_match
              "TR" "1"%char "2"%char "3"%char "0"%char
              "1"%char "3"%char "5"%char "0"%char "pm") as [Hm Hp];
    try reflexivity; try discriminate.
  split; [exact Hm|].
  destruct (Hp eq_refl) as (Heq & times & E & Hin & _).
  split; [exact Heq|]. exists times. split; [exact E|].
  apply (Hin "R"). simpl. tauto.
Defined.

(* ================================================================= *)
(** * The Table Extractor and the Catalog Index Fetcher *)

(** C6: when a row of the table has a projected-enrollment cell (column 7)
    or a current-enrollment cell (column 8) that [int] rejects, [parse_table]
    raises and returns no record at all, whatever the other rows are; the
    error is the [ValueError] of [int] when the rows before parse and the row
    has its CRN link.  A table that is extracted stores, for each row, the
    integers read from the two cells in [proj_enr] and [curr_enr]; a
    complete row with two integers is extracted with them, and a table of
    such rows is extracted, one record a row.  The page of [one_course],
    whose cells 7 and 8 read "10" and "8", gives the one record with 10 and
    8; the same page with "ten" in cell 7 gives a [ValueError]. *)
Theorem parse_table_enrollment :
  (forall normalize term term_code subject subject_code,
    let parse_table' := parse_table normalize term term_code subject subject_code in
    let parse_row' := parse_row normalize term term_code subject subject_code in
    (forall soup trs row,
        table_rows soup = Return trs -> In row trs -> bad_enrollment row ->
        exists e, parse_table' soup = Raise e)
    /\ (forall soup before row after,
           table_rows soup = Return (before ++ row :: after) ->
           (forall r, In r before -> exists c, parse_row' r = Return c) ->
           has_crn_link row -> bad_enrollment row ->
           parse_table' soup = Raise ValueError)
    /\ (forall soup trs courses,
           table_rows soup = Return trs -> parse_table' soup = Return courses ->
           Forall2 (fun row c =>
                      exists s7 s8,
                        cell_text row 7 = Some s7 /\ int s7 = Return (proj_enr c) /\
                        cell_text row 8 = Some s8 /\ int s8 = Return (curr_enr c))
                   trs courses)
    /\ (forall row p q s7 s8,
           has_crn_link row -> (11 <= length (find_all row "td"))%nat ->
           cell_text row 7 = Some s7 -> int s7 = Return p ->
           cell_text row 8 = Some s8 -> int s8 = Return q ->
           exists c, parse_row' row = Return c /\ proj_enr c = p /\ curr_enr c = q)
    /\ (forall soup trs,
           table_rows soup = Return trs ->
           Forall (fun row =>
                     has_crn_link row /\ (11 <= length (find_all row "td"))%nat /\
                     (exists s7 p, cell_text row 7 = Some s7 /\ int s7 = Return p) /\
                     (exists s8 q, cell_text row 8 = Some s8 /\ int s8 = Return q))
                  trs ->
           exists courses,
             parse_table' soup = Return courses /\
             Forall2 (fun row c =>
                        exists s7 s8,
                          cell_text row 7 = Some s7 /\ int s7 = Return (proj_enr c) /\
                          cell_text row 8 = Some s8 /\ int s8 = Return (curr_enr c))
                     trs courses))
  /\ parse_table (fun s => s) "Fall 2023" "20233" "Computer Science" "CSCI"
                 (BeautifulSoup (wellformed_markup line_break one_course))
     = Return [one_course_record fall_2023 computer_science]
  /\ parse_table (fun s => s) "Fall 2023" "20233" "Computer Science" "CSCI"
                 (BeautifulSoup bad_enrollment_page)
     = Raise ValueError.
Proof.
  split; [|split; reflexivity].
  intros normalize term term_code subject subject_code parse_table' parse_row'.
  subst parse_table' parse_row'.
  split; [|split; [|split; [|split]]].
  - intros soup trs row Hrows Hin Hbad.
    rewrite (parse_table_rows _ _ _ _ _ _ Hrows).
    apply parse_rows_raise_in. exists row. split; auto.
    now apply parse_row_bad_raises.
  - intros soup before row after Hrows Hbefore Hlink Hbad.
    rewrite (parse_table_rows _ _ _ _ _ _ Hrows).
    apply parse_rows_first_raise; auto.
    now apply parse_row_bad_ValueError.
  - intros soup trs courses Hrows Hret.
    rewrite (parse_table_rows _ _ _ _ _ _ Hrows) in Hret.
    apply parse_rows_Return in Hret. destruct Hret as (cs & -> & HF).
    cbn. clear Hrows. induction HF; constructor; auto.
    eapply parse_row_Return_enrollment; eauto.
  - intros. eapply parse_row_stores_enrollment; eauto.
  - intros soup trs Hrows Hall.
    rewrite (parse_table_rows _ _ _ _ _ _ Hrows).
    apply (@parse_rows_all_Return normalize term term_code subject subject_code
             (fun row c =>
                exists s7 s8,
                  cell_text row 7 = Some s7 /\ int s7 = Return (proj_enr c) /\
                  cell_text row 8 = Some s8 /\ int s8 = Return (curr_enr c))
             trs []).
    eapply Forall_impl; [|exact Hall].
    intros row (Hlink & Hlen & (s7 & p & H7 & Hp) & (s8 & q & H8 & Hq)).
    destruct (parse_row_stores_enrollment normalize term term_code subject
                subject_code Hlink Hlen H7 Hp H8 Hq) as (c & Hc & <- & <-).
    exists c. split; [exact Hc|]. now exists s7, s8.
Qed.

Lemma parse_table_enrollment_witness :
  (exists e, parse_table (fun s => s) "Fall 2023" "20233" "Computer Science" "CSCI"
                         (BeautifulSoup bad_enrollment_page) = Raise e)
  /\ parse_table (fun s => s) "Fall 2023" "20233" "Computer Science" "CSCI"
                 (BeautifulSoup bad_enrollment_page) = Raise ValueError
  /\ (exists c,
        parse_table (fun s => s) "Fall 2023" "20233" "Computer Science" "CSCI"
                    (BeautifulSoup (wellformed_markup line_break one_course))
        = Return [c]
        /\ proj_enr c = 10%Z /\ curr_enr c = 8%Z).
Proof.
  destruct (proj1 parse_table_enrollment (fun s => s) "Fall 2023" "20233"
              "Computer Science" "CSCI") as (Habort & Hvalue & _ & _ & Hall).
  split; [|split].
  - destruct (table_rows (BeautifulSoup bad_enrollment_page)) as [trs| |] eqn:E;
      vm_compute in E; try discriminate E.
    injection E as <-.
    eapply Habort.
    + vm_compute. reflexivity.
    + left. reflexivity.
    + left. exists "ten". split; reflexivity.
  - destruct (table_rows (BeautifulSoup bad_enrollment_page)) as [trs| |] eqn:E;
      vm_compute in E; try discriminate E.
    injection E as <-.
    eapply (Hvalue _ []).
    + vm_compute. reflexivity.
    + intros r [].
    + do 2 eexists. split; reflexivity.
    + left. exists "ten". split; reflexivity.
  - destruct (table_rows (BeautifulSoup (wellformed_markup line_break one_course)))
      as [trs| |] eqn:E; vm_compute in E; try discriminate E.
    injection E as <-.
    edestruct (Hall (BeautifulSoup (wellformed_markup line_break one_course)))
      as (courses & E & HF).
    + vm_compute. reflexivity.
    + constructor; [|constructor].
      split; [do 2 eexists; split; reflexivity|].
      split; [cbn; lia|].
      split; [exists "10", 10%Z|exists "8", 8%Z]; split; reflexivity.
    + inversion HF as [|row c trs cs (s7 & s8 & H7 & Hp & H8 & Hq) Hrest]; subst.
      inversion Hrest; subst. exists c. split; [exact E|].
      cbn in H7, H8. injection H7 as <-. injection H8 as <-.
      split.
      * enough (X : Return (proj_enr c) = Return 10%Z) by now injection X.
        rewrite <- Hp. reflexivity.
      * enough (X : Return (curr_enr c) = Return 8%Z) by now injection X.
        rewrite <- Hq. reflexivity.
Defined.

(** C8, as stated, fails: a blank between two entries of the list is a
    whitespace-only child, and [parse_select] does not skip it but fails on
    it with a [TypeError]. *)
Lemma parse_select_blank_child_raises :
  exists el,
    find_id (BeautifulSoup select_with_blank) "term_code" = Some el
    /\ In (Text " ") (contents el)
    /\ parse_select (BeautifulSoup select_with_blank) "term_code" = Raise TypeError.
Proof.
  eexists. split; [vm_compute; reflexivity|]. split.
  - cbn. right. left. reflexivity.
  - reflexivity.
Qed.

(** C8, amended: when the children of the selection list are elements with
    a [value] and strings equal to a single line break, [parse_select]
    returns, in order, the name and code of every element whose [value] is
    not "0", skipping those whose [value] is "0" and the line breaks; with
    any other string among the children (a blank, for instance) it raises a
    [TypeError]. *)
Theorem parse_select_entries :
  forall soup id_ el,
    find_id soup id_ = Some el ->
    (Forall select_child (contents el) ->
     parse_select soup id_ = Return (select_entries (contents el)))
    /\ (forall before s after,
           contents el = before ++ Text s :: after ->
           Forall select_child before -> s <> newline ->
           parse_select soup id_ = Raise TypeError).
Proof.
  intros soup id_ el Hel. unfold parse_select. rewrite Hel. split.
  - intros H. now rewrite parse_select_loop_entries.
  - intros before s after -> Hb Hs. now apply parse_select_loop_stray_text.
Qed.

Lemma parse_select_entries_witness :
  parse_select (BeautifulSoup (landing_page two_terms)) "term_code"
  = Return [fall_2023; spring_2024].
Proof.
  pose proof (@parse_select_entries
                (BeautifulSoup (landing_page two_terms)) "term_code") as H.
  destruct (find_id (BeautifulSoup (landing_page two_terms)) "term_code")
    as [el|] eqn:E; [|vm_compute in E; discriminate E].
  destruct (H el eq_refl) as [Hok _]. clear H.
  vm_compute in E. injection E as <-.
  rewrite Hok; [reflexivity|].
  cbn. repeat (apply Forall_cons || apply Forall_nil);
    first [left; reflexivity | right; right; do 4 eexists; split; reflexivity].
Defined.

(* ================================================================= *)
(** * The Crawl Orchestrator *)

(** C1, at the input on which the code departs from it: the landing page
    lists two terms and one subject, and [fetch] submits a task for the
    first term only ([terms[:1]], [subjects[:10]]); the pair of the second
    term is in the cross product and is never executed. *)
Theorem fetch_drops_pairs :
  let w := example_world (landing_page two_terms) 5 in
  fetch_index w = Return ([fall_2023; spring_2024], [computer_science])
  /\ map fut_args (submit_all w [fall_2023; spring_2024] [computer_science])
     = [(fall_2023, computer_science)]
  /\ In (spring_2024, computer_science)
        (cross_product [fall_2023; spring_2024] [computer_science])
  /\ ~ In (spring_2024, computer_science)
          (map fut_args (submit_all w [fall_2023; spring_2024] [computer_science])).
Proof.
  cbv zeta. split; [vm_compute; reflexivity|]. split; [reflexivity|]. split.
  - cbn. tauto.
  - cbn. intros [H|[]]. discriminate H.
Qed.

(** C2, as stated, fails: with a task that needs 61 time units the call
    fails, but with the plain [Exception] of the script, which is not a
    [TimeoutError]. *)
Lemma fetch_deadline_is_not_TimeoutError :
  let w := example_world (landing_page one_term) 61 in
  (exists fu, In fu (submit_all w [fall_2023] [computer_science])
              /\ done_by 60 fu = false)
  /\ fetch w = Raise (Exception "some jobs did not complete successfully")
  /\ exn_class (Exception "some jobs did not complete successfully")
     <> "TimeoutError".
Proof.
  cbv zeta. split; [|split].
  - eexists. split; [left; reflexivity|]. reflexivity.
  - vm_compute. reflexivity.
  - discriminate.
Qed.

(** C2, amended: when a submitted task is not done at the deadline of 60
    time units, [fetch] returns no course at all, not even those of the
    tasks that are done: once the tasks still running have come to an end
    it raises [Exception('some jobs did not complete successfully')], and
    it does not come back if one of them never ends. *)
Theorem fetch_deadline_fails :
  forall w terms subjects,
    fetch_index w = Return (terms, subjects) ->
    (exists fu, In fu (submit_all w terms subjects) /\ done_by 60 fu = false) ->
    fetch w = (if forallb completes (submit_all w terms subjects)
               then Raise (Exception "some jobs did not complete successfully")
               else Hang)
    /\ forall courses, fetch w <> Return courses.
Proof.
  intros w terms subjects Hidx (fu & Hin & Hnot).
  assert (E : fetch w = if forallb completes (submit_all w terms subjects)
                        then Raise (Exception "some jobs did not complete successfully")
                        else Hang).
  { unfold fetch. rewrite Hidx. cbn [bind fst snd].
    unfold fetch_tasks, leave_with, wait.
    destruct (forallb completes (submit_all w terms subjects)); auto.
    assert (Hp : (0 < length (set_order w
                     (filter (fun fu => negb (done_by 60 fu))
                             (submit_all w terms subjects))))%nat).
    { rewrite (Permutation_length (set_order_perm w _)).
      eapply filter_nonempty; eauto. now rewrite Hnot. }
    apply Nat.ltb_lt in Hp. now rewrite Hp. }
  split; [exact E|]. intros courses. rewrite E.
  destruct (forallb completes (submit_all w terms subjects)); discriminate.
Qed.

Lemma fetch_deadline_fails_witness :
  fetch (example_world (landing_page one_term) 61)
  = Raise (Exception "some jobs did not complete successfully").
Proof.
  refine (proj1 (@fetch_deadline_fails
                   (example_world (landing_page one_term) 61)
                   [fall_2023] [computer_science] _ _)).
  - vm_compute. reflexivity.
  - eexists. split; [left; reflexivity|]. reflexivity.
Defined.

(* ================================================================= *)
(** * Markup Repair *)




(* ================================================================= *)
(** * The Persistence Formatter *)

(** C9: for every course, the array literal written for its attributes
    holds all of them, each between double quotes, in their original order
    (["A"; "B"] gives [{"A", "B"}]); and the document written for its time
    mapping is read back by [json.loads] as the mapping itself, day by day
    with the hours and minutes of start and end, two mappings never having
    the same document. *)
Theorem formatter_serializes_attributes_and_time :
  (forall c : Course,
      occurs_in_order (map (fun s => (dquote ++ s ++ dquote)%string) (attributes c))
                      (list_to_db_array (attributes c))
      /\ occurs_in_order (attributes c) (list_to_db_array (attributes c)))
  /\ list_to_db_array ["A"; "B"]
     = ("{" ++ dquote ++ "A" ++ dquote ++ ", " ++ dquote ++ "B" ++ dquote ++ "}")%string
  /\ (forall c : Course,
         NoDup (keys (time c)) ->
         loads (times_to_json (time c)) = Some (times_document (time c)))
  /\ (forall t1 t2, times_document t1 = times_document t2 -> t1 = t2).
Proof.
  split; [|split; [reflexivity|split]].
  - intros c.
    assert (H : occurs_in_order
                  (map (fun s => (dquote ++ s ++ dquote)%string) (attributes c))
                  (list_to_db_array (attributes c))).
    { unfold list_to_db_array. apply occurs_in_order_join. }
    split; [exact H|]. eapply occurs_in_order_inside. exact H.
  - intros c Hnd. unfold times_to_json. apply loads_dumps.
    now apply distinct_keys_times.
  - apply times_document_inj.
Qed.

Lemma formatter_serializes_attributes_and_time_witness :
  loads (times_to_json [("M", mkTimeSpan (mkTime 9 0) (mkTime 9 50))])
  = Some (times_document [("M", mkTimeSpan (mkTime 9 0) (mkTime 9 50))]).
Proof.
  apply (proj1 (proj2 (proj2 formatter_serializes_attributes_and_time))
           (mkCourse "12345" "CSCI 141 01" "Fall 2023" "20233" "Computer Science"
                     "CSCI" ["A"; "B"] "Intro" "Staff" "4"
                     [("M", mkTimeSpan (mkTime 9 0) (mkTime 9 50))]
                     10 8 "2" "OPEN")).
  cbn. repeat constructor. intros [].
Defined.

(* ================================================================= *)
(** * Further properties of [parse_time] *)

Lemma chars_day_letters s d :
  all_chars is_upper s = true -> In d (chars s) -> day_letter d.
Proof.
  induction s as [|c s IH]; cbn; intros H Hin; [contradiction|].
  apply andb_true_iff in H. destruct H as [Hc Hs].
  destruct Hin as [<-|Hin]; [exists c; auto|auto].
Qed.

Lemma span_chars_fst_all p s : all_chars p (fst (span_chars p s)) = true.
Proof.
  induction s as [|c s IH]; cbn; auto.
  destruct (p c) eqn:E; cbn; auto.
  destruct (span_chars p s). cbn in *. now rewrite E.
Qed.

Lemma re_match_time_days_upper t m :
  re_match_time t = Some m -> all_chars is_upper (g_days m) = true.
Proof.
  unfold re_match_time. pose proof (span_chars_fst_all is_upper t) as Hall.
  destruct (span_chars is_upper t) as [days rest]. cbn in Hall.
  destruct (is_empty days); [discriminate|].
  do 10 (destruct rest as [|? rest]; [discriminate|]).
  match goal with
  | |- (if ?b then _ else _) = _ -> _ => destruct b; [|discriminate]
  end.
  intros H. inversion H; subst. exact Hall.
Qed.

Lemma dict_get_In_keys {V} (d : dict V) k :
  In k (keys d) -> exists v, dict_get d k = Some v.
Proof.
  induction d as [|[k' v'] d IH]; cbn; intros H; [contradiction|].
  destruct (String.eqb_spec k' k); [eauto|].
  destruct H as [H|H]; [congruence|auto].
Qed.

(** X1: [parse_time] returns for every string, and every key of the
    mapping it returns is a single capital letter, one of the day letters of
    a token that matches the pattern. *)
Theorem parse_time_keys_are_day_letters :
  forall course_times,
  exists times,
    parse_time course_times = Return times
    /\ NoDup (keys times)
    /\ forall d, In d (keys times) ->
                 day_letter d
                 /\ exists t, In t (time_tokens course_times) /\ names_day t d.
Proof.
  intros s. eexists. split; [apply parse_time_total|]. split.
  - apply NoDup_keys_fold_apply. constructor.
  - intros d Hd. apply dict_get_In_keys in Hd. destruct Hd as [sp Hsp].
    apply dict_get_fold_origin in Hsp.
    destruct Hsp as (pre & t & m & post & Ht & Hm & Hin & _ & _).
    split.
    + eapply chars_day_letters; [|exact Hin].
      eapply re_match_time_days_upper; eauto.
    + exists t. split; [rewrite Ht; apply in_elt|]. exists m. auto.
Qed.

(** X2: blanks around and between the tokens of a schedule do not count:
    a space in front, a space at the end or a doubled space gives the same
    mapping, and a schedule made of spaces only gives the empty mapping. *)
Theorem parse_time_ignores_extra_spaces :
  (forall s, parse_time (" " ++ s) = parse_time s)
  /\ (forall s, parse_time (s ++ " ") = parse_time s)
  /\ (forall a b, parse_time (a ++ "  " ++ b) = parse_time (a ++ " " ++ b))
  /\ (forall s, all_chars (Ascii.eqb " ") s = true -> parse_time s = Return []).
Proof.
  assert (Hhead : forall s, time_tokens (String " " s) = time_tokens s).
  { intros s. exact (time_tokens_app "" s). }
  unfold parse_time. split; [|split; [|split]].
  - intros s. change (" " ++ s)%string with (String " " s). now rewrite Hhead.
  - intros s. rewrite (time_tokens_app s ""). cbn. now rewrite app_nil_r.
  - intros a b. change ("  " ++ b)%string with (String " " (String " " b)).
    change (" " ++ b)%string with (String " " b).
    rewrite (time_tokens_app a (String " " b)), Hhead.
    now rewrite (time_tokens_app a b).
  - intros s H. replace (time_tokens s) with (@nil string); [reflexivity|].
    induction s as [|c s IH]; [reflexivity|].
    cbn [all_chars] in H. apply andb_true_iff in H. destruct H as [Hc Hs].
    apply Ascii.eqb_eq in Hc. subst c.
    rewrite Hhead. auto.
Qed.

Lemma parse_time_keys_are_day_letters_witness :
  day_letter "W" /\ exists t, In t (time_tokens "MWF:0900-0950 TBA") /\ names_day t "W".
Proof.
  destruct (parse_time_keys_are_day_letters "MWF:0900-0950 TBA")
    as (times & E & _ & H).
  vm_compute in E. injection E as <-.
  apply H. cbn. auto.
Defined.

Lemma parse_time_ignores_extra_spaces_witness :
  parse_time "   " = Return [].
Proof.
  apply (proj2 (proj2 (proj2 parse_time_ignores_extra_spaces)) "   ").
  reflexivity.
Defined.

(* ================================================================= *)
(** * Further properties of [parse_table] and [parse_select] *)

Lemma split_comma_space_nonempty s : split_comma_space s <> [].
Proof.
  destruct s as [|x s]; cbn [split_comma_space]; [discriminate|].
  destruct s as [|y r].
  - cbn. discriminate.
  - destruct (Ascii.eqb x "," && Ascii.eqb y " "); [discriminate|].
    destruct (split_comma_space (String y r)); discriminate.
Qed.

Lemma join_cons_string (sep x : string) l :
  l <> [] -> join sep (x :: l) = (x ++ sep ++ join sep l)%string.
Proof. destruct l; [congruence|reflexivity]. Qed.

Lemma join_String_head sep x w ws :
  join sep (String x w :: ws) = String x (join sep (w :: ws)).
Proof. destruct ws; reflexivity. Qed.

(** Joining the parts with the separator gives the string back. *)
Lemma join_split_comma_space s : join ", " (split_comma_space s) = s.
Proof.
  assert (H : forall n s, String.length s <= n ->
                          join ", " (split_comma_space s) = s).
  { clear s. induction n as [|n IH]; intros [|x s] Hn; try reflexivity;
      cbn [String.length] in Hn; [lia|].
    assert (Hkeep : join ", " (match split_comma_space s with
                               | [] => [String x ""]
                               | w :: ws => String x w :: ws
                               end) = String x s).
    { pose proof (split_comma_space_nonempty s) as Hne.
      pose proof (IH s ltac:(lia)) as Hs.
      destruct (split_comma_space s) as [|w ws]; [congruence|].
      rewrite join_String_head. now rewrite Hs. }
    cbn [split_comma_space]. destruct s as [|y r]; [exact Hkeep|].
    destruct (Ascii.eqb x "," && Ascii.eqb y " ") eqn:E; [|exact Hkeep].
    apply andb_true_iff in E. destruct E as [Ex Ey].
    apply Ascii.eqb_eq in Ex, Ey. subst x y.
    rewrite join_cons_string by apply split_comma_space_nonempty.
    cbn [String.length] in Hn. rewrite (IH r) by lia. reflexivity. }
  apply (H (String.length s)). lia.
Qed.

Lemma nth_error_firstn_lt {A} (l : list A) n i :
  i < n -> nth_error (firstn n l) i = nth_error l i.
Proof.
  revert n l. induction i as [|i IH]; intros [|n] [|x l] Hi; cbn; auto; try lia.
  apply IH. lia.
Qed.

Section RowMore.
Variable normalize : string -> string.
Variables term_ subject_ : subject_info.

Abbreviation parse_row_of :=
  (parse_row normalize (name term_) (code term_) (name subject_) (code subject_)).
Abbreviation parse_rows_of :=
  (parse_rows normalize (name term_) (code term_) (name subject_) (code subject_)).
Abbreviation parse_table_of :=
  (parse_table normalize (name term_) (code term_) (name subject_) (code subject_)).

Ltac step_cells cells :=
  repeat (match goal with
          | |- context [nth_error cells ?i] =>
              destruct (nth_error cells i) eqn:?; cbn [bind]; [|discriminate]
          | |- context [deref ?o] =>
              destruct o eqn:?; cbn [bind deref]; [|discriminate]
          | |- context [parse_time ?s] =>
              let E := fresh "E" in
              destruct (parse_time s) eqn:E; cbn [bind]; try discriminate
          | |- context [int ?s] =>
              let E := fresh "E" in
              destruct (int s) eqn:E; cbn [bind]; try discriminate
          end).

Lemma parse_row_record row c :
  parse_row_of row = Return c -> record_of_row normalize term_ subject_ row c.
Proof.
  unfold parse_row, record_of_row, cell_text.
  generalize (find_all row "td"). intros cells. unfold index.
  step_cells cells.
  intros H. inversion H; subst; clear H. cbn.
  repeat match goal with
         | H : nth_error cells _ = Some _ |- _ => rewrite H; clear H
         end.
  cbn. repeat split; eauto.
Qed.

(** The outcome of a row depends on its first eleven cells only. *)
Lemma parse_row_first_cells row row' :
  firstn 11 (find_all row "td") = firstn 11 (find_all row' "td") ->
  parse_row_of row = parse_row_of row'.
Proof.
  unfold parse_row. generalize (find_all row "td") (find_all row' "td").
  intros cells cells' H.
  assert (Hn : forall i, i < 11 -> nth_error cells i = nth_error cells' i).
  { intros i Hi. rewrite <- (nth_error_firstn_lt cells Hi).
    rewrite <- (nth_error_firstn_lt cells' Hi). now rewrite H. }
  unfold index.
  rewrite !Hn by lia. reflexivity.
Qed.

Lemma parse_row_short row c :
  parse_row_of row = Return c -> 11 <= length (find_all row "td").
Proof.
  unfold parse_row. generalize (find_all row "td"). intros cells. unfold index.
  step_cells cells. intros _.
  match goal with
  | H : nth_error cells 10 = Some _ |- _ =>
      assert (Hs : nth_error cells 10 <> None) by (rewrite H; discriminate)
  end.
  apply nth_error_Some in Hs. lia.
Qed.

Lemma parse_rows_acc trs rows :
  parse_rows_of trs rows
  = (cs <- parse_rows_of trs [] ;; Return (rows ++ cs)).
Proof.
  revert rows. induction trs as [|r trs IH]; intros rows; cbn.
  - now rewrite app_nil_r.
  - destruct (parse_row_of r) as [c| |]; cbn; auto.
    rewrite (IH (rows ++ [c])), (IH [c]).
    destruct (parse_rows_of trs []); cbn; auto.
    now rewrite <- app_assoc.
Qed.

End RowMore.

Lemma parse_select_loop_Return els out out' :
  parse_select_loop els out = Return out' -> Forall select_child els.
Proof.
  revert out. induction els as [|el els IH]; intros out; cbn; [constructor|].
  destruct el as [s|c s|nm a cs]; cbn [parse_select_step].
  - destruct (String.eqb_spec s newline) as [->|]; cbn [bind]; [|discriminate].
    intros H. constructor; [now left|eauto].
  - destruct (String.eqb_spec s newline) as [->|]; cbn [bind]; [|discriminate].
    intros H. constructor; [right; left; now exists c|eauto].
  - destruct (get_attr a "value") as [v|] eqn:Ev; cbn [bind]; [|discriminate].
    intros H. constructor.
    + right. right. exists nm, a, cs, v. auto.
    + destruct (String.eqb v "0"); cbn [bind] in H; eauto.
Qed.

Lemma parse_select_loop_missing_value before nm a cs after out :
  Forall select_child before -> get_attr a "value" = None ->
  parse_select_loop (before ++ Tag nm a cs :: after) out = Raise KeyError.
Proof.
  intros H Ha. revert out. induction H as [|el els Hel _ IH]; intros out; cbn.
  - now rewrite Ha.
  - destruct Hel as [->|[[c ->]|(nm' & a' & cs' & v & -> & Hv)]].
    + cbn. apply IH.
    + cbn. apply IH.
    + cbn [parse_select_step]. rewrite Hv.
      destruct (String.eqb v "0"); cbn [bind]; apply IH.
Qed.

Lemma select_entries_codes els :
  Forall (fun i => code i <> "0") (select_entries els).
Proof.
  induction els as [|el els IH]; cbn; [constructor|].
  destruct el as [s|c s|nm a cs]; cbn [List.app]; auto.
  destruct (get_attr a "value") as [v|]; cbn [List.app]; auto.
  destruct (String.eqb_spec v "0"); cbn [List.app]; auto.
Qed.

(** X3: when [parse_table] returns, it returns one record for every [tr]
    of the table body, in the order of the rows; the record holds the text
    of the link of cell 0 as CRN, the texts of cells 1, 3, 4, 5, 9 and 10 as
    they are, the normalised parts of cell 2 as attributes, the schedule
    parsed from cell 6, the integers read from cells 7 and 8, and the term
    and subject of the task. *)
Theorem parse_table_records :
  forall normalize term_ subject_ soup courses,
    parse_table normalize (name term_) (code term_) (name subject_) (code subject_)
                soup = Return courses ->
    exists trs,
      table_rows soup = Return trs
      /\ Forall2 (record_of_row normalize term_ subject_) trs courses.
Proof.
  intros normalize term_ subject_ soup courses H.
  unfold parse_table in H. unfold table_rows.
  destruct (results_tbody soup) as [tbody| |]; cbn [bind] in *; try discriminate.
  eexists. split; [reflexivity|].
  apply parse_rows_Return in H. destruct H as (cs & -> & HF). cbn [List.app].
  induction HF; constructor; auto. now apply parse_row_record.
Qed.

Lemma parse_table_records_witness :
  exists trs,
    table_rows (BeautifulSoup (wellformed_markup line_break one_course)) = Return trs
    /\ Forall2 (record_of_row (fun s => s) fall_2023 computer_science) trs
               [one_course_record fall_2023 computer_science].
Proof.
  apply (@parse_table_records (fun s => s) fall_2023 computer_science).
  vm_compute. reflexivity.
Defined.

(** X4: the attributes of a record are never an empty list: they are the
    normalised parts of the attribute cell, and joining the parts with a
    comma and a space gives the text of the cell back; an empty cell gives
    the one attribute that normalising the empty string gives. *)
Theorem parse_row_attributes :
  forall normalize term_ term_code_ subject_ subject_code_ row c,
    parse_row normalize term_ term_code_ subject_ subject_code_ row = Return c ->
    exists parts,
      attributes c = map normalize parts
      /\ parts <> []
      /\ cell_text row 2 = Some (join ", " parts)
      /\ (cell_text row 2 = Some "" -> attributes c = [normalize ""]).
Proof.
  intros normalize t tc s sc row c H.
  apply (@parse_row_record normalize (mkInfo t tc) (mkInfo s sc)) in H.
  destruct H as (_ & _ & (a & Ha & Hattr) & _).
  exists (split_comma_space a). split; [exact Hattr|]. split.
  - apply split_comma_space_nonempty.
  - split.
    + now rewrite join_split_comma_space.
    + intros E. rewrite Ha in E. injection E as ->. exact Hattr.
Qed.

Lemma parse_row_attributes_witness :
  exists parts,
    attributes (one_course_record fall_2023 computer_science) = map (fun s => s) parts
    /\ parts <> []
    /\ cell_text (Tag "tr" [] (build false [] (cells_items Done (hd [] one_course)))) 2
       = Some (join ", " parts)
    /\ (cell_text (Tag "tr" [] (build false [] (cells_items Done (hd [] one_course)))) 2
        = Some "" ->
        attributes (one_course_record fall_2023 computer_science) = [""]).
Proof.
  apply (@parse_row_attributes (fun s => s) "Fall 2023" "20233"
           "Computer Science" "CSCI").
  vm_compute. reflexivity.
Defined.

(** X5: a row with fewer than eleven cells is never turned into a record;
    a row without any cell fails with an [IndexError], and a row whose first
    cell holds no link fails with an [AttributeError]. *)
Theorem parse_row_needs_eleven_cells :
  forall normalize term_ term_code_ subject_ subject_code_ row,
    let parse_row' := parse_row normalize term_ term_code_ subject_ subject_code_ in
    (forall c, parse_row' row = Return c -> 11 <= length (find_all row "td"))
    /\ (find_all row "td" = [] -> parse_row' row = Raise IndexError)
    /\ (forall c0, nth_error (find_all row "td") 0 = Some c0 ->
                   find c0 "a" = None -> parse_row' row = Raise AttributeError).
Proof.
  intros normalize t tc s sc row parse_row'. subst parse_row'. split; [|split].
  - intros c H.
    now apply (@parse_row_short normalize (mkInfo t tc) (mkInfo s sc)) in H.
  - intros H. unfold parse_row. now rewrite H.
  - intros c0 H0 Ha. unfold parse_row, index. rewrite H0. cbn [bind].
    now rewrite Ha.
Qed.

Lemma parse_row_needs_eleven_cells_witness :
  parse_row (fun s => s) "Fall 2023" "20233" "Computer Science" "CSCI"
            (Tag "tr" [] []) = Raise IndexError
  /\ parse_row (fun s => s) "Fall 2023" "20233" "Computer Science" "CSCI"
               (Tag "tr" [] [Tag "td" [] [Text "12345"]]) = Raise AttributeError.
Proof.
  split.
  - apply (proj1 (proj2 (@parse_row_needs_eleven_cells (fun s => s) "Fall 2023"
                           "20233" "Computer Science" "CSCI" (Tag "tr" [] [])))).
    reflexivity.
  - apply (proj2 (proj2 (@parse_row_needs_eleven_cells (fun s => s) "Fall 2023"
                           "20233" "Computer Science" "CSCI"
                           (Tag "tr" [] [Tag "td" [] [Text "12345"]])))
             (Tag "td" [] [Text "12345"])); reflexivity.
Defined.

(** X6: only the first eleven cells of a row count: two rows that agree on
    them give the same record, or fail in the same way, whatever cells
    follow. *)
Theorem parse_row_ignores_further_cells :
  forall normalize term_ term_code_ subject_ subject_code_ row row',
    firstn 11 (find_all row "td") = firstn 11 (find_all row' "td") ->
    parse_row normalize term_ term_code_ subject_ subject_code_ row
    = parse_row normalize term_ term_code_ subject_ subject_code_ row'.
Proof.
  intros normalize t tc s sc row row' H.
  now apply (@parse_row_first_cells normalize (mkInfo t tc) (mkInfo s sc)).
Qed.

Lemma parse_row_ignores_further_cells_witness :
  parse_row (fun s => s) "Fall 2023" "20233" "Computer Science" "CSCI"
            (Tag "tr" [] (build false []
                            (cells_items Done (hd [] one_course ++ [Txt "more" Done]))))
  = parse_row (fun s => s) "Fall 2023" "20233" "Computer Science" "CSCI"
              (Tag "tr" [] (build false [] (cells_items Done (hd [] one_course)))).
Proof.
  apply parse_row_ignores_further_cells. reflexivity.
Defined.

(** X7: [parse_select] returns only when every child of the list is a
    line break or an element with a [value]; what it returns then never
    holds an entry whose code is "0".  Without an element of the given id it
    fails with a [TypeError], and on a child element that has no [value]
    with a [KeyError]. *)
Theorem parse_select_outcomes :
  forall soup id_,
    (forall out,
        parse_select soup id_ = Return out ->
        exists el,
          find_id soup id_ = Some el
          /\ Forall select_child (contents el)
          /\ out = select_entries (contents el)
          /\ Forall (fun i => code i <> "0") out)
    /\ (find_id soup id_ = None -> parse_select soup id_ = Raise TypeError)
    /\ (forall el before nm a cs after,
           find_id soup id_ = Some el ->
           contents el = before ++ Tag nm a cs :: after ->
           Forall select_child before -> get_attr a "value" = None ->
           parse_select soup id_ = Raise KeyError).
Proof.
  intros soup id_. unfold parse_select. split; [|split].
  - intros out H. destruct (find_id soup id_) as [el|]; [|discriminate].
    exists el. split; [reflexivity|].
    pose proof (parse_select_loop_Return _ _ H) as Hch.
    rewrite (parse_select_loop_entries [] Hch) in H. injection H as <-.
    cbn [List.app]. repeat split; auto. apply select_entries_codes.
  - now intros ->.
  - intros el before nm a cs after -> -> Hb Ha.
    now apply parse_select_loop_missing_value.
Qed.

Lemma parse_select_outcomes_witness :
  parse_select (BeautifulSoup (landing_page two_terms)) "campus" = Raise TypeError
  /\ parse_select (BeautifulSoup select_with_group) "term_code" = Raise KeyError.
Proof.
  split.
  - apply (proj1 (proj2 (parse_select_outcomes
                           (BeautifulSoup (landing_page two_terms)) "campus"))).
    reflexivity.
  - apply (proj2 (proj2 (parse_select_outcomes
                           (BeautifulSoup select_with_group) "term_code"))
             (Tag "select" [("id", "term_code")]
                  [Tag "optgroup" [("label", "Terms")] []])
             [] "optgroup" [("label", "Terms")] [] []); try reflexivity.
    constructor.
Defined.

(* ================================================================= *)
(** * Further properties of [fetch] *)

Lemma In_submit_all w terms subjects fu :
  In fu (submit_all w terms subjects) ->
  exists t s, fu = submit w t s
              /\ In (t, s) (cross_product (firstn 1 terms) (firstn 10 subjects)).
Proof.
  unfold submit_all, cross_product. intros H.
  apply in_flat_map in H. destruct H as (t & Ht & H).
  apply in_map_iff in H. destruct H as (s & <- & Hs).
  exists t, s. split; [reflexivity|].
  apply in_flat_map. exists t. split; [exact Ht|].
  apply in_map_iff. eauto.
Qed.

Lemma length_firstn_le {A} n (l : list A) : length (firstn n l) <= n.
Proof. rewrite length_firstn. lia. Qed.

Lemma submit_all_length w terms subjects :
  length (submit_all w terms subjects)
  = Nat.min 1 (length terms) * Nat.min 10 (length subjects).
Proof.
  unfold submit_all. destruct terms as [|t terms]; [reflexivity|].
  change (firstn 1 (t :: terms)) with [t].
  cbn [flat_map]. rewrite app_nil_r, length_map, length_firstn.
  cbn [length]. lia.
Qed.

Lemma parse_rows_never_hangs normalize t tc s sc trs rows :
  parse_rows normalize t tc s sc trs rows <> Hang.
Proof.
  revert rows. induction trs as [|r trs IH]; intros rows; cbn; [discriminate|].
  pose proof (@parse_row_never_hangs normalize t tc s sc r) as Hr.
  destruct (parse_row normalize t tc s sc r); cbn; auto. discriminate.
Qed.

Lemma f_answered_never_hangs w t s :
  requests_get w (make_url (code t) (code s)) <> Silence ->
  f w t s <> Hang.
Proof.
  unfold f. destruct (requests_get w _) as [n page|n e|]; cbn [response_text bind];
    intros H; try discriminate; [|congruence].
  unfold repaired_soup.
  destruct (results_tbody (BeautifulSoup (html_parser w page))) as [tb|e|] eqn:E;
    cbn [bind].
  - unfold parse_table.
    match goal with
    | |- context [if ?b then _ else _] => destruct b
    end; cbn [bind];
      match goal with
      | |- context [results_tbody ?x] => destruct (results_tbody x) eqn:E'
      end; cbn [bind]; try discriminate; try apply parse_rows_never_hangs.
    all: unfold results_tbody in E';
      repeat match goal with
             | H : context [deref ?o] |- _ => destruct o; cbn in H
             end; discriminate.
  - discriminate.
  - unfold results_tbody in E.
    repeat match goal with
           | H : context [deref ?o] |- _ => destruct o; cbn in H
           end; discriminate.
Qed.

Lemma submit_completes_never_hangs w terms subjects fu :
  In fu (submit_all w terms subjects) -> completes fu = true ->
  fut_result fu <> Hang.
Proof.
  intros Hin Hc. apply In_submit_all in Hin. destruct Hin as (t & s & -> & _).
  cbn [submit fut_result]. apply f_answered_never_hangs.
  unfold completes in Hc. cbn [submit fut_done_at] in Hc.
  destruct (requests_get w _); discriminate.
Qed.

Lemma results_Return fs sets :
  results fs = Return sets ->
  sets = map rows_of fs
  /\ forall fu, In fu fs -> exists rows, fut_result fu = Return rows.
Proof.
  revert sets. induction fs as [|fu fs IH]; cbn; intros sets H.
  - inversion H. split; [reflexivity|]. intros ? [].
  - unfold rows_of at 1.
    destruct (fut_result fu) as [rows| |] eqn:E; cbn [bind] in H; try discriminate.
    destruct (results fs) as [rs| |]; cbn [bind] in H; try discriminate.
    inversion H; subst. destruct (IH rs eq_refl) as [-> Hall].
    split; [reflexivity|]. intros fu' [<-|Hin]; eauto.
Qed.

Lemma results_of_rows fs :
  (forall fu, In fu fs -> exists rows, fut_result fu = Return rows) ->
  results fs = Return (map rows_of fs).
Proof.
  induction fs as [|fu fs IH]; cbn; intros H; auto.
  destruct (H fu (or_introl eq_refl)) as [rows E].
  rewrite IH by (intros; apply H; auto).
  rewrite E. cbn [bind map]. do 2 f_equal. unfold rows_of. now rewrite E.
Qed.

(** The first error in the order of iteration is the one raised. *)
Lemma results_Raise fs :
  (forall fu, In fu fs -> fut_result fu <> Hang) ->
  (exists fu, In fu fs /\ forall rows, fut_result fu <> Return rows) ->
  exists fu e, In fu fs /\ fut_result fu = Raise e /\ results fs = Raise e.
Proof.
  induction fs as [|fu fs IH]; intros Hh (bad & Hin & Hbad); [destruct Hin|].
  cbn. destruct (fut_result fu) as [rows|e|] eqn:E; cbn [bind].
  - destruct IH as (fu' & e & Hin' & He & Hr).
    + intros; apply Hh; now right.
    + destruct Hin as [<-|Hin]; [exfalso; eapply Hbad; eauto|].
      exists bad. split; assumption.
    + exists fu', e. rewrite Hr. cbn. auto.
  - exists fu, e. auto.
  - exfalso. apply (Hh fu); [now left|exact E].
Qed.

Lemma filter_nil_all {A} (p : A -> bool) l :
  filter p l = [] -> forall x, In x l -> p x = false.
Proof.
  induction l as [|y l IH]; cbn; intros H x Hin; [destruct Hin|].
  destruct (p y) eqn:E; [discriminate|].
  destruct Hin as [<-|Hin]; auto.
Qed.

Lemma concat_perm {A} (l l' : list (list A)) :
  Permutation l l' -> Permutation (concat l) (concat l').
Proof.
  induction 1; cbn [concat].
  - constructor.
  - now apply Permutation_app_head.
  - rewrite !app_assoc. apply Permutation_app_tail, Permutation_app_comm.
  - etransitivity; eauto.
Qed.

(** Once every task is done by the deadline, [fetch_tasks] is the
    collection of the results. *)
Lemma fetch_tasks_all_done w terms subjects :
  (forall fu, In fu (submit_all w terms subjects) -> done_by 60 fu = true) ->
  fetch_tasks w terms subjects
  = (result_sets <- results (set_order w (submit_all w terms subjects)) ;;
     Return (concat result_sets)).
Proof.
  intros H. unfold fetch_tasks, leave_with, wait.
  set (fs := submit_all w terms subjects) in *.
  assert (Hc : forallb completes fs = true).
  { apply forallb_forall. intros fu Hin. specialize (H fu Hin).
    unfold done_by in H. unfold completes. now destruct (fut_done_at fu). }
  rewrite Hc.
  rewrite (filter_all (done_by 60) fs) by assumption.
  rewrite (filter_none (fun fu => negb (done_by 60 fu)) fs)
    by (intros fu Hin; now rewrite (H fu Hin)).
  pose proof (Permutation_sym (set_order_perm w [])) as Hnil.
  apply Permutation_nil in Hnil.
  rewrite Hnil. reflexivity.
Qed.

Lemma fetch_tasks_Return w terms subjects courses :
  fetch_tasks w terms subjects = Return courses ->
  forall fu, In fu (submit_all w terms subjects) -> done_by 60 fu = true.
Proof.
  unfold fetch_tasks, leave_with, wait.
  set (fs := submit_all w terms subjects).
  destruct (forallb completes fs); [|discriminate].
  destruct (0 <? length (set_order w (filter (fun fu => negb (done_by 60 fu)) fs)))%nat
    eqn:E; [discriminate|].
  intros _ fu Hin.
  apply Nat.ltb_ge in E.
  rewrite (Permutation_length (set_order_perm w _)) in E.
  destruct (filter (fun fu => negb (done_by 60 fu)) fs) eqn:Ef; [|cbn in E; lia].
  pose proof (filter_nil_all _ _ Ef fu Hin) as Hn.
  cbv beta in Hn. destruct (done_by 60 fu); [reflexivity|discriminate Hn].
Qed.

Lemma Forall2_In_r {A B} (R : A -> B -> Prop) l l' y :
  Forall2 R l l' -> In y l' -> exists x, In x l /\ R x y.
Proof.
  induction 1 as [|a b l l' Hab _ IH]; intros Hin; [destruct Hin|].
  destruct Hin as [<-|Hin].
  - exists a. split; [now left|assumption].
  - destruct (IH Hin) as (x & Hx & HR). exists x. split; [now right|assumption].
Qed.

(** A course a task returns carries the term and the subject of the task. *)
Lemma f_stamped w t s rows c :
  f w t s = Return rows -> In c rows -> stamped t s c.
Proof.
  unfold f. destruct (response_text _) as [page| |]; cbn [bind]; try discriminate.
  destruct (repaired_soup w page) as [soup| |]; cbn [bind]; try discriminate.
  unfold parse_table.
  destruct (results_tbody soup) as [tbody| |]; cbn [bind]; try discriminate.
  intros H Hin. apply parse_rows_Return in H. destruct H as (cs & -> & HF).
  cbn [List.app] in Hin.
  destruct (@Forall2_In_r _ _ _ _ _ c HF Hin) as (row & _ & Hrow).
  apply (@parse_row_record (normalize w) t s) in Hrow.
  unfold record_of_row in Hrow. unfold stamped. tauto.
Qed.

(** X8: whatever the landing page lists, the tasks submitted are the pairs
    of the first term with the first ten subjects, in the order of the two
    loops: at most ten tasks, never more than the executor has workers. *)
Theorem submit_all_bounds :
  forall w terms subjects,
    map fut_args (submit_all w terms subjects)
    = cross_product (firstn 1 terms) (firstn 10 subjects)
    /\ length (submit_all w terms subjects)
       = Nat.min 1 (length terms) * Nat.min 10 (length subjects)
    /\ length (submit_all w terms subjects) <= 10
    /\ length (submit_all w terms subjects) <= MAX_CONCURRENCY.
Proof.
  intros w terms subjects. split; [apply submit_all_args|].
  pose proof (submit_all_length w terms subjects) as H.
  unfold MAX_CONCURRENCY. repeat split; nia.
Qed.

(** X9: [fetch] is all or nothing over its tasks.  It returns courses
    exactly when every submitted task is done by the deadline and came back
    with rows; what it returns is then the rows of the tasks, task after
    task in the order in which the set of finished tasks is iterated, so a
    rearrangement of the rows in submission order that keeps the rows of a
    task together. *)
Theorem fetch_tasks_all_or_nothing :
  forall w terms subjects,
    let fs := submit_all w terms subjects in
    (forall courses,
        fetch_tasks w terms subjects = Return courses ->
        (forall fu, In fu fs -> succeeds_within 60 fu)
        /\ courses = concat (map rows_of (set_order w fs))
        /\ Permutation courses (concat (map rows_of fs)))
    /\ ((forall fu, In fu fs -> succeeds_within 60 fu) ->
        fetch_tasks w terms subjects
        = Return (concat (map rows_of (set_order w fs)))).
Proof.
  intros w terms subjects fs. subst fs. split.
  - intros courses H.
    pose proof (fetch_tasks_Return _ _ _ H) as Hdone.
    rewrite (fetch_tasks_all_done _ _ _ Hdone) in H.
    destruct (results (set_order w (submit_all w terms subjects)))
      as [sets| |] eqn:E; cbn [bind] in H; try discriminate.
    injection H as <-. apply results_Return in E. destruct E as [-> Hall].
    split; [|split].
    + intros fu Hin. split; [auto|]. apply Hall.
      apply (Permutation_in _ (Permutation_sym (set_order_perm w _))). exact Hin.
    + reflexivity.
    + apply concat_perm, Permutation_map, set_order_perm.
  - intros H. rewrite fetch_tasks_all_done by (intros fu Hin; apply (H fu Hin)).
    rewrite results_of_rows; [reflexivity|].
    intros fu Hin. apply (Permutation_in _ (set_order_perm w _)) in Hin.
    apply (H fu Hin).
Qed.

Lemma fetch_tasks_all_or_nothing_witness :
  fetch_tasks (example_world (landing_page one_term) 5) [fall_2023] [computer_science]
  = Return [one_course_record fall_2023 computer_science].
Proof.
  rewrite (proj2 (fetch_tasks_all_or_nothing
                    (example_world (landing_page one_term) 5)
                    [fall_2023] [computer_science])).
  - vm_compute. reflexivity.
  - intros fu [<-|[]]. split; [reflexivity|]. eexists. vm_compute. reflexivity.
Defined.



(** X11: every course [fetch] returns carries the name and the code of
    the first term of the landing page and the name and the code of one of
    its first ten subjects. *)
Theorem fetch_courses_stamped :
  forall w courses,
    fetch w = Return courses ->
    exists terms subjects,
      fetch_index w = Return (terms, subjects)
      /\ forall c, In c courses ->
                   exists term_ subject_,
                     In (term_, subject_)
                        (cross_product (firstn 1 terms) (firstn 10 subjects))
                     /\ stamped term_ subject_ c.
Proof.
  intros w courses H. unfold fetch in H.
  destruct (fetch_index w) as [[terms subjects]| |]; cbn [bind fst snd] in H;
    try discriminate.
  exists terms, subjects. split; [reflexivity|]. intros c Hc.
  pose proof (fetch_tasks_Return _ _ _ H) as Hdone.
  rewrite (fetch_tasks_all_done _ _ _ Hdone) in H.
  destruct (results (set_order w (submit_all w terms subjects)))
    as [sets| |] eqn:E; cbn [bind] in H; try discriminate.
  injection H as <-. apply results_Return in E. destruct E as [-> Hall].
  apply in_concat in Hc. destruct Hc as (rows & Hrows & Hc).
  apply in_map_iff in Hrows. destruct Hrows as (fu & <- & Hfu).
  apply (Permutation_in _ (set_order_perm w _)) in Hfu.
  apply In_submit_all in Hfu. destruct Hfu as (t & s & -> & Hts).
  exists t, s. split; [exact Hts|].
  unfold rows_of in Hc. cbn [submit fut_result] in Hc.
  destruct (f w t s) as [rows| |] eqn:Ef; try destruct Hc.
  eapply f_stamped; eauto.
Qed.

Lemma fetch_courses_stamped_witness :
  exists terms subjects,
    fetch_index (example_world (landing_page two_terms) 5) = Return (terms, subjects)
    /\ forall c, In c [one_course_record fall_2023 computer_science] ->
                 exists term_ subject_,
                   In (term_, subject_)
                      (cross_product (firstn 1 terms) (firstn 10 subjects))
                   /\ stamped term_ subject_ c.
Proof.
  apply (@fetch_courses_stamped (example_world (landing_page two_terms) 5)).
  vm_compute. reflexivity.
Defined.

(** X12: when the landing page lists no term or no subject, no task is
    submitted and [fetch] returns the empty list. *)
Theorem fetch_nothing_listed :
  forall w terms subjects,
    fetch_index w = Return (terms, subjects) ->
    terms = [] \/ subjects = [] ->
    submit_all w terms subjects = [] /\ fetch w = Return [].
Proof.
  intros w terms subjects Hidx Hempty.
  assert (Hs : submit_all w terms subjects = []).
  { unfold submit_all. destruct Hempty as [->| ->]; [reflexivity|].
    destruct terms; reflexivity. }
  split; [exact Hs|]. unfold fetch. rewrite Hidx. cbn [bind fst snd].
  rewrite fetch_tasks_all_done by (rewrite Hs; intros ? []).
  rewrite Hs.
  pose proof (Permutation_sym (set_order_perm w [])) as Hnil.
  apply Permutation_nil in Hnil. rewrite Hnil. reflexivity.
Qed.

Lemma fetch_nothing_listed_witness :
  submit_all (example_world (landing_page []) 5) [] [computer_science] = []
  /\ fetch (example_world (landing_page []) 5) = Return [].
Proof.
  apply (@fetch_nothing_listed (example_world (landing_page []) 5)
           [] [computer_science]).
  - vm_compute. reflexivity.
  - left. reflexivity.
Defined.

(* ================================================================= *)
(** * Further properties of the URL and of the insert statement *)

Lemma string_app_inv_head (a x y : string) :
  (a ++ x = a ++ y)%string -> x = y.
Proof. induction a as [|c a IH]; cbn; intros H; [exact H|]. injection H. exact IH. Qed.

Lemma string_app_inv_tail (x y s : string) :
  (x ++ s = y ++ s)%string -> x = y.
Proof.
  revert y. induction x as [|c x IH]; intros [|d y] H; auto.
  - exfalso. apply (f_equal String.length) in H.
    cbn [String.append String.length] in H. rewrite string_length_app in H. lia.
  - exfalso. apply (f_equal String.length) in H.
    cbn [String.append String.length] in H. rewrite string_length_app in H. lia.
  - cbn [String.append] in H. injection H as -> H. f_equal. now apply IH.
Qed.

(** A string without the character is cut at its first occurrence. *)
Lemma string_app_cut c (t1 t2 r1 r2 : string) :
  has_char c t1 = false -> has_char c t2 = false ->
  (t1 ++ String c r1 = t2 ++ String c r2)%string -> t1 = t2 /\ r1 = r2.
Proof.
  revert t2. induction t1 as [|a t1 IH]; intros [|b t2]; cbn; intros H1 H2 H.
  - injection H as ->. auto.
  - injection H as <- _. rewrite Ascii.eqb_refl in H2. discriminate.
  - injection H as -> _. rewrite Ascii.eqb_refl in H1. discriminate.
  - injection H as -> H.
    apply orb_false_iff in H1, H2. destruct H1 as [_ H1], H2 as [_ H2].
    destruct (IH t2 H1 H2 H) as [-> ->]. auto.
Qed.

(** X13: [make_url] is injective on term codes that hold no ampersand:
    two calls give the same address only for the same term and the same
    subject.  Nothing is escaped, so without this condition different
    pairs share an address. *)
Theorem make_url_injective :
  (forall term1 subject1 term2 subject2,
      has_char "&" term1 = false -> has_char "&" term2 = false ->
      make_url term1 subject1 = make_url term2 subject2 ->
      term1 = term2 /\ subject1 = subject2)
  /\ (forall a b c,
         make_url (a ++ "&term_subj=" ++ b) c = make_url a (b ++ "&term_subj=" ++ c)).
Proof.
  split.
  - intros t1 s1 t2 s2 H1 H2 H. unfold make_url in H.
    apply string_app_inv_head in H. apply string_app_inv_head in H.
    change ("&term_subj=" ++ ?x)%string with (String "&" ("term_subj=" ++ x)) in H.
    apply string_app_cut in H; [|assumption|assumption].
    destruct H as [-> H]. split; [reflexivity|].
    apply string_app_inv_head in H. now apply string_app_inv_tail in H.
  - intros a b c. unfold make_url. now rewrite !string_app_assoc.
Qed.

Lemma make_url_injective_witness :
  "20233" = "20233" /\ "CSCI" = "CSCI".
Proof.
  apply (proj1 make_url_injective "20233" "CSCI" "20233" "CSCI"); reflexivity.
Defined.

(** ** The array literal *)

Lemma join_quoted_cons v vs :
  (join ", " (map (fun s => dquote ++ s ++ dquote) (v :: vs)) ++ "}")%string
  = String quote_char (v ++ String quote_char (array_rest vs)).
Proof.
  revert v. induction vs as [|x xs IH]; intros v.
  - cbn. now rewrite !string_app_assoc.
  - change (map (fun s => dquote ++ s ++ dquote) (v :: x :: xs))%string
      with ((dquote ++ v ++ dquote)
              :: map (fun s => dquote ++ s ++ dquote) (x :: xs))%string.
    destruct (map (fun s => dquote ++ s ++ dquote) (x :: xs))%string
      as [|y ys] eqn:E; [discriminate E|].
    rewrite join_cons_cons, !string_app_assoc. rewrite <- E, IH.
    reflexivity.
Qed.

Lemma list_to_db_array_cons v vs :
  list_to_db_array (v :: vs)
  = ("{" ++ String quote_char (v ++ String quote_char (array_rest vs)))%string.
Proof. unfold list_to_db_array. now rewrite join_quoted_cons. Qed.

Lemma split_array_rest vs :
  Forall (fun s => has_char quote_char s = false) vs ->
  split_char quote_char (array_rest vs)
  = flat_map (fun x => [", "; x]) vs ++ ["}"].
Proof.
  induction 1 as [|x xs Hx _ IH]; [reflexivity|].
  cbn [array_rest flat_map]. unfold dquote.
  change (", " ++ String quote_char "" ++ x ++ String quote_char "" ++ array_rest xs)%string
    with (", " ++ String quote_char (x ++ String quote_char (array_rest xs)))%string.
  rewrite split_char_app, split_char_app, IH.
  rewrite (split_char_token _ _ Hx). reflexivity.
Qed.

Lemma split_list_to_db_array li :
  Forall (fun s => has_char quote_char s = false) li ->
  split_char quote_char (list_to_db_array li) = array_pieces li.
Proof.
  intros H. destruct H as [|v vs Hv Hvs]; [reflexivity|].
  rewrite list_to_db_array_cons, split_char_app, split_char_app.
  rewrite (split_char_token _ _ Hv), (split_array_rest Hvs). reflexivity.
Qed.

Lemma array_pieces_inj l1 l2 : array_pieces l1 = array_pieces l2 -> l1 = l2.
Proof.
  assert (Hrest : forall vs vs' : list string,
             flat_map (fun x => [", "; x]) vs ++ ["}"]
             = flat_map (fun x => [", "; x]) vs' ++ ["}"] -> vs = vs').
  { induction vs as [|x xs IH]; intros [|y ys] H; cbn in H; auto;
      try discriminate H.
    injection H as -> H. f_equal. auto. }
  destruct l1 as [|v vs], l2 as [|v' vs']; cbn; intros H; auto;
    try discriminate H.
  injection H as -> H. f_equal. auto.
Qed.

(** X14: the array literal tells apart any two lists of values that hold
    no double quote.  A double quote in a value is written as it is, so in
    general different lists share a literal. *)
Theorem list_to_db_array_injective :
  (forall l1 l2,
      Forall (fun s => has_char quote_char s = false) l1 ->
      Forall (fun s => has_char quote_char s = false) l2 ->
      list_to_db_array l1 = list_to_db_array l2 -> l1 = l2)
  /\ (forall a b,
         list_to_db_array [(a ++ dquote ++ ", " ++ dquote ++ b)%string]
         = list_to_db_array [a; b]).
Proof.
  split.
  - intros l1 l2 H1 H2 H. apply array_pieces_inj.
    rewrite <- (split_list_to_db_array H1), <- (split_list_to_db_array H2).
    now rewrite H.
  - intros a b. unfold list_to_db_array. cbn [map join String.concat].
    now rewrite !string_app_assoc.
Qed.

Lemma list_to_db_array_injective_witness :
  ["C100"; "ALV"] = ["C100"; "ALV"].
Proof.
  apply (proj1 list_to_db_array_injective ["C100"; "ALV"] ["C100"; "ALV"]).
  - repeat constructor.
  - repeat constructor.
  - reflexivity.
Defined.

(** ** The tuple of a course and the statement *)

Lemma after_prefix_sound p s r :
  after_prefix p s = Some r -> s = (p ++ r)%string.
Proof.
  revert s. induction p as [|a p IH]; intros s; cbn.
  - now intros [= ->].
  - destruct s as [|b s]; [discriminate|].
    destruct (Ascii.eqb_spec a b) as [->|]; [|discriminate].
    intros H. now rewrite (IH _ H).
Qed.

Lemma after_first_sound v s r :
  after_first v s = Some r -> exists pre, s = (pre ++ v ++ r)%string.
Proof.
  induction s as [|c s IH]; cbn [after_first].
  - destruct (after_prefix v "") eqn:E; [|discriminate].
    intros [= ->]. exists "". cbn [String.append]. now apply after_prefix_sound.
  - destruct (after_prefix v (String c s)) eqn:E.
    + intros [= ->]. exists "". cbn [String.append]. now apply after_prefix_sound.
    + intros H. destruct (IH H) as [pre ->]. exists (String c pre). reflexivity.
Qed.

Lemma in_order_sound vals s : in_order vals s = true -> occurs_in_order vals s.
Proof.
  revert s. induction vals as [|v vs IH]; intros s; cbn [in_order occurs_in_order];
    auto.
  destruct (after_first v s) as [r|] eqn:E; [|discriminate].
  intros H. destruct (after_first_sound _ _ E) as [pre ->].
  exists pre, r. auto.
Qed.

Lemma occurs_in_order_app vals1 vals2 (s1 s2 : string) :
  occurs_in_order vals1 s1 -> occurs_in_order vals2 s2 ->
  occurs_in_order (vals1 ++ vals2) (s1 ++ s2).
Proof.
  revert s1. induction vals1 as [|v vs IH]; intros s1 H1 H2.
  - now apply occurs_in_order_prefix.
  - cbn [List.app occurs_in_order] in *.
    destruct H1 as (pre & post & -> & H1).
    exists pre, (post ++ s2)%string. split.
    + now rewrite !string_app_assoc.
    + now apply IH.
Qed.

(** X15: the tuple of a course holds its fifteen fields in the order of
    the columns of the statement, each between single quotes, the
    attributes as their array literal and the schedule as its JSON
    document.  A single quote in a field is written as it is, so different
    courses share a tuple. *)
Theorem course_tuple_fields :
  (forall c,
      course_to_db_insert_query c
      = ("(" ++ join ", " (map squote (column_texts c)) ++ ")")%string
      /\ length (column_texts c) = length columns
      /\ occurs_in_order (map squote (column_texts c)) (course_to_db_insert_query c)
      /\ occurs_in_order (column_texts c) (course_to_db_insert_query c))
  /\ (forall c a b d,
         course_to_db_insert_query
           (with_title_instructor c (a ++ "', '" ++ b) d)
         = course_to_db_insert_query
             (with_title_instructor c a (b ++ "', '" ++ d))).
Proof.
  split.
  - intros c.
    assert (H : occurs_in_order (map squote (column_texts c))
                                (course_to_db_insert_query c)).
    { apply (occurs_in_order_join ", " (map squote (column_texts c)) "(" ")"). }
    repeat split; auto.
    apply (@occurs_in_order_inside "'" "'"). exact H.
  - intros c a b d. unfold course_to_db_insert_query, with_title_instructor, squote.
    cbn [crn id term term_code subject subject_code attributes title instructor
         credit_hours time proj_enr curr_enr seats_avail status].
    unfold join. cbn [String.concat]. rewrite !string_app_assoc. reflexivity.
Qed.

(** X16: the statement [build_query] writes names the fifteen columns in
    the order in which a tuple lists its fields, and then holds the tuple of
    every course, in the order of the courses; for no course at all it
    holds no tuple after [VALUES]. *)
Theorem build_query_statement :
  (forall courses,
      occurs_in_order (["INSERT INTO courses"] ++ columns ++ ["VALUES"]
                       ++ map course_to_db_insert_query courses)
                      (build_query courses))
  /\ (exists head,
         build_query [] = (head ++ "VALUES" ++ newline
                           ++ "            " ++ newline ++ "    ")%string).
Proof.
  split.
  - intros courses. unfold build_query.
    change (["INSERT INTO courses"] ++ columns ++ ["VALUES"]
            ++ map course_to_db_insert_query courses)
      with ((["INSERT INTO courses"] ++ columns ++ ["VALUES"])
            ++ map course_to_db_insert_query courses).
    apply occurs_in_order_app.
    + apply in_order_sound. vm_compute. reflexivity.
    + apply (occurs_in_order_join ", " (map course_to_db_insert_query courses) ""
               (newline ++ "    ")).
  - exists (join newline (firstn 17 query_lines) ++ newline ++ "        ")%string.
    reflexivity.
Qed.

(** ** The schedule document *)

Lemma has_char_join c sep l :
  has_char c sep = false -> Forall (fun s => has_char c s = false) l ->
  has_char c (join sep l) = false.
Proof.
  intros Hsep H. induction H as [|x l Hx Hl IH]; [reflexivity|].
  destruct l as [|y l]; [exact Hx|].
  rewrite join_cons_cons, !has_char_app, Hx, Hsep, IH. reflexivity.
Qed.

Lemma string_of_uint_no_apostrophe u :
  has_char "'" (NilEmpty.string_of_uint u) = false.
Proof. induction u; cbn; auto. Qed.

Lemma str_of_int_no_apostrophe z : has_char "'" (str_of_int z) = false.
Proof.
  assert (H : forall u, has_char "'" (NilZero.string_of_uint u) = false).
  { intros u. unfold NilZero.string_of_uint.
    destruct u; try reflexivity; apply string_of_uint_no_apostrophe. }
  unfold str_of_int, NilZero.string_of_int.
  destruct (Z.to_int z) as [u|u]; [apply H|].
  cbn [has_char]. rewrite H. reflexivity.
Qed.

Lemma encode_day_letter d :
  day_letter d -> has_char "'" (encode_string d) = false.
Proof.
  intros (c & -> & Hc).
  destruct c as [[] [] [] [] [] [] [] []]; try discriminate Hc; reflexivity.
Qed.

Lemma dumps_asdict_no_apostrophe sp : has_char "'" (dumps (asdict sp)) = false.
Proof.
  unfold asdict, asdict_Time. rewrite !dumps_JObj.
  cbn [map]. unfold member. cbn [fst snd].
  rewrite !dumps_JObj. cbn [map member fst snd dumps].
  unfold join. cbn [String.concat].
  unfold member. cbn [fst snd dumps].
  rewrite !has_char_app, !str_of_int_no_apostrophe. reflexivity.
Qed.

(** X17: the mapping [parse_time] makes of any schedule is written by
    [times_to_json] as a document that [json.loads] reads back as the same
    mapping, and that holds no single quote, so that the literal the tuple
    puts between single quotes ends where the document ends. *)
Theorem schedule_document_round_trip :
  forall course_times,
  exists times,
    parse_time course_times = Return times
    /\ loads (times_to_json times) = Some (times_document times)
    /\ has_char "'" (times_to_json times) = false.
Proof.
  intros s. eexists. split; [apply parse_time_total|].
  set (times := fold_left apply_token (time_tokens s) []).
  assert (Hnd : NoDup (keys times)) by (apply NoDup_keys_fold_apply; constructor).
  split.
  - unfold times_to_json. apply loads_dumps. now apply distinct_keys_times.
  - assert (Hkeys : Forall day_letter (keys times)).
    { apply Forall_forall. intros d Hd. apply dict_get_In_keys in Hd.
      destruct Hd as [sp Hsp]. apply dict_get_fold_origin in Hsp.
      destruct Hsp as (pre & t & m & post & _ & Hm & Hin & _ & _).
      eapply chars_day_letters; [|exact Hin].
      eapply re_match_time_days_upper; eauto. }
    unfold times_to_json, times_document. rewrite dumps_JObj.
    rewrite !has_char_app. cbn [has_char Ascii.eqb Bool.eqb orb].
    rewrite has_char_join; [reflexivity|reflexivity|].
    clearbody times. clear Hnd. induction times as [|[d sp] times IH];
      cbn [map]; constructor.
    + unfold member. cbn [fst snd]. rewrite !has_char_app.
      rewrite encode_day_letter by (inversion Hkeys; assumption).
      rewrite dumps_asdict_no_apostrophe. reflexivity.
    + apply IH. now inversion Hkeys.
Qed.

(* ================================================================= *)
(** * The markup repair on a page that needs none *)



(* ================================================================= *)
(** * The script as a whole *)

Lemma join_In sep x l :
  In x l -> exists pre post, join sep l = (pre ++ x ++ post)%string.
Proof.
  induction l as [|y l IH]; intros Hin; [destruct Hin|].
  destruct l as [|z l].
  - destruct Hin as [->|[]]. exists "", "". cbn. now rewrite string_app_nil_r.
  - rewrite join_cons_cons. destruct Hin as [->|Hin].
    + exists "", (sep ++ join sep (z :: l))%string. reflexivity.
    + destruct (IH Hin) as (pre & post & ->).
      exists (y ++ sep ++ pre)%string, post. now rewrite !string_app_assoc.
Qed.

(** X19: when the landing page is read and every submitted task comes
    back with rows within the deadline, the script prints one statement
    after what was printed before, and the statement holds the tuple of
    every course of every task; when [fetch] fails, the script fails in the
    same way and prints nothing. *)
Theorem main_prints_every_course :
  forall w stdout,
    (forall terms subjects,
        fetch_index w = Return (terms, subjects) ->
        (forall fu, In fu (submit_all w terms subjects) -> succeeds_within 60 fu) ->
        exists courses,
          fetch w = Return courses
          /\ main w stdout = Return (stdout ++ build_query courses ++ newline)%string
          /\ forall fu c,
               In fu (submit_all w terms subjects) -> In c (rows_of fu) ->
               exists pre post,
                 build_query courses
                 = (pre ++ course_to_db_insert_query c ++ post)%string)
    /\ (forall e, fetch w = Raise e -> main w stdout = Raise e).
Proof.
  intros w stdout. split.
  - intros terms subjects Hidx Hall.
    assert (Hdone : forall fu, In fu (submit_all w terms subjects) ->
                               done_by 60 fu = true)
      by (intros fu Hin; apply (Hall fu Hin)).
    assert (Hf : fetch w
                 = Return (concat (map rows_of
                                       (set_order w (submit_all w terms subjects))))).
    { unfold fetch. rewrite Hidx. cbn [bind fst snd].
      rewrite fetch_tasks_all_done by exact Hdone.
      rewrite results_of_rows; [reflexivity|].
      intros fu Hin. apply (Permutation_in _ (set_order_perm w _)) in Hin.
      apply (Hall fu Hin). }
    eexists. split; [exact Hf|]. split.
    + unfold main. rewrite Hf. reflexivity.
    + intros fu c Hfu Hc.
      assert (Hin : In c (concat (map rows_of
                                      (set_order w (submit_all w terms subjects))))).
      { apply in_concat. exists (rows_of fu). split; [|exact Hc].
        apply in_map.
        apply (Permutation_in _ (Permutation_sym (set_order_perm w _))). exact Hfu. }
      apply (in_map course_to_db_insert_query) in Hin.
      destruct (join_In ", " _ _ Hin) as (pre & post & E).
      unfold build_query. rewrite E.
      exists (join newline query_lines ++ pre)%string, (post ++ newline ++ "    ")%string.
      now rewrite !string_app_assoc.
  - intros e He. unfold main. now rewrite He.
Qed.

Lemma main_prints_every_course_witness :
  exists courses,
    fetch (example_world (landing_page one_term) 5) = Return courses
    /\ main (example_world (landing_page one_term) 5) ""
       = Return ("" ++ build_query courses ++ newline)%string
    /\ forall fu c,
         In fu (submit_all (example_world (landing_page one_term) 5)
                           [fall_2023] [computer_science]) ->
         In c (rows_of fu) ->
         exists pre post,
           build_query courses = (pre ++ course_to_db_insert_query c ++ post)%string.
Proof.
  apply (proj1 (main_prints_every_course
                  (example_world (landing_page one_term) 5) "")
           [fall_2023] [computer_science]).
  - vm_compute. reflexivity.
  - intros fu [<-|[]]. split; [reflexivity|]. eexists. vm_compute. reflexivity.
Defined.
